(** * SkinToneAnalyzer: a shallow embedding of [app.py]

    The application is one Streamlit page around a single function,
    [suggest_skin_tone]: it resolves an API key, re-encodes the uploaded
    selfie (and an optional swatch reference) as a bounded JPEG, sends one
    request with a strict JSON schema to a hosted vision model and returns
    the decoded JSON answer.  The function is wrapped in [st.cache_data].

    The development has two parts.  The first one embeds the program:
    binary64 arithmetic as the interpreter performs it, the library
    functions the code calls ([base64.b64encode], [json.loads], the imaging
    library as an interface), the process state threaded through the calls
    (secrets, environment, service, network log, memo table) and the
    functions of [app.py] under their own names.  The second part states
    and proves the properties. *)

From Stdlib Require Import ZArith QArith Qpower Lqa Lia List Bool.
From Stdlib.Strings Require Import Ascii String Byte.
From Stdlib Require Import Floats.SpecFloat.
From Stdlib Require DecimalString.
Import ListNotations.

Open Scope string_scope.
Open Scope list_scope.
Open Scope Z_scope.

(** ** Outcomes and exceptions *)

(** The exceptions the modelled code can raise.  [RuntimeError] is the one
    [_get_openai_client] raises itself; the others come from the
    interpreter and from the libraries.  [StreamlitSecretNotFoundError] is
    what a read of [st.secrets] raises when no [secrets.toml] is found (a
    plain [FileNotFoundError] in older releases of Streamlit).
    [JSONDecodeError] is kept apart from [ValueError], its base class:
    [json.loads] raises either. *)
Inductive exn : Type :=
| RuntimeError (msg : string)
| StreamlitSecretNotFoundError
| UnidentifiedImageError
| ImagingError
| ZeroDivisionError
| OverflowError
| ValueError
| APIError
| JSONDecodeError
| RecursionError.

Inductive result (A : Type) : Type :=
| Ok (a : A)
| Err (e : exn).

Arguments Ok {A} a.
Arguments Err {A} e.

Definition rbind {A B : Type} (r : result A) (k : A -> result B) : result B :=
  match r with
  | Ok a => k a
  | Err e => Err e
  end.

Definition of_option {A : Type} (e : exn) (o : option A) : result A :=
  match o with
  | Some a => Ok a
  | None => Err e
  end.

Declare Scope result_scope.
Delimit Scope result_scope with result.
Notation "x <- r ;; k" := (rbind r (fun x => k))
  (at level 61, r at next level, right associativity) : result_scope.

(** ** binary64 arithmetic

    Python floats are IEEE 754 binary64 numbers.  The operations are the
    ones of [SpecFloat], at precision 53 and maximal exponent 1024. *)

Definition prec : Z := 53.
Definition emax : Z := 1024.

(** The float literal [1.0]. *)
Definition one : spec_float := S754_finite false 4503599627370496 (-52).

(** [float(n)] for an integer [n]: nearest binary64 number, exact below 2^53. *)
Definition float_of_int (z : Z) : spec_float := binary_normalize prec emax z 0 false.

(** [a / b] on two integers: the correctly rounded quotient. *)
Definition py_int_truediv (a b : Z) : result spec_float :=
  if b =? 0 then Err ZeroDivisionError
  else if a =? 0 then Ok (S754_zero (b <? 0))
  else
    match SFdiv prec emax (S754_finite (a <? 0) (Z.to_pos (Z.abs a)) 0)
                          (S754_finite (b <? 0) (Z.to_pos (Z.abs b)) 0) with
    | S754_infinity _ => Err OverflowError
    | q => Ok q
    end.

(** [n * x] for an integer [n] and a float [x]: [n] is converted first. *)
Definition py_int_mul_float (n : Z) (x : spec_float) : result spec_float :=
  match float_of_int n with
  | S754_infinity _ => Err OverflowError
  | fn => Ok (SFmul prec emax fn x)
  end.

(** [int(x)]: truncation toward zero. *)
Definition py_int (x : spec_float) : result Z :=
  match x with
  | S754_zero _ => Ok 0
  | S754_finite s m e =>
      let v := if 0 <=? e then Zpos m * 2 ^ e else Zpos m / 2 ^ (- e) in
      Ok (if s then - v else v)
  | S754_infinity _ => Err OverflowError
  | S754_nan => Err ValueError
  end.

(** [min(a, b, c)]: the first of the smallest arguments. *)
Definition py_min3 (a b c : spec_float) : spec_float :=
  let r := a in
  let r := if SFltb b r then b else r in
  if SFltb c r then c else r.

(** *** Vocabulary for the values of floats *)

Definition pow2 (e : Z) : Q := (2 ^ e)%Q.

(** The rational number a finite float stands for (zero for the others,
    which are excluded wherever the value is used). *)
Definition F2Q (x : spec_float) : Q :=
  match x with
  | S754_finite s m e =>
      ((if s then - inject_Z (Zpos m) else inject_Z (Zpos m)) * pow2 e)%Q
  | _ => 0%Q
  end.

(** Finite, positive and with a full 53-bit mantissa. *)
Definition normal_pos (x : spec_float) : Prop :=
  match x with
  | S754_finite false m e => 2 ^ 52 <= Zpos m < 2 ^ 53
  | _ => False
  end.

(** [in_cell r X]: the float [r] is a positive normal number on one of the
    two ends of the 53-bit grid cell that contains the exact value [X]. *)
Definition in_cell (r : spec_float) (X : Q) : Prop :=
  normal_pos r /\
  exists q E : Z,
    2 ^ 52 <= q < 2 ^ 53 /\
    (inject_Z q * pow2 E <= X)%Q /\ (X < inject_Z (q + 1) * pow2 E)%Q /\
    (inject_Z q * pow2 E <= F2Q r)%Q /\ (F2Q r <= inject_Z (q + 1) * pow2 E)%Q.

(** The exponent of a finite float. *)
Definition exponent_in (lo hi : Z) (x : spec_float) : Prop :=
  match x with
  | S754_finite _ _ e => lo <= e <= hi
  | _ => True
  end.

(** ** bytes, str and truth values

    [bytes] is a list of bytes.  A [str] is kept as its UTF-8 encoding in a
    [string]; every string the program itself writes is ASCII. *)

Definition bytes : Type := list byte.

Fixpoint bytes_eqb (a b : bytes) : bool :=
  match a, b with
  | [], [] => true
  | x :: a', y :: b' => Byte.eqb x y && bytes_eqb a' b'
  | _, _ => false
  end.

(** Truth value of an optional [bytes] argument: [None] and [b""] are false. *)
Definition truthy_bytes (o : option bytes) : bool :=
  match o with
  | Some (_ :: _) => true
  | _ => false
  end.

(** Truth value of an optional [str]: [None] and [""] are false. *)
Definition truthy_str (o : option string) : bool :=
  match o with
  | Some (String _ _) => true
  | _ => false
  end.

(** [a or b] on optional strings. *)
Definition py_or (a b : option string) : option string :=
  if truthy_str a then a else b.

Definition nl : string := String (ascii_of_nat 10) EmptyString.

(** [sep.join(parts)]. *)
Fixpoint join (sep : string) (parts : list string) : string :=
  match parts with
  | [] => ""
  | [p] => p
  | p :: rest => (p ++ sep ++ join sep rest)%string
  end.

(** ** [base64.b64encode] *)

Module base64.

Definition alphabet : string :=
  "ABCDEFGHIJKLMNOPQRSTUVWXYZabcdefghijklmnopqrstuvwxyz0123456789+/".

Definition sextet (n : N) : ascii :=
  match String.get (N.to_nat n) alphabet with
  | Some c => c
  | None => "="%char
  end.

Definition pad : ascii := "="%char.

(** Three bytes give four characters; one or two trailing bytes are padded. *)
Fixpoint b64encode (s : bytes) : string :=
  match s with
  | [] => ""
  | [a] =>
      let n := Byte.to_N a in
      String (sextet (n / 4))
        (String (sextet ((n mod 4) * 16)) (String pad (String pad "")))
  | [a; b] =>
      let n := (Byte.to_N a * 256 + Byte.to_N b)%N in
      String (sextet (n / 1024))
        (String (sextet ((n / 16) mod 64))
           (String (sextet ((n mod 16) * 4)) (String pad "")))
  | a :: b :: c :: rest =>
      let n := (Byte.to_N a * 65536 + Byte.to_N b * 256 + Byte.to_N c)%N in
      String (sextet (n / 262144))
        (String (sextet ((n / 4096) mod 64))
           (String (sextet ((n / 64) mod 64))
              (String (sextet (n mod 64)) (b64encode rest))))
  end%N.

End base64.

(** ** JSON values and [json.loads] *)

(** What [json.loads] returns: [None], [bool], [int], [float], [str],
    [list] and [dict].  A [dict] keeps its keys in insertion order. *)
Unset Elimination Schemes.
Inductive jvalue : Type :=
| JNull
| JBool (b : bool)
| JInt (z : Z)
| JFloat (f : spec_float)
| JStr (s : string)
| JList (l : list jvalue)
| JDict (d : list (string * jvalue)).
Set Elimination Schemes.

(** [d.get(k)] *)
Fixpoint assoc_get {V : Type} (d : list (string * V)) (k : string) : option V :=
  match d with
  | [] => None
  | (k', v) :: d' => if String.eqb k' k then Some v else assoc_get d' k
  end.

(** [d[k] = v]: an existing key keeps its place. *)
Fixpoint assoc_set {V : Type} (d : list (string * V)) (k : string) (v : V)
  : list (string * V) :=
  match d with
  | [] => [(k, v)]
  | (k', v') :: d' =>
      if String.eqb k' k then (k, v) :: d' else (k', v') :: assoc_set d' k v
  end.

Definition dict_get (v : jvalue) (k : string) : option jvalue :=
  match v with
  | JDict d => assoc_get d k
  | _ => None
  end.

Module json.

(** Outcome of a scanner: a value and the unread input, an exception, or
    the budget of the definition used up (which never happens, see
    [budget]). *)
Inductive scan (A : Type) : Type :=
| Scanned (a : A) (rest : list ascii)
| Raises (e : exn)
| Exhausted.

Arguments Scanned {A} a rest.
Arguments Raises {A} e.
Arguments Exhausted {A}.

(** A text that is not JSON. *)
Definition Invalid {A : Type} : scan A := Raises JSONDecodeError.

Definition code (c : ascii) : N := N_of_ascii c.

Definition is_ws (c : ascii) : bool :=
  let n := code c in ((n =? 32) || (n =? 9) || (n =? 10) || (n =? 13))%N.

Fixpoint skip_ws (s : list ascii) : list ascii :=
  match s with
  | c :: r => if is_ws c then skip_ws r else s
  | [] => []
  end.

Definition is_digit (c : ascii) : bool :=
  ((48 <=? code c) && (code c <=? 57))%N.

Fixpoint span_digits (s : list ascii) : list ascii * list ascii :=
  match s with
  | c :: r =>
      if is_digit c then let (ds, r') := span_digits r in (c :: ds, r')
      else ([], s)
  | [] => ([], [])
  end.

(** Value of a run of decimal digits. *)
Definition digits_value (ds : list ascii) : Z :=
  fold_left (fun acc c => acc * 10 + Z.of_N (code c - 48)) ds 0.

Definition hex_val (c : ascii) : option N :=
  let n := code c in
  if ((48 <=? n) && (n <=? 57))%N then Some (n - 48)%N
  else if ((97 <=? n) && (n <=? 102))%N then Some (n - 87)%N
  else if ((65 <=? n) && (n <=? 70))%N then Some (n - 55)%N
  else None.

Definition hex4 (a b c d : ascii) : option N :=
  match hex_val a, hex_val b, hex_val c, hex_val d with
  | Some x, Some y, Some z, Some w => Some (((x * 16 + y) * 16 + z) * 16 + w)%N
  | _, _, _, _ => None
  end.

Definition chr (n : N) : ascii := ascii_of_N n.

(** UTF-8 encoding of a code point (surrogates are encoded like any other
    three-byte code point). *)
Definition utf8 (cp : N) : list ascii :=
  (if cp <? 128 then [chr cp]
   else if cp <? 2048 then [chr (192 + cp / 64); chr (128 + cp mod 64)]
   else if cp <? 65536 then
     [chr (224 + cp / 4096); chr (128 + (cp / 64) mod 64); chr (128 + cp mod 64)]
   else
     [chr (240 + cp / 262144); chr (128 + (cp / 4096) mod 64);
      chr (128 + (cp / 64) mod 64); chr (128 + cp mod 64)])%N.

Definition is_high_surrogate (cp : N) : bool := ((55296 <=? cp) && (cp <=? 56319))%N.
Definition is_low_surrogate (cp : N) : bool := ((56320 <=? cp) && (cp <=? 57343))%N.
Definition join_surrogates (hi lo : N) : N :=
  (65536 + (hi - 55296) * 1024 + (lo - 56320))%N.

(** A one-character escape after a backslash. *)
Definition simple_escape (c : ascii) : option ascii :=
  let n := code c in
  (if n =? 34 then Some c            (* quote *)
   else if n =? 92 then Some c       (* backslash *)
   else if n =? 47 then Some c       (* slash *)
   else if n =? 98 then Some (chr 8)
   else if n =? 102 then Some (chr 12)
   else if n =? 110 then Some (chr 10)
   else if n =? 114 then Some (chr 13)
   else if n =? 116 then Some (chr 9)
   else None)%N.

(** [scanstring], strict mode, from just after the opening quote; [acc]
    holds the characters read so far, last one first. *)
Fixpoint scanstring (s : list ascii) (acc : list ascii)
  : option (string * list ascii) :=
  match s with
  | [] => None
  | c :: r =>
      if (code c =? 34)%N then Some (string_of_list_ascii (rev acc), r)
      else if (code c =? 92)%N then
        match r with
        | [] => None
        | e :: r1 =>
            if (code e =? 117)%N then
              match r1 with
              | h1 :: h2 :: h3 :: h4 :: r2 =>
                  match hex4 h1 h2 h3 h4 with
                  | None => None
                  | Some cp =>
                      if is_high_surrogate cp then
                        match r2 with
                        | b :: u :: g1 :: g2 :: g3 :: g4 :: ((_ :: _) as r3) =>
                            if ((code b =? 92) && (code u =? 117))%N then
                              match hex4 g1 g2 g3 g4 with
                              | None => None
                              | Some cp2 =>
                                  if is_low_surrogate cp2
                                  then scanstring r3
                                         (rev_append (utf8 (join_surrogates cp cp2)) acc)
                                  else scanstring r2 (rev_append (utf8 cp) acc)
                              end
                            else scanstring r2 (rev_append (utf8 cp) acc)
                        | _ => scanstring r2 (rev_append (utf8 cp) acc)
                        end
                      else scanstring r2 (rev_append (utf8 cp) acc)
                  end
              | _ => None
              end
            else
              match simple_escape e with
              | Some x => scanstring r1 (x :: acc)
              | None => None
              end
        end
      else if (code c <? 32)%N then None
      else scanstring r (c :: acc)
  end.

(** [float(text)] for a decimal literal with digits [ds] (integer and
    fraction digits together) scaled by [10 ^ e10]: the nearest binary64
    number. *)
Definition float_of_decimal (neg : bool) (ds : list ascii) (e10 : Z) : spec_float :=
  match digits_value ds with
  | Zpos n =>
      if 0 <=? e10
      then binary_normalize prec emax
             ((if neg then -1 else 1) * (Zpos n * 10 ^ e10)) 0 false
      else SFdiv prec emax (S754_finite neg n 0)
                           (S754_finite false (Z.to_pos (10 ^ (- e10))) 0)
  | _ => S754_zero neg
  end.

(** The default limit of [int(text)] on the number of digits. *)
Definition int_max_str_digits : nat := 4300.

(** The number scanner: an optional minus sign, then a single zero or a
    nonzero digit followed by digits, then optionally a point with at least
    one digit, then optionally [e] or [E] with an optional sign and at least
    one digit.  A literal with a fraction or an exponent is a [float], any
    other an [int]; [int(text)] raises [ValueError] when the literal has
    more digits than the limit. *)
Definition match_number (s : list ascii) : scan jvalue :=
  let (neg, s1) :=
    match s with
    | c :: r => if (code c =? 45)%N then (true, r) else (false, s)
    | [] => (false, s)
    end in
  match s1 with
  | [] => Invalid
  | c :: r =>
      let int_part :=
        if ((49 <=? code c) && (code c <=? 57))%N
        then let (ds, r') := span_digits r in Some (c :: ds, r')
        else if (code c =? 48)%N then Some ([c], r)
        else None in
      match int_part with
      | None => Invalid
      | Some (ids, r1) =>
          let (fds, r2) :=
            match r1 with
            | p :: d :: r' =>
                if ((code p =? 46)%N && is_digit d)
                then let (ds, r'') := span_digits r' in (d :: ds, r'')
                else ([], r1)
            | _ => ([], r1)
            end in
          let (ex, r3) :=
            match r2 with
            | e :: r' =>
                if ((code e =? 101) || (code e =? 69))%N then
                  let (eneg, r'') :=
                    match r' with
                    | sg :: t =>
                        if (code sg =? 45)%N then (true, t)
                        else if (code sg =? 43)%N then (false, t)
                        else (false, r')
                    | [] => (false, r')
                    end in
                  let (ds, r''') := span_digits r'' in
                  match ds with
                  | [] => (None, r2)
                  | _ => (Some (if eneg then - digits_value ds else digits_value ds), r''')
                  end
                else (None, r2)
            | [] => (None, r2)
            end in
          match fds, ex with
          | [], None =>
              if Nat.ltb int_max_str_digits (List.length ids) then Raises ValueError
              else Scanned (JInt (if neg then - digits_value ids else digits_value ids)) r3
          | _, _ =>
              let e := match ex with Some e => e | None => 0 end in
              Scanned (JFloat (float_of_decimal neg (ids ++ fds)
                                 (e - Z.of_nat (List.length fds)))) r3
          end
      end
  end.

(** [true] when [s] starts with the characters of [w]; the rest follows. *)
Fixpoint strip_prefix (w : string) (s : list ascii) : option (list ascii) :=
  match w with
  | EmptyString => Some s
  | String a w' =>
      match s with
      | c :: r => if Ascii.eqb a c then strip_prefix w' r else None
      | [] => None
      end
  end.

(** The scanner.  [scan_once] reads one value; [array_items] and
    [object_items] read the items after an opening bracket, at the start of
    an item.  Every object and array entered takes one level of the
    interpreter's recursion limit: [room] is the number of levels left,
    and entering one with none left raises [RecursionError].  [fuel] is
    the budget of the definition. *)
Fixpoint scan_once (fuel : nat) (room : nat) (s : list ascii) {struct fuel}
  : scan jvalue :=
  match fuel with
  | O => Exhausted
  | S fuel' =>
      match s with
      | [] => Invalid
      | c :: r =>
          if (code c =? 34)%N then
            match scanstring r [] with
            | Some (str, r') => Scanned (JStr str) r'
            | None => Invalid
            end
          else if (code c =? 123)%N then
            match room with
            | O => Raises RecursionError
            | S room' =>
                match skip_ws r with
                | c' :: r' =>
                    if (code c' =? 125)%N then Scanned (JDict []) r'
                    else object_items fuel' room' [] (c' :: r')
                | [] => Invalid
                end
            end
          else if (code c =? 91)%N then
            match room with
            | O => Raises RecursionError
            | S room' =>
                match skip_ws r with
                | c' :: r' =>
                    if (code c' =? 93)%N then Scanned (JList []) r'
                    else array_items fuel' room' [] (c' :: r')
                | [] => Invalid
                end
            end
          else
            match strip_prefix "null" s, strip_prefix "true" s,
                  strip_prefix "false" s with
            | Some r', _, _ => Scanned JNull r'
            | _, Some r', _ => Scanned (JBool true) r'
            | _, _, Some r' => Scanned (JBool false) r'
            | _, _, _ =>
                match strip_prefix "NaN" s, strip_prefix "Infinity" s,
                      strip_prefix "-Infinity" s with
                | Some r', _, _ => Scanned (JFloat S754_nan) r'
                | _, Some r', _ => Scanned (JFloat (S754_infinity false)) r'
                | _, _, Some r' => Scanned (JFloat (S754_infinity true)) r'
                | _, _, _ => match_number s
                end
            end
      end
  end

with array_items (fuel : nat) (room : nat) (acc : list jvalue) (s : list ascii)
       {struct fuel} : scan jvalue :=
  match fuel with
  | O => Exhausted
  | S fuel' =>
      match scan_once fuel' room s with
      | Scanned v r =>
          match skip_ws r with
          | c :: r' =>
              if (code c =? 93)%N then Scanned (JList (rev (v :: acc))) r'
              else if (code c =? 44)%N
              then array_items fuel' room (v :: acc) (skip_ws r')
              else Invalid
          | [] => Invalid
          end
      | Raises e => Raises e
      | Exhausted => Exhausted
      end
  end

with object_items (fuel : nat) (room : nat) (acc : list (string * jvalue))
       (s : list ascii) {struct fuel} : scan jvalue :=
  match fuel with
  | O => Exhausted
  | S fuel' =>
      match s with
      | q :: r =>
          if (code q =? 34)%N then
            match scanstring r [] with
            | Some (key, r1) =>
                match skip_ws r1 with
                | c :: r2 =>
                    if (code c =? 58)%N then
                      match scan_once fuel' room (skip_ws r2) with
                      | Scanned v r3 =>
                          match skip_ws r3 with
                          | c' :: r4 =>
                              if (code c' =? 125)%N
                              then Scanned (JDict (assoc_set acc key v)) r4
                              else if (code c' =? 44)%N
                              then object_items fuel' room (assoc_set acc key v)
                                     (skip_ws r4)
                              else Invalid
                          | [] => Invalid
                          end
                      | Raises e => Raises e
                      | Exhausted => Exhausted
                      end
                    else Invalid
                | [] => Invalid
                end
            | None => Invalid
            end
          else Invalid
      | [] => Invalid
      end
  end.

(** The calls of the definition never nest deeper than twice the length of
    the text. *)
Definition budget (s : list ascii) : nat := 2 * List.length s + 2.

(** [json.loads(text)] with [room] levels of recursion left: one value
    with white space around it.  It raises [JSONDecodeError] for a text
    that is not JSON (the constants [NaN], [Infinity] and [-Infinity] are
    accepted), [ValueError] for an integer literal over the digit limit
    and [RecursionError] for objects and arrays nested deeper than
    [room]. *)
Definition loads (room : nat) (text : string) : result jvalue :=
  let s := skip_ws (list_ascii_of_string text) in
  match scan_once (budget s) room s with
  | Scanned v r =>
      match skip_ws r with
      | [] => Ok v
      | _ :: _ => Err JSONDecodeError
      end
  | Raises e => Err e
  | Exhausted => Err RecursionError
  end.

End json.

(** ** JSON Schema, as far as the declared schema uses it

    The service is asked to keep its answer within a schema.  [conforms]
    is the meaning of the keywords that schema uses: [type], [enum],
    [minimum], [maximum], [properties], [required], [additionalProperties]
    and [items]. *)

Definition is_number (v : jvalue) : bool :=
  match v with
  | JInt _ | JFloat _ => true
  | _ => false
  end.

Definition num_leb (a b : jvalue) : bool :=
  match a, b with
  | JInt x, JInt y => x <=? y
  | JInt x, JFloat g => SFleb (float_of_int x) g
  | JFloat f, JInt y => SFleb f (float_of_int y)
  | JFloat f, JFloat g => SFleb f g
  | _, _ => false
  end.

Definition prim_eqb (a b : jvalue) : bool :=
  match a, b with
  | JNull, JNull => true
  | JBool x, JBool y => Bool.eqb x y
  | JInt x, JInt y => x =? y
  | JStr x, JStr y => String.eqb x y
  | _, _ => false
  end.

Definition type_ok (ty : string) (v : jvalue) : bool :=
  match v with
  | JNull => String.eqb ty "null"
  | JBool _ => String.eqb ty "boolean"
  | JInt _ => String.eqb ty "number" || String.eqb ty "integer"
  | JFloat _ => String.eqb ty "number"
  | JStr _ => String.eqb ty "string"
  | JList _ => String.eqb ty "array"
  | JDict _ => String.eqb ty "object"
  end.

Definition subschema (schema : jvalue) (k : string) : option jvalue :=
  match dict_get schema "properties" with
  | Some props => dict_get props k
  | None => None
  end.

Definition closed_object (schema : jvalue) : bool :=
  match dict_get schema "additionalProperties" with
  | Some (JBool false) => true
  | _ => false
  end.

Definition has_required (schema : jvalue) (d : list (string * jvalue)) : bool :=
  match dict_get schema "required" with
  | Some (JList ks) =>
      forallb (fun k => match k with
                        | JStr name =>
                            match assoc_get d name with
                            | Some _ => true
                            | None => false
                            end
                        | _ => true
                        end) ks
  | _ => true
  end.

Fixpoint conforms (schema : jvalue) (v : jvalue) {struct v} : bool :=
  match dict_get schema "type" with
  | Some (JStr ty) => type_ok ty v
  | _ => true
  end
  && match dict_get schema "enum" with
     | Some (JList allowed) => existsb (prim_eqb v) allowed
     | _ => true
     end
  && match dict_get schema "minimum" with
     | Some lo => if is_number v then num_leb lo v else true
     | None => true
     end
  && match dict_get schema "maximum" with
     | Some hi => if is_number v then num_leb v hi else true
     | None => true
     end
  && match v with
     | JDict d =>
         has_required schema d
         && forallb (fun kv =>
                       match subschema schema (fst kv) with
                       | Some sub => conforms sub (snd kv)
                       | None => negb (closed_object schema)
                       end) d
     | JList l =>
         match dict_get schema "items" with
         | Some sub => forallb (conforms sub) l
         | None => true
         end
     | _ => true
     end.

(** ** The imaging library

    Pillow is used through five operations.  Each may raise; [None] stands
    for the exception. *)
Record ImagingLib : Type := {
  image : Type;
  (** [Image.open(io.BytesIO(b))] *)
  Image_open : bytes -> option image;
  (** [img.convert(mode)] *)
  convert : image -> string -> option image;
  (** [img.size] *)
  size : image -> Z * Z;
  (** [img.resize((w, h))] *)
  resize : image -> Z * Z -> option image;
  (** [img.save(buf, format=f, quality=q, optimize=o)], then [buf.getvalue()] *)
  save : image -> string -> Z -> bool -> option bytes
}.

(** What the library promises about [resize]: the result has the size asked for. *)
Definition resize_law (PIL : ImagingLib) : Prop :=
  forall (i i' : image PIL) (d : Z * Z),
    resize PIL i d = Some i' -> size PIL i' = d.

(** ** The process state *)

(** [OpenAI(api_key=...)] *)
Record client : Type := { api_key : string }.

(** The keyword arguments of [client.responses.create]. *)
Record request : Type := {
  model : string;
  input : jvalue;
  max_output_tokens : Z;
  text : jvalue
}.

(** What a call to the service gives: a response with its [output_text],
    or an exception of the client library. *)
Inductive reply : Type :=
| Response (output_text : string)
| Failure.

(** The arguments of [suggest_skin_tone], which [st.cache_data] keys on. *)
Definition cache_key : Type := (bytes * option bytes)%type.

Definition key_eqb (a b : cache_key) : bool :=
  bytes_eqb (fst a) (fst b)
  && match snd a, snd b with
     | None, None => true
     | Some x, Some y => bytes_eqb x y
     | _, _ => false
     end.

Record world : Type := {
  (** [st.secrets], when [st] has that attribute: the entries of
      [secrets.toml] *)
  st_secrets : option (list (string * string));
  (** whether a [secrets.toml] is found; when none is, every read of
      [st.secrets] raises *)
  secrets_found : bool;
  (** [os.environ] *)
  os_environ : list (string * string);
  (** the levels of recursion the interpreter's limit leaves to
      [json.loads] *)
  recursion_room : nat;
  (** the inference service: what it answers to the n-th call *)
  service : nat -> client -> request -> reply;
  (** the calls sent to the service so far, oldest first *)
  sent : list (client * request);
  (** the memo table of [st.cache_data] *)
  cache : list (cache_key * jvalue)
}.

Fixpoint cache_lookup (c : list (cache_key * jvalue)) (k : cache_key) : option jvalue :=
  match c with
  | [] => None
  | (k', v) :: c' => if key_eqb k' k then Some v else cache_lookup c' k
  end.

Definition with_sent (w : world) (s : list (client * request)) : world :=
  {| st_secrets := st_secrets w; secrets_found := secrets_found w;
     os_environ := os_environ w; recursion_room := recursion_room w;
     service := service w; sent := s; cache := cache w |}.

Definition with_cache (w : world) (c : list (cache_key * jvalue)) : world :=
  {| st_secrets := st_secrets w; secrets_found := secrets_found w;
     os_environ := os_environ w; recursion_room := recursion_room w;
     service := service w; sent := sent w; cache := c |}.

(** Computations that read and change the process state and may raise. *)
Definition M (A : Type) : Type := world -> result A * world.

Definition ret {A : Type} (a : A) : M A := fun w => (Ok a, w).

Definition raise {A : Type} (e : exn) : M A := fun w => (Err e, w).

Definition bind {A B : Type} (m : M A) (k : A -> M B) : M B :=
  fun w =>
    match m w with
    | (Ok a, w') => k a w'
    | (Err e, w') => (Err e, w')
    end.

Definition lift {A : Type} (r : result A) : M A := fun w => (r, w).

(** [json.loads(text)] in the process: it runs with the recursion room of
    the moment. *)
Definition json_loads (text : string) : M jvalue :=
  fun w => (json.loads (recursion_room w) text, w).

Declare Scope world_scope.
Delimit Scope world_scope with world.
Notation "x <- m ;; k" := (bind m (fun x => k))
  (at level 61, m at next level, right associativity) : world_scope.

(** [client.responses.create(...)]: the one network call. *)
Definition responses_create (c : client) (r : request) : M string :=
  fun w =>
    let w' := with_sent w (sent w ++ [(c, r)]) in
    match service w (List.length (sent w)) c r with
    | Response output_text => (Ok output_text, w')
    | Failure => (Err APIError, w')
    end.

(** [@st.cache_data]: a stored result is returned without running the
    function; a result is stored when the function returns, not when it
    raises. *)
Definition cache_data (f : bytes -> option bytes -> M jvalue)
  : bytes -> option bytes -> M jvalue :=
  fun a b w =>
    match cache_lookup (cache w) (a, b) with
    | Some v => (Ok v, w)
    | None =>
        match f a b w with
        | (Ok v, w') => (Ok v, with_cache w' (((a, b), v) :: cache w'))
        | (Err e, w') => (Err e, w')
        end
    end.

(** ** [app.py] *)

Definition SKIN_TONES : list string :=
  ["FAIR"; "LIGHT"; "LIGHT_MEDIUM"; "MEDIUM"; "MEDIUM_TAN"; "TAN"; "DARK"; "DEEP"].

Definition MODEL : string := "gpt-4.1-mini".

Definition missing_key_message : string :=
  "Missing OPENAI_API_KEY. Set it in Streamlit Secrets or as an environment variable.".

(** Line 29, [st.secrets.get("OPENAI_API_KEY")]: [get] turns a missing
    key into [None], but the read itself raises when no [secrets.toml] is
    found. *)
Definition secrets_get (w : world) (secrets : list (string * string)) (key : string)
  : result (option string) :=
  if secrets_found w then Ok (assoc_get secrets key)
  else Err StreamlitSecretNotFoundError.

(** Lines 27 to 30: the key the process resolves, Streamlit secrets first,
    then the environment; an empty string counts as no key.  The read of
    the secrets comes first and its exception leaves the function. *)
Definition resolved_key (w : world) : result (option string) :=
  (api_key <-
     match st_secrets w with
     | Some secrets => secrets_get w secrets "OPENAI_API_KEY"
     | None => Ok None
     end ;;
   Ok (py_or api_key (assoc_get (os_environ w) "OPENAI_API_KEY")))%result.

(** Lines 25 to 36: the client, the exception of the read of the secrets,
    or the [RuntimeError] of the missing key. *)
Definition _get_openai_client : M client :=
  fun w =>
    match resolved_key w with
    | Ok (Some (String c k)) => (Ok {| api_key := String c k |}, w)
    | Ok _ => (Err (RuntimeError missing_key_message), w)
    | Err e => (Err e, w)
    end.

(** Line 45: the scale factor. *)
Definition scale_factor (max_side w h : Z) : result spec_float :=
  (a <- py_int_truediv max_side w ;;
   b <- py_int_truediv max_side h ;;
   Ok (py_min3 a b one))%result.

(** Lines 45 to 47 on the size alone: the size to resize to, or [None]
    when the image is kept as it is. *)
Definition scaled_size (max_side w h : Z) : result (option (Z * Z)) :=
  (scale <- scale_factor max_side w h ;;
   if SFltb scale one then
     pw <- py_int_mul_float w scale ;;
     nw <- py_int pw ;;
     ph <- py_int_mul_float h scale ;;
     nh <- py_int ph ;;
     Ok (Some (nw, nh))
   else Ok None)%result.

Definition _to_data_url (image_jpeg_bytes : bytes) : string :=
  ("data:image/jpeg;base64," ++ base64.b64encode image_jpeg_bytes)%string.

Definition instruction : string :=
  ("You are assisting a cosmetics subscription quiz." ++ nl
   ++ "Task: choose the best matching skin tone label from this fixed set:" ++ nl
   ++ join ", " SKIN_TONES ++ "." ++ nl ++ nl
   ++ "Rules:" ++ nl
   ++ "- Focus on the person's natural skin tone (cheek/jaw/neck if visible)." ++ nl
   ++ "- Ignore background, hair, clothing, and temporary redness." ++ nl
   ++ "- Lighting can skew color; if the lighting is very tinted (strong warm/cool cast), "
   ++ "or the face/skin is not clearly visible, return skin_tone='unknown' and set "
   ++ "needs_better_photo=true." ++ nl
   ++ "- Return ONLY valid JSON that matches the provided schema.")%string.

Definition input_text (t : string) : jvalue :=
  JDict [("type", JStr "input_text"); ("text", JStr t)].

Definition input_image (url : string) : jvalue :=
  JDict [("type", JStr "input_image"); ("image_url", JStr url)].

Definition schema : jvalue :=
  JDict
    [("type", JStr "object");
     ("properties",
      JDict
        [("skin_tone",
          JDict [("type", JStr "string");
                 ("enum", JList (map JStr (SKIN_TONES ++ ["unknown"])))]);
         ("confidence",
          JDict [("type", JStr "number"); ("minimum", JInt 0); ("maximum", JInt 1)]);
         ("needs_better_photo", JDict [("type", JStr "boolean")]);
         ("notes", JDict [("type", JStr "string")]);
         ("warnings",
          JDict [("type", JStr "array"); ("items", JDict [("type", JStr "string")])])]);
     ("required",
      JList [JStr "skin_tone"; JStr "confidence"; JStr "needs_better_photo";
             JStr "notes"; JStr "warnings"]);
     ("additionalProperties", JBool false)].

Definition text_format : jvalue :=
  JDict
    [("format",
      JDict [("type", JStr "json_schema");
             ("name", JStr "skin_tone_suggestion");
             ("schema", schema);
             ("strict", JBool true)])].

Section Imaging.

Variable PIL : ImagingLib.

(** Lines 43 to 47: the image that is then saved. *)
Definition normalized_image (image_bytes : bytes) (max_side : Z)
  : result (image PIL) :=
  (opened <- of_option UnidentifiedImageError (Image_open PIL image_bytes) ;;
   img <- of_option ImagingError (convert PIL opened "RGB") ;;
   let (w, h) := size PIL img in
   target <- scaled_size max_side w h ;;
   match target with
   | Some new_size => of_option ImagingError (resize PIL img new_size)
   | None => Ok img
   end)%result.

(** Lines 39 to 51. *)
Definition _preprocess_to_jpeg_bytes (image_bytes : bytes) (max_side : Z)
  : result bytes :=
  (img <- normalized_image image_bytes max_side ;;
   of_option ImagingError (save PIL img "JPEG" 85 true))%result.

(** The function as it is written, lines 60 to 134. *)
Definition suggest_skin_tone_body
    (selfie_bytes : bytes) (reference_swatches_bytes : option bytes) : M jvalue :=
  (client <- _get_openai_client ;;
   selfie_jpeg <- lift (_preprocess_to_jpeg_bytes selfie_bytes 1024) ;;
   let selfie_url := _to_data_url selfie_jpeg in
   let content := [input_text instruction] in
   content <-
     (if truthy_bytes reference_swatches_bytes then
        ref_jpeg <- lift (_preprocess_to_jpeg_bytes
                            (match reference_swatches_bytes with
                             | Some b => b
                             | None => []
                             end) 1024) ;;
        ret (content ++ [input_image (_to_data_url ref_jpeg)])
      else ret content) ;;
   let content := content ++ [input_image selfie_url] in
   output_text <-
     responses_create client
       {| model := MODEL;
          input := JList [JDict [("role", JStr "user"); ("content", JList content)]];
          max_output_tokens := 220;
          text := text_format |} ;;
   json_loads output_text)%world.

(** The name [suggest_skin_tone] is bound to the memoized function. *)
Definition suggest_skin_tone : bytes -> option bytes -> M jvalue :=
  cache_data suggest_skin_tone_body.

(** The state after a series of further calls, whatever they return. *)
Fixpoint after_calls (calls : list (bytes * option bytes)) (w : world) : world :=
  match calls with
  | [] => w
  | (a, b) :: rest => after_calls rest (snd (suggest_skin_tone a b w))
  end.

End Imaging.

(** ** Vocabulary of the properties *)

(** The content list of a request: [input[0]["content"]]. *)
Definition content_of (r : request) : option (list jvalue) :=
  match input r with
  | JList [msg] =>
      match dict_get msg "content" with
      | Some (JList items) => Some items
      | _ => None
      end
  | _ => None
  end.

(** The schema a request declares: [text["format"]["schema"]]. *)
Definition declared_schema (r : request) : option jvalue :=
  match dict_get (text r) "format" with
  | Some fmt => dict_get fmt "schema"
  | None => None
  end.

(** The tone of a result is one of the eight labels or ["unknown"] and its
    confidence is a number between 0 and 1. *)
Definition tone_conf_ok (v : jvalue) : bool :=
  match dict_get v "skin_tone", dict_get v "confidence" with
  | Some (JStr tone), Some conf =>
      existsb (String.eqb tone) (SKIN_TONES ++ ["unknown"])
      && is_number conf && num_leb (JInt 0) conf && num_leb conf (JInt 1)
  | _, _ => false
  end.

(** The calls a run added to the network log. *)
Definition new_calls (before after : world) : list (client * request) :=
  skipn (List.length (sent before)) (sent after).

(** Lines 27 to 30 give a key that is not empty. *)
Definition key_resolved (w : world) : bool :=
  match resolved_key w with
  | Ok key => truthy_str key
  | Err _ => false
  end.




(** The request the function sends for a given content list. *)
Definition expected_request (content : list jvalue) : request :=
  {| model := MODEL;
     input := JList [JDict [("role", JStr "user"); ("content", JList content)]];
     max_output_tokens := 220;
     text := text_format |}.

(** The reference argument as the function reads it: the bytes when the
    argument is true, nothing otherwise. *)
Definition reference_of (reference_swatches_bytes : option bytes) : option bytes :=
  if truthy_bytes reference_swatches_bytes then reference_swatches_bytes else None.

(** The content list the function assembles, or the exception of the
    imaging step that keeps it from doing so. *)
Definition planned_content (PIL : ImagingLib)
    (selfie_bytes : bytes) (reference_swatches_bytes : option bytes)
  : result (list jvalue) :=
  (selfie_jpeg <- _preprocess_to_jpeg_bytes PIL selfie_bytes 1024 ;;
   match reference_of reference_swatches_bytes with
   | Some ref =>
       ref_jpeg <- _preprocess_to_jpeg_bytes PIL ref 1024 ;;
       Ok [input_text instruction;
           input_image (_to_data_url ref_jpeg);
           input_image (_to_data_url selfie_jpeg)]
   | None =>
       Ok [input_text instruction; input_image (_to_data_url selfie_jpeg)]
   end)%result.

(** An integer [n] is a nearest integer of the rational [x]. *)
Definition nearest_int (x : Q) (n : Z) : Prop :=
  (inject_Z n - (1 # 2) <= x)%Q /\ (x <= inject_Z n + (1 # 2))%Q.

(** The five fields of the declared schema, as constraints on one field. *)
Definition field_ok (name : string) (v : jvalue) : Prop :=
  (name = "skin_tone" /\ exists t, v = JStr t /\ In t (SKIN_TONES ++ ["unknown"]))
  \/ (name = "confidence" /\ is_number v = true
      /\ num_leb (JInt 0) v = true /\ num_leb v (JInt 1) = true)
  \/ (name = "needs_better_photo" /\ exists b, v = JBool b)
  \/ (name = "notes" /\ exists s, v = JStr s)
  \/ (name = "warnings" /\ exists l, v = JList l /\ forall x, In x l -> exists s, x = JStr s).

Definition required_fields : list string :=
  ["skin_tone"; "confidence"; "needs_better_photo"; "notes"; "warnings"].

(** The schemas of the five fields. *)
Definition tone_schema : jvalue :=
  JDict [("type", JStr "string"); ("enum", JList (map JStr (SKIN_TONES ++ ["unknown"])))].
Definition confidence_schema : jvalue :=
  JDict [("type", JStr "number"); ("minimum", JInt 0); ("maximum", JInt 1)].
Definition string_schema : jvalue := JDict [("type", JStr "string")].
Definition boolean_schema : jvalue := JDict [("type", JStr "boolean")].
Definition warnings_schema : jvalue :=
  JDict [("type", JStr "array"); ("items", string_schema)].

(** An answer of the shape the schema describes: a [dict] with the five
    fields, each within its constraint, and no other field. *)
Definition answer_shape (u : jvalue) : Prop :=
  exists d,
    u = JDict d
    /\ (forall k, In k required_fields -> assoc_get d k <> None)
    /\ (forall k x, In (k, x) d -> field_ok k x).

(** ** A small imaging back end and concrete process states

    They serve the closed examples: a raw format whose five-byte header
    holds a tag and the two sides, most significant byte first. *)

Definition byte_of (z : Z) : byte :=
  match Byte.of_N (Z.to_N (z mod 256)) with
  | Some b => b
  | None => x00
  end.

Definition raw_open (b : bytes) : option (Z * Z) :=
  match b with
  | tag :: w1 :: w0 :: h1 :: h0 :: _ =>
      if Byte.eqb tag x52
      then Some (Z.of_N (Byte.to_N w1) * 256 + Z.of_N (Byte.to_N w0),
                 Z.of_N (Byte.to_N h1) * 256 + Z.of_N (Byte.to_N h0))
      else None
  | _ => None
  end.

Definition raw_resize (i : Z * Z) (d : Z * Z) : option (Z * Z) :=
  if (0 <? fst d) && (0 <? snd d) then Some d else None.

Definition raw_save (i : Z * Z) (format : string) (quality : Z) (optimize : bool)
  : option bytes :=
  Some [x4a; byte_of (fst i / 256); byte_of (fst i); byte_of (snd i / 256); byte_of (snd i)].

Definition raw_pil : ImagingLib :=
  {| image := (Z * Z)%type;
     Image_open := raw_open;
     convert := fun i _ => Some i;
     size := fun i => i;
     resize := raw_resize;
     save := raw_save |}.

(** A 2 by 3 selfie and a 4096 by 7 panorama in that format. *)
Definition selfie_2x3 : bytes := [x52; x00; x02; x00; x03].
Definition panorama_4096x7 : bytes := [x52; x10; x00; x00; x07].

Definition quoted (s : string) : string :=
  (String (ascii_of_nat 34) s ++ String (ascii_of_nat 34) EmptyString)%string.

(** A service answer with the five fields, for a tone and a confidence. *)
Definition answer (tone confidence : string) : string :=
  ("{" ++ quoted "skin_tone" ++ ":" ++ quoted tone ++ ","
   ++ quoted "confidence" ++ ":" ++ confidence ++ ","
   ++ quoted "needs_better_photo" ++ ":false,"
   ++ quoted "notes" ++ ":" ++ quoted "ok" ++ ","
   ++ quoted "warnings" ++ ":[]}")%string.

(** What [json.loads] makes of [answer tone confidence] for an integer
    confidence. *)
Definition decoded_answer (tone : string) (confidence : Z) : jvalue :=
  JDict [("skin_tone", JStr tone); ("confidence", JInt confidence);
         ("needs_better_photo", JBool false); ("notes", JStr "ok");
         ("warnings", JList [])].

(** A process with a [secrets.toml] that holds no key and a key in the
    environment, nothing sent, nothing memoized, whose service gives the
    n-th call the n-th text of [texts] and fails afterwards. *)
Definition fresh_world (texts : list string) : world :=
  {| st_secrets := Some [];
     secrets_found := true;
     os_environ := [("OPENAI_API_KEY", "sk-test")];
     recursion_room := 900;
     service := fun n _ _ =>
                  match nth_error texts n with
                  | Some t => Response t
                  | None => Failure
                  end;
     sent := [];
     cache := [] |}.


(** ** Reading a base64 text back

    [unbase64] reads back what [base64.b64encode] writes: four characters
    give three bytes, and a last group padded with one or two [=] gives two
    bytes or one.  It serves to show that the encoding loses nothing. *)

Definition b64_index (c : ascii) : option N :=
  let n := N_of_ascii c in
  (if (65 <=? n) && (n <=? 90) then Some (n - 65)
   else if (97 <=? n) && (n <=? 122) then Some (n - 71)
   else if (48 <=? n) && (n <=? 57) then Some (n + 4)
   else if n =? 43 then Some 62
   else if n =? 47 then Some 63
   else None)%N.

Definition byte_of_N (n : N) : byte :=
  match Byte.of_N n with
  | Some b => b
  | None => x00
  end.

Definition is_pad (c : ascii) : bool := Ascii.eqb c base64.pad.

Fixpoint unbase64 (s : string) : option bytes :=
  match s with
  | EmptyString => Some []
  | String c1 (String c2 (String c3 (String c4 rest))) =>
      match b64_index c1, b64_index c2 with
      | Some v1, Some v2 =>
          let b1 := byte_of_N (v1 * 4 + v2 / 16) in
          match b64_index c3, b64_index c4 with
          | Some v3, Some v4 =>
              match unbase64 rest with
              | Some tl =>
                  Some (b1 :: byte_of_N ((v2 mod 16) * 16 + v3 / 4)
                           :: byte_of_N ((v3 mod 4) * 64 + v4) :: tl)
              | None => None
              end
          | Some v3, None =>
              match rest with
              | EmptyString =>
                  if is_pad c4
                  then Some [b1; byte_of_N ((v2 mod 16) * 16 + v3 / 4)]
                  else None
              | _ => None
              end
          | None, _ =>
              match rest with
              | EmptyString => if is_pad c3 && is_pad c4 then Some [b1] else None
              | _ => None
              end
          end
      | _, _ => None
      end
  | _ => None
  end%N.

(** The fixed prefix of the data URL. *)
Definition data_url_prefix : string := "data:image/jpeg;base64,".

(** ** The page: what a press on the button does (lines 159 to 188) *)

(** The calls to Streamlit by which [app.py] puts something on the page. *)
Inductive widget : Type :=
| st_spinner (label : string)
| st_error (raised : exn)
| st_subheader (body : string)
| st_json (body : jvalue)
| st_success (body : string)
| st_warning (body : string)
| st_selectbox (label : string) (options : list string) (index : nat)
| st_write (label : string) (value : string).

(** The exceptions the result handling can raise; nothing catches them. *)
Inductive page_exn : Type :=
| AttributeError
| TypeError
| Raised (e : exn).

(** [lst.index(x)]: the first position of [x], when [x in lst]. *)
Fixpoint index_of (x : string) (l : list string) : option nat :=
  match l with
  | [] => None
  | y :: l' =>
      if String.eqb y x then Some O
      else match index_of x l' with
           | Some i => Some (S i)
           | None => None
           end
  end.

Definition decimal (n : Z) : string :=
  DecimalString.NilZero.string_of_uint (N.to_uint (Z.to_N n)).

Definition two_digits (n : Z) : string :=
  if n <? 10 then ("0" ++ decimal n)%string else decimal n.

(** The quotient of two positive integers rounded to the nearest integer,
    a tie going to the even one. *)
Definition div_half_even (num den : Z) : Z :=
  let q := num / den in
  let r := num mod den in
  if 2 * r <? den then q
  else if den <? 2 * r then q + 1
  else if Z.even q then q else q + 1.

(** [format(x, ".2f")] for a float: the exact value rounded to two
    decimals, ties to even. *)
Definition format_2f (x : spec_float) : string :=
  match x with
  | S754_nan => "nan"
  | S754_infinity s => if s then "-inf" else "inf"
  | S754_zero s => if s then "-0.00" else "0.00"
  | S754_finite s m e =>
      let n := if 0 <=? e then Zpos m * 2 ^ e * 100
               else div_half_even (Zpos m * 100) (2 ^ (- e)) in
      ((if s then "-" else "") ++ decimal (n / 100)%Z ++ "."
       ++ two_digits (n mod 100)%Z)%string
  end.

(** [f"{v:.2f}"] for a decoded JSON value: numbers and booleans are
    formatted as floats, a string raises [ValueError], anything else
    [TypeError]. *)
Definition py_format_2f (v : jvalue) : page_exn + string :=
  match v with
  | JFloat f => inr (format_2f f)
  | JInt z =>
      match float_of_int z with
      | S754_infinity _ => inl (Raised OverflowError)
      | f => inr (format_2f f)
      end
  | JBool b => inr (format_2f (float_of_int (if b then 1 else 0)))
  | JStr _ => inl (Raised ValueError)
  | JNull | JList _ | JDict _ => inl TypeError
  end.

Definition warning_text : string :=
  "Could not confidently determine tone. Try a clearer photo.".

Definition success_text (suggested confidence : string) : string :=
  ("Suggested skin tone: **" ++ suggested ++ "** (confidence " ++ confidence ++ ")")%string.

Definition selectbox_label : string := "Use this selection (you can override):".

(** Lines 170 to 188: what the page shows for a result; [picked] is the
    option the user picks in the select box, if any. *)
Definition show_result (result : jvalue) (picked : option string)
  : list widget * option page_exn :=
  let shown := [st_subheader "Result"; st_json result] in
  match result with
  | JDict d =>
      let suggested :=
        match assoc_get d "skin_tone" with
        | Some v => v
        | None => JStr "unknown"
        end in
      let choose (shown : list widget) (idx : nat) :=
        let final_choice :=
          match picked with
          | Some option => option
          | None => nth idx SKIN_TONES ""
          end in
        (shown ++ [st_selectbox selectbox_label SKIN_TONES idx;
                   st_write "Final selection:" final_choice], None) in
      match suggested with
      | JStr tone =>
          match index_of tone SKIN_TONES with
          | Some idx =>
              let confidence :=
                match assoc_get d "confidence" with
                | Some c => c
                | None => JInt 0
                end in
              match py_format_2f confidence with
              | inr c => choose (shown ++ [st_success (success_text tone c)]) idx
              | inl e => (shown, Some e)
              end
          | None => choose (shown ++ [st_warning warning_text]) O
          end
      | _ => choose (shown ++ [st_warning warning_text]) O
      end
  | _ => (shown, Some AttributeError)
  end.

(** Lines 160 to 188: the body of [if st.button(...)], for an uploaded
    selfie and an optional uploaded reference. *)
Definition on_click (PIL : ImagingLib) (selfie : bytes) (ref : option bytes)
    (picked : option string) : world -> (list widget * option page_exn) * world :=
  fun w =>
    match suggest_skin_tone PIL selfie ref w with
    | (Err e, w') => ([st_spinner "Analyzing..."; st_error e], None, w')
    | (Ok result, w') =>
        let (shown, uncaught) := show_result result picked in
        (st_spinner "Analyzing..." :: shown, uncaught, w')
    end.

(** A 4096 by 3 strip in the raw format of [raw_pil]. *)
Definition strip_4096x3 : bytes := [x52; x10; x00; x00; x03].


(** The key under which the API key is looked up. *)
Definition OPENAI_API_KEY : string := "OPENAI_API_KEY".


(** Bytes that are no image in the raw format. *)
Definition no_image : bytes := [x00; x01].

(** A process with one key in the Streamlit secrets and another one in
    the environment, whose service answers the first call with a
    conforming text. *)
Definition two_keys_world : world :=
  {| st_secrets := Some [(OPENAI_API_KEY, "sk-secret")];
     secrets_found := true;
     os_environ := [(OPENAI_API_KEY, "sk-env")];
     recursion_room := 900;
     service := service (fresh_world [answer "TAN" "1"]);
     sent := [];
     cache := [] |}.

(** A process whose service answers with the tone TAN and, against the
    schema, a confidence that is a string. *)
Definition worded_confidence_world : world :=
  fresh_world [answer "TAN" (quoted "high")].

(** A process without a [secrets.toml] and with a key in the environment. *)
Definition no_secrets_file_world : world :=
  {| st_secrets := Some [];
     secrets_found := false;
     os_environ := [(OPENAI_API_KEY, "sk-env")];
     recursion_room := 900;
     service := service (fresh_world [answer "TAN" "1"]);
     sent := [];
     cache := [] |}.

(** [n] times the character [c]. *)
Definition repeated (c : ascii) (n : nat) : string :=
  string_of_list_ascii (repeat c n).

(** * Properties

    ** binary64: the shape of a rounded result *)

(** The number of binary digits of a positive number. *)
Lemma digits2_pos_bounds (p : positive) :
  2 ^ (Zpos (digits2_pos p) - 1) <= Zpos p < 2 ^ Zpos (digits2_pos p).
Proof.
  induction p as [p IH | p IH |]; cbn [digits2_pos].
  - rewrite Pos2Z.inj_succ.
    replace (Z.succ (Zpos (digits2_pos p)) - 1) with (Z.succ (Zpos (digits2_pos p) - 1)) by lia.
    rewrite !Z.pow_succ_r by lia. lia.
  - rewrite Pos2Z.inj_succ.
    replace (Z.succ (Zpos (digits2_pos p)) - 1) with (Z.succ (Zpos (digits2_pos p) - 1)) by lia.
    rewrite !Z.pow_succ_r by lia. lia.
  - cbn. lia.
Qed.

(** Shifting a mantissa right: the kept part is the quotient by a power
    of two, whatever the round and sticky bits record. *)
Lemma shr_1_m (r : shr_record) :
  0 <= shr_m r -> shr_m (shr_1 r) = shr_m r / 2.
Proof.
  destruct r as [m r s]; cbn [shr_m]. intros Hm.
  destruct m as [| [p | p |] | p]; cbn [shr_1 shr_m];
    try lia; rewrite <- Z.div2_div; reflexivity.
Qed.

Lemma shr_1_nonneg (r : shr_record) : 0 <= shr_m r -> 0 <= shr_m (shr_1 r).
Proof. intros H. rewrite shr_1_m by assumption. apply Z.div_pos; lia. Qed.

Lemma iter_shr_1_m (p : positive) :
  forall r, 0 <= shr_m r ->
    shr_m (iter_pos shr_1 p r) = shr_m r / 2 ^ Zpos p.
Proof.
  induction p as [p IH | p IH |]; intros r Hr; cbn [iter_pos].
  - assert (H1 : 0 <= shr_m (shr_1 r)) by now apply shr_1_nonneg.
    assert (H2 : 0 <= shr_m (iter_pos shr_1 p (shr_1 r))).
    { rewrite IH by assumption. apply Z.div_pos; [assumption | apply Z.pow_pos_nonneg; lia]. }
    rewrite IH, IH, shr_1_m by assumption.
    rewrite !Z.div_div by (try apply Z.pow_pos_nonneg; lia).
    f_equal. change (Zpos p~1) with (2 * Zpos p + 1).
    replace (2 * Zpos p + 1) with (1 + Zpos p + Zpos p) by lia.
    rewrite !Z.pow_add_r by lia. change (2 ^ 1) with 2. lia.
  - assert (H2 : 0 <= shr_m (iter_pos shr_1 p r)).
    { rewrite IH by assumption. apply Z.div_pos; [assumption | apply Z.pow_pos_nonneg; lia]. }
    rewrite IH, IH by assumption.
    rewrite !Z.div_div by (try apply Z.pow_pos_nonneg; lia).
    f_equal. change (Zpos p~0) with (2 * Zpos p).
    replace (2 * Zpos p) with (Zpos p + Zpos p) by lia.
    rewrite Z.pow_add_r by lia. lia.
  - rewrite shr_1_m by assumption. reflexivity.
Qed.

Lemma digits2_pos_unique (p : positive) (d : Z) :
  2 ^ (d - 1) <= Zpos p < 2 ^ d -> Zpos (digits2_pos p) = d.
Proof.
  intros [Hlo Hhi]. pose proof (digits2_pos_bounds p) as [Blo Bhi].
  assert (0 < d).
  { destruct (Z.ltb_spec 0 d); [assumption |].
    destruct (Z.eq_dec d 0) as [-> | ]; [cbn in Hhi; lia |].
    rewrite Z.pow_neg_r in Hhi by lia. lia. }
  assert (Zpos (digits2_pos p) - 1 < d).
  { apply (Z.pow_lt_mono_r_iff 2); lia. }
  assert (d - 1 < Zpos (digits2_pos p)).
  { apply (Z.pow_lt_mono_r_iff 2); lia. }
  lia.
Qed.

Lemma fexp_normal (e : Z) : -1074 <= e - 53 -> fexp prec emax e = e - 53.
Proof. unfold fexp, emin, prec, emax. lia. Qed.

Lemma shr_fexp_normal (m : positive) (e : Z) (l : location) :
  let d := Zpos (digits2_pos m) in
  53 <= d -> -1074 <= e + d - 53 ->
  shr_m (fst (shr_fexp prec emax (Zpos m) e l)) = Zpos m / 2 ^ (d - 53) /\
  snd (shr_fexp prec emax (Zpos m) e l) = e + (d - 53).
Proof.
  intros d Hd He. unfold shr_fexp. cbn [Zdigits2]. fold d.
  rewrite fexp_normal by lia.
  replace (d + e - 53 - e) with (d - 53) by lia.
  assert (Hm : shr_m (shr_record_of_loc (Zpos m) l) = Zpos m).
  { destruct l as [| []]; reflexivity. }
  destruct (d - 53) as [| n | n] eqn:En; cbn [shr fst snd]; try lia.
  - rewrite Hm, Z.div_1_r. lia.
  - rewrite iter_shr_1_m by (rewrite Hm; lia). rewrite Hm. lia.
Qed.

(** Rounding to nearest keeps the truncated mantissa or adds one to it. *)
Lemma round_nearest_even_cases (m : Z) (l : location) :
  round_nearest_even m l = m \/ round_nearest_even m l = m + 1.
Proof.
  destruct l as [| []]; cbn [round_nearest_even]; auto.
  destruct (Z.even m); auto.
Qed.

(** The rounding step shared by multiplication and division, in the
    normal range: the mantissa is cut to 53 bits, then kept or increased by
    one; when it reaches 2^53 it is renormalized to 2^52 with the next
    exponent. *)
Lemma round_aux_normal (mx : positive) (ex : Z) (lx : location) :
  let d := Zpos (digits2_pos mx) in
  let n := d - 53 in
  let q := Zpos mx / 2 ^ n in
  53 <= d -> -1074 <= ex + n -> ex + n < 971 ->
  exists m' e',
    binary_round_aux prec emax false (Zpos mx) ex lx = S754_finite false m' e' /\
    2 ^ 52 <= Zpos m' < 2 ^ 53 /\
    2 ^ 52 <= q < 2 ^ 53 /\
    ((e' = ex + n /\ (Zpos m' = q \/ Zpos m' = q + 1)) \/
     (e' = ex + n + 1 /\ Zpos m' = 2 ^ 52 /\ q + 1 = 2 ^ 53)).
Proof.
  intros d n q Hd Hlo Hhi.
  pose proof (digits2_pos_bounds mx) as [Blo Bhi]. fold d in Blo, Bhi.
  assert (Hq : 2 ^ 52 <= q < 2 ^ 53).
  { unfold q. assert (Hn : 0 <= n) by (unfold n; lia).
    assert (E1 : 2 ^ (d - 1) = 2 ^ 52 * 2 ^ n).
    { rewrite <- Z.pow_add_r by lia. f_equal. unfold n. lia. }
    assert (E2 : 2 ^ d = 2 ^ 53 * 2 ^ n).
    { rewrite <- Z.pow_add_r by lia. f_equal. unfold n. lia. }
    assert (0 < 2 ^ n) by (apply Z.pow_pos_nonneg; lia).
    split.
    - apply Z.div_le_lower_bound; lia.
    - apply Z.div_lt_upper_bound; lia. }
  unfold binary_round_aux.
  destruct (shr_fexp_normal mx ex lx) as [S1 S2]; [fold d; lia | fold d; unfold n in Hlo; lia |].
  fold d in S1, S2. fold n in S1, S2. fold q in S1.
  destruct (shr_fexp prec emax (Zpos mx) ex lx) as [mrs' e'] eqn:E1.
  cbn [fst snd] in S1, S2. subst e'. rewrite S1.
  set (m1 := round_nearest_even q (loc_of_shr_record mrs')).
  assert (Hm1 : m1 = q \/ m1 = q + 1) by apply round_nearest_even_cases.
  destruct m1 as [| p1 | p1] eqn:Em1; try lia.
  destruct (Z.eq_dec (Zpos p1) (2 ^ 53)) as [Htop | Htop].
  - (* the rounded mantissa reached 2^53: one more shift *)
    assert (D1 : Zpos (digits2_pos p1) = 54).
    { apply digits2_pos_unique. rewrite Htop. cbn. lia. }
    destruct (shr_fexp_normal p1 (ex + n) loc_Exact) as [T1 T2]; [lia | lia |].
    rewrite D1 in T1, T2.
    destruct (shr_fexp prec emax (Zpos p1) (ex + n) loc_Exact) as [mrs2 e2] eqn:E2.
    cbn [fst snd] in T1, T2. subst e2. rewrite T1, Htop.
    change (2 ^ 53 / 2 ^ (54 - 53)) with (Zpos 4503599627370496).
    replace (ex + n + (54 - 53) <=? emax - prec) with true
      by (symmetry; apply Z.leb_le; unfold emax, prec; lia).
    exists 4503599627370496%positive, (ex + n + 1).
    split; [f_equal; lia |]. split; [cbn; lia |]. split; [assumption |].
    right. split; [reflexivity |]. split; [reflexivity |]. lia.
  - assert (D1 : Zpos (digits2_pos p1) = 53).
    { apply digits2_pos_unique. change (53 - 1) with 52. lia. }
    destruct (shr_fexp_normal p1 (ex + n) loc_Exact) as [T1 T2]; [lia | lia |].
    rewrite D1 in T1, T2.
    destruct (shr_fexp prec emax (Zpos p1) (ex + n) loc_Exact) as [mrs2 e2] eqn:E2.
    cbn [fst snd] in T1, T2. subst e2. rewrite T1.
    change (2 ^ (53 - 53)) with 1. rewrite Z.div_1_r.
    replace (ex + n + (53 - 53) <=? emax - prec) with true
      by (symmetry; apply Z.leb_le; unfold emax, prec; lia).
    exists p1, (ex + n).
    split; [f_equal; lia |]. split; [lia |]. split; [assumption |].
    left. split; [reflexivity |]. lia.
Qed.
(** *** Powers of two as rationals *)

Lemma pow2_pos (e : Z) : (0 < pow2 e)%Q.
Proof. unfold pow2. apply Qpower_0_lt. reflexivity. Qed.

Lemma pow2_add (a b : Z) : (pow2 (a + b) == pow2 a * pow2 b)%Q.
Proof. unfold pow2. apply Qpower_plus. discriminate. Qed.

Lemma pow2_le (a b : Z) : a <= b -> (pow2 a <= pow2 b)%Q.
Proof. intros H. unfold pow2. apply Qpower_le_compat_l; [assumption | discriminate]. Qed.

Lemma pow2_lt (a b : Z) : a < b -> (pow2 a < pow2 b)%Q.
Proof. intros H. unfold pow2. apply Qpower_lt_compat_l; [assumption | reflexivity]. Qed.

Lemma pow2_lt_inv (a b : Z) : (pow2 a < pow2 b)%Q -> a < b.
Proof. unfold pow2. intros H. apply Qpower_lt_compat_l_inv with (q := 2%Q); [assumption | reflexivity]. Qed.

Lemma pow2_Z (n : Z) : 0 <= n -> (inject_Z (2 ^ n) == pow2 n)%Q.
Proof. intros H. unfold pow2. now rewrite Zpower_Qpower. Qed.

Lemma pow2_0 : (pow2 0 == 1)%Q.
Proof. reflexivity. Qed.

Lemma pow2_shift (m n e : Z) :
  0 <= n -> (inject_Z (m * 2 ^ n) * pow2 e == inject_Z m * pow2 (e + n))%Q.
Proof.
  intros Hn. rewrite inject_Z_mult, pow2_add, pow2_Z by assumption. ring.
Qed.




(** The same step on values: the result is an end of the grid cell of the
    exact value. *)
Lemma round_aux_cell (mx : positive) (ex : Z) (lx : location) (X : Q) :
  let d := Zpos (digits2_pos mx) in
  53 <= d -> -1074 <= ex + (d - 53) -> ex + (d - 53) < 971 ->
  (inject_Z (Zpos mx) * pow2 ex <= X)%Q ->
  (X < inject_Z (Zpos mx + 1) * pow2 ex)%Q ->
  in_cell (binary_round_aux prec emax false (Zpos mx) ex lx) X.
Proof.
  intros d Hd Hlo Hhi HX1 HX2.
  destruct (round_aux_normal mx ex lx Hd Hlo Hhi)
    as (m' & e' & -> & Hm' & Hq & Hcase).
  fold d in Hq, Hcase.
  set (n := d - 53) in *. set (q := Zpos mx / 2 ^ n) in *.
  assert (Hn : 0 <= n) by (unfold n; lia).
  assert (P2 : 0 < 2 ^ n) by (apply Z.pow_pos_nonneg; lia).
  assert (Hdiv : q * 2 ^ n <= Zpos mx /\ Zpos mx + 1 <= (q + 1) * 2 ^ n).
  { pose proof (Z.div_mod (Zpos mx) (2 ^ n) ltac:(lia)) as E.
    pose proof (Z.mod_pos_bound (Zpos mx) (2 ^ n) P2). fold q in E. nia. }
  destruct Hdiv as [D1 D2].
  assert (Q1 : (inject_Z q * pow2 (ex + n) <= inject_Z (Zpos mx) * pow2 ex)%Q).
  { rewrite <- pow2_shift by assumption.
    apply Qmult_le_compat_r; [| apply Qlt_le_weak, pow2_pos].
    rewrite <- Zle_Qle. assumption. }
  assert (Q2 : (inject_Z (Zpos mx + 1) * pow2 ex <= inject_Z (q + 1) * pow2 (ex + n))%Q).
  { rewrite <- pow2_shift by assumption.
    apply Qmult_le_compat_r; [| apply Qlt_le_weak, pow2_pos].
    rewrite <- Zle_Qle. assumption. }
  split; [exact Hm' |].
  exists q, (ex + n). split; [assumption |].
  split; [lra |]. split; [lra |].
  cbn [F2Q].
  destruct Hcase as [[-> [-> | ->]] | (-> & -> & Htop)].
  - split; [lra |].
    apply Qmult_le_compat_r; [| apply Qlt_le_weak, pow2_pos].
    rewrite <- Zle_Qle. lia.
  - split; [| lra].
    apply Qmult_le_compat_r; [| apply Qlt_le_weak, pow2_pos].
    rewrite <- Zle_Qle. lia.
  - assert (E : (inject_Z (2 ^ 52) * pow2 (ex + n + 1) == inject_Z (q + 1) * pow2 (ex + n))%Q).
    { rewrite Htop. rewrite (pow2_add (ex + n) 1).
      change (2 ^ 53) with (2 ^ 52 * 2). rewrite inject_Z_mult.
      change (pow2 1) with (inject_Z 2). ring. }
    rewrite E. split; [| lra].
    apply Qmult_le_compat_r; [| apply Qlt_le_weak, pow2_pos].
    rewrite <- Zle_Qle. lia.
Qed.

(** *** Conversion of integers, product, quotient *)

Lemma iter_xO (m k : positive) : Zpos (Pos.iter xO m k) = Zpos m * 2 ^ Zpos k.
Proof.
  induction k as [| k IH] using Pos.peano_ind.
  - cbn [Pos.iter]. lia.
  - rewrite Pos.iter_succ, Pos2Z.inj_succ, Z.pow_succ_r by lia.
    rewrite Pos2Z.inj_xO, IH. lia.
Qed.

(** A 53-bit mantissa with nothing cut off is kept as it is. *)
Lemma round_aux_exact (mx : positive) (ex : Z) :
  Zpos (digits2_pos mx) = 53 -> -1074 <= ex <= 971 ->
  binary_round_aux prec emax false (Zpos mx) ex loc_Exact = S754_finite false mx ex.
Proof.
  intros Hd He. unfold binary_round_aux.
  assert (S : shr_fexp prec emax (Zpos mx) ex loc_Exact
              = ({| shr_m := Zpos mx; shr_r := false; shr_s := false |}, ex)).
  { unfold shr_fexp. cbn [Zdigits2]. rewrite Hd, fexp_normal by lia.
    replace (53 + ex - 53 - ex) with 0 by lia. reflexivity. }
  rewrite S. cbn [shr_m loc_of_shr_record round_nearest_even].
  rewrite S. cbn [shr_m].
  replace (ex <=? emax - prec) with true
    by (symmetry; apply Z.leb_le; unfold emax, prec; lia).
  reflexivity.
Qed.


(** [float(w)] is exact for a positive integer below 2^53. *)
Lemma float_of_int_exact (w : positive) :
  Zpos w < 2 ^ 53 ->
  normal_pos (float_of_int (Zpos w)) /\
  (F2Q (float_of_int (Zpos w)) == inject_Z (Zpos w))%Q /\
  exists m e, float_of_int (Zpos w) = S754_finite false m e /\ -52 <= e <= 0.
Proof.
  intros Hw. unfold float_of_int, binary_normalize, binary_round.
  pose proof (digits2_pos_bounds w) as [Blo Bhi].
  set (d := Zpos (digits2_pos w)) in *.
  assert (Hd : 1 <= d <= 53).
  { split; [unfold d; lia |].
    destruct (Z.leb_spec d 53); [assumption |].
    assert (2 ^ 53 <= 2 ^ (d - 1)) by (apply Z.pow_le_mono_r; lia). lia. }
  replace (d + 0) with d by lia. rewrite fexp_normal by lia.
  unfold shl_align.
  destruct (d - 53 - 0) as [| k | k] eqn:Ek; try lia.
  - assert (d = 53) by lia.
    rewrite round_aux_exact by (fold d; lia).
    split; [cbn [normal_pos]; change (53 - 1) with 52 in *; replace d with 53 in * by lia; lia |].
    split; [cbn [F2Q]; rewrite pow2_0; ring |].
    exists w, 0. split; [reflexivity | lia].
  - assert (Hk : Zpos k = 53 - d) by lia.
    assert (Hm : Zpos (Pos.iter xO w k) = Zpos w * 2 ^ (53 - d))
      by (rewrite iter_xO, Hk; reflexivity).
    assert (P2 : 2 ^ 52 = 2 ^ (d - 1) * 2 ^ (53 - d)).
    { rewrite <- Z.pow_add_r by lia. f_equal. lia. }
    assert (P3 : 2 ^ 53 = 2 ^ d * 2 ^ (53 - d)).
    { rewrite <- Z.pow_add_r by lia. f_equal. lia. }
    assert (P4 : 0 < 2 ^ (53 - d)) by (apply Z.pow_pos_nonneg; lia).
    assert (Hr : 2 ^ 52 <= Zpos (Pos.iter xO w k) < 2 ^ 53) by (rewrite Hm; nia).
    rewrite round_aux_exact; [| apply digits2_pos_unique; change (53 - 1) with 52; lia | lia].
    split; [exact Hr |].
    split.
    + cbn [F2Q]. rewrite Hm, pow2_shift by lia.
      replace (d - 53 + (53 - d)) with 0 by lia. rewrite pow2_0. ring.
    + exists (Pos.iter xO w k), (d - 53). split; [reflexivity | lia].
Qed.

(** The product of two positive normal floats is an end of the cell of the
    exact product. *)
Lemma SFmul_cell (x y : spec_float) :
  normal_pos x -> normal_pos y ->
  exponent_in (-500) 400 x -> exponent_in (-500) 400 y ->
  in_cell (SFmul prec emax x y) (F2Q x * F2Q y).
Proof.
  destruct x as [| | | [] mx ex]; cbn [normal_pos]; try tauto.
  destruct y as [| | | [] my ey]; cbn [normal_pos]; try tauto.
  cbn [exponent_in]. intros Hx Hy Ex Ey.
  cbn [SFmul xorb].
  assert (Hprod : 2 ^ 104 <= Zpos (mx * my) < 2 ^ 106).
  { rewrite Pos2Z.inj_mul.
    change (2 ^ 104) with (2 ^ 52 * 2 ^ 52). change (2 ^ 106) with (2 ^ 53 * 2 ^ 53).
    nia. }
  pose proof (digits2_pos_bounds (mx * my)) as [Blo Bhi].
  set (d := Zpos (digits2_pos (mx * my))) in *.
  assert (Hd : 105 <= d <= 106).
  { split.
    - destruct (Z.leb_spec 105 d); [assumption |].
      assert (2 ^ d <= 2 ^ 104) by (apply Z.pow_le_mono_r; lia). lia.
    - destruct (Z.leb_spec d 106); [assumption |].
      assert (2 ^ 106 <= 2 ^ (d - 1)) by (apply Z.pow_le_mono_r; lia). lia. }
  apply round_aux_cell; fold d; try lia.
  - cbn [F2Q]. rewrite Pos2Z.inj_mul, inject_Z_mult, pow2_add.
    apply Qle_lteq. right. ring.
  - cbn [F2Q]. rewrite Pos2Z.inj_mul, !inject_Z_plus, inject_Z_mult, pow2_add.
    pose proof (pow2_pos ex). pose proof (pow2_pos ey).
    assert (0 < pow2 ex * pow2 ey)%Q by nra.
    change (inject_Z 1) with 1%Q. nra.
Qed.

Lemma digits_range (p : positive) (lo hi : Z) :
  0 <= lo -> 2 ^ lo <= Zpos p < 2 ^ hi -> lo + 1 <= Zpos (digits2_pos p) <= hi.
Proof.
  intros Hlo [H1 H2]. pose proof (digits2_pos_bounds p) as [Blo Bhi].
  set (d := Zpos (digits2_pos p)) in *.
  split.
  - destruct (Z.leb_spec (lo + 1) d); [assumption |].
    assert (2 ^ d <= 2 ^ lo) by (apply Z.pow_le_mono_r; lia). lia.
  - destruct (Z.leb_spec d hi); [assumption |].
    assert (0 <= hi).
    { destruct (Z.leb_spec 0 hi); [assumption |]. rewrite Z.pow_neg_r in H2; lia. }
    assert (2 ^ hi <= 2 ^ (d - 1)) by (apply Z.pow_le_mono_r; lia). lia.
Qed.


Lemma pow2_inv (s : Z) : (pow2 (- s) * pow2 s == 1)%Q.
Proof. rewrite <- pow2_add. replace (- s + s) with 0 by lia. reflexivity. Qed.

Lemma Qfrac_lower (x a : Z) (b : positive) (s : Z) :
  0 <= s -> x * Zpos b <= a * 2 ^ s -> (inject_Z x * pow2 (- s) <= a # b)%Q.
Proof.
  intros Hs H. rewrite (Qmake_Qdiv a b).
  apply Qle_shift_div_l; [reflexivity |].
  assert (H' : (inject_Z x * inject_Z (Zpos b) <= inject_Z a * pow2 s)%Q).
  { rewrite <- pow2_Z, <- !inject_Z_mult, <- Zle_Qle by assumption. exact H. }
  pose proof (pow2_inv s) as I. pose proof (pow2_pos (- s)) as P.
  assert (H2 : (inject_Z x * inject_Z (Zpos b) * pow2 (- s)
                <= inject_Z a * pow2 s * pow2 (- s))%Q).
  { apply Qmult_le_compat_r; [exact H' | apply Qlt_le_weak, P]. }
  assert (E : (inject_Z a * pow2 s * pow2 (- s) == inject_Z a)%Q).
  { rewrite <- Qmult_assoc, (Qmult_comm (pow2 s)), I. ring. }
  rewrite E in H2. 
  assert (E2 : (inject_Z x * pow2 (- s) * inject_Z (Zpos b)
                == inject_Z x * inject_Z (Zpos b) * pow2 (- s))%Q) by ring.
  rewrite E2. exact H2.
Qed.

Lemma Qfrac_upper (x a : Z) (b : positive) (s : Z) :
  0 <= s -> a * 2 ^ s < x * Zpos b -> (a # b < inject_Z x * pow2 (- s))%Q.
Proof.
  intros Hs H. rewrite (Qmake_Qdiv a b).
  apply Qlt_shift_div_r; [reflexivity |].
  assert (H' : (inject_Z a * pow2 s < inject_Z x * inject_Z (Zpos b))%Q).
  { rewrite <- pow2_Z, <- !inject_Z_mult, <- Zlt_Qlt by assumption. exact H. }
  pose proof (pow2_inv s) as I. pose proof (pow2_pos (- s)) as P.
  assert (H2 : (inject_Z a * pow2 s * pow2 (- s)
                < inject_Z x * inject_Z (Zpos b) * pow2 (- s))%Q).
  { apply Qmult_lt_compat_r; [exact P | exact H']. }
  assert (E : (inject_Z a * pow2 s * pow2 (- s) == inject_Z a)%Q).
  { rewrite <- Qmult_assoc, (Qmult_comm (pow2 s)), I. ring. }
  rewrite E in H2.
  assert (E2 : (inject_Z x * pow2 (- s) * inject_Z (Zpos b)
                == inject_Z x * inject_Z (Zpos b) * pow2 (- s))%Q) by ring.
  rewrite E2. exact H2.
Qed.

(** The quotient of two positive integers below 2^53 is an end of the cell
    of the exact quotient. *)
Lemma SFdiv_int_cell (a b : positive) :
  Zpos a < 2 ^ 53 -> Zpos b < 2 ^ 53 ->
  in_cell (SFdiv prec emax (S754_finite false a 0) (S754_finite false b 0))
          (Zpos a # b).
Proof.
  intros Ha Hb. cbn [SFdiv xorb]. unfold SFdiv_core_binary. cbn [Zdigits2].
  pose proof (digits2_pos_bounds a) as [Alo Ahi].
  pose proof (digits2_pos_bounds b) as [Blo Bhi].
  set (d1 := Zpos (digits2_pos a)) in *. set (d2 := Zpos (digits2_pos b)) in *.
  assert (Hd1 : 1 <= d1 <= 53).
  { split; [unfold d1; lia |]. apply (digits_range a 0 53); [lia |]. cbn. lia. }
  assert (Hd2 : 1 <= d2 <= 53).
  { split; [unfold d2; lia |]. apply (digits_range b 0 53); [lia |]. cbn. lia. }
  replace (d1 + 0 - (d2 + 0)) with (d1 - d2) by lia.
  rewrite fexp_normal by lia.
  replace (Z.min (d1 - d2 - 53) (0 - 0)) with (d1 - d2 - 53) by lia.
  set (s := 53 + d2 - d1).
  replace (0 - 0 - (d1 - d2 - 53)) with s by (unfold s; lia).
  assert (Hs : 1 <= s) by (unfold s; lia).
  destruct s as [| sp | sp] eqn:Es; try lia. rewrite <- Es in *.
  rewrite Z.shiftl_mul_pow2 by lia.
  assert (P2 : 0 < 2 ^ s) by (apply Z.pow_pos_nonneg; lia).
  pose proof (Z_div_mod (Zpos a * 2 ^ s) (Zpos b) ltac:(lia)) as DM.
  destruct (Z.div_eucl (Zpos a * 2 ^ s) (Zpos b)) as [q r].
  destruct DM as [DM1 DM2].
  (* size of the quotient *)
  assert (E1 : 2 ^ (d1 - 1) * 2 ^ s = 2 ^ 52 * 2 ^ d2).
  { rewrite <- !Z.pow_add_r by lia. f_equal. unfold s. lia. }
  assert (E2 : 2 ^ d1 * 2 ^ s = 2 ^ 54 * 2 ^ (d2 - 1)).
  { rewrite <- !Z.pow_add_r by lia. f_equal. unfold s. lia. }
  assert (Q1 : 2 ^ 52 <= q < 2 ^ 54).
  { assert (0 < 2 ^ d2) by (apply Z.pow_pos_nonneg; lia).
    assert (0 < 2 ^ (d2 - 1)) by (apply Z.pow_pos_nonneg; lia).
    split; nia. }
  destruct q as [| qp | qp]; try lia.
  assert (Dq : 53 <= Zpos (digits2_pos qp) <= 54).
  { apply (digits_range qp 52 54); lia. }
  apply round_aux_cell; try lia.
  - replace (d1 - d2 - 53) with (- s) by (unfold s; lia).
    apply Qfrac_lower; lia.
  - replace (d1 - d2 - 53) with (- s) by (unfold s; lia).
    apply Qfrac_upper; lia.
Qed.


(** *** Order and error bounds *)

Lemma F2Q_one : (F2Q one == 1)%Q.
Proof. reflexivity. Qed.

Lemma normal_pos_one : normal_pos one.
Proof. cbn. lia. Qed.

Lemma F2Q_normal_bounds (m : positive) (e : Z) :
  2 ^ 52 <= Zpos m < 2 ^ 53 ->
  (pow2 (e + 52) <= F2Q (S754_finite false m e))%Q /\
  (F2Q (S754_finite false m e) < pow2 (e + 53))%Q.
Proof.
  intros [H1 H2]. cbn [F2Q].
  rewrite (Qmult_comm _ (pow2 e)), !pow2_add.
  assert (A : (pow2 52 == inject_Z (2 ^ 52))%Q) by reflexivity.
  assert (B : (pow2 53 == inject_Z (2 ^ 53))%Q) by reflexivity.
  rewrite A, B. pose proof (pow2_pos e).
  rewrite Zle_Qle in H1. rewrite Zlt_Qlt in H2.
  split.
  - apply Qmult_le_l; assumption.
  - apply Qmult_lt_l; assumption.
Qed.

(** On positive normal numbers the IEEE comparison is the order of the values. *)
Lemma SFltb_normal (x y : spec_float) :
  normal_pos x -> normal_pos y ->
  (SFltb x y = true <-> (F2Q x < F2Q y)%Q).
Proof.
  destruct x as [| | | [] mx ex]; cbn [normal_pos]; try tauto.
  destruct y as [| | | [] my ey]; cbn [normal_pos]; try tauto.
  intros Hx Hy.
  destruct (F2Q_normal_bounds mx ex Hx) as [X1 X2].
  destruct (F2Q_normal_bounds my ey Hy) as [Y1 Y2].
  unfold SFltb, SFcompare.
  destruct (Z.compare_spec ex ey) as [E | E | E].
  - subst ey. change (Pos.compare_cont Eq mx my) with (Pos.compare mx my).
    cbn [F2Q]. pose proof (pow2_pos ex) as P.
    destruct (Pos.compare_spec mx my) as [C | C | C].
    + subst. split; [discriminate | intros H; lra].
    + split; [intros _ | reflexivity].
      apply Qmult_lt_compat_r; [assumption |]. rewrite <- Zlt_Qlt. lia.
    + split; [discriminate |]. intros H. exfalso.
      assert (inject_Z (Zpos my) * pow2 ex < inject_Z (Zpos mx) * pow2 ex)%Q.
      { apply Qmult_lt_compat_r; [assumption |]. rewrite <- Zlt_Qlt. lia. }
      lra.
  - split; [intros _ | reflexivity].
    assert (pow2 (ex + 53) <= pow2 (ey + 52))%Q by (apply pow2_le; lia). lra.
  - split; [discriminate |]. intros H. exfalso.
    assert (pow2 (ey + 53) <= pow2 (ex + 52))%Q by (apply pow2_le; lia). lra.
Qed.

(** Rounding does not cross 1.0: a value of at least one rounds to at
    least one, a value below the float before 1.0 rounds below one. *)
Lemma in_cell_ge_1 (r : spec_float) (X : Q) :
  in_cell r X -> (1 <= X)%Q -> (1 <= F2Q r)%Q.
Proof.
  intros (_ & q & E & Hq & X1 & X2 & R1 & R2) HX.
  assert (HE : - 52 <= E).
  { destruct (Z.leb_spec (- 52) E); [assumption | exfalso].
    assert (pow2 E <= pow2 (- 53))%Q by (apply pow2_le; lia).
    assert (inject_Z (q + 1) <= inject_Z (2 ^ 53))%Q by (rewrite <- Zle_Qle; lia).
    assert (inject_Z (q + 1) * pow2 E <= inject_Z (2 ^ 53) * pow2 (- 53))%Q.
    { pose proof (pow2_pos E).
      apply Qle_trans with (inject_Z (2 ^ 53) * pow2 E)%Q.
      - apply Qmult_le_compat_r; [assumption | lra].
      - apply Qmult_le_l; [reflexivity | assumption]. }
    assert (inject_Z (2 ^ 53) * pow2 (- 53) == 1)%Q by reflexivity.
    lra. }
  assert (inject_Z (2 ^ 52) * pow2 (- 52) <= inject_Z q * pow2 E)%Q.
  { pose proof (pow2_pos (- 52)). pose proof (pow2_le _ _ HE).
    apply Qle_trans with (inject_Z (2 ^ 52) * pow2 E)%Q.
    - apply Qmult_le_l; [reflexivity | assumption].
    - apply Qmult_le_compat_r; [rewrite <- Zle_Qle; lia |].
      apply Qlt_le_weak, pow2_pos. }
  assert (inject_Z (2 ^ 52) * pow2 (- 52) == 1)%Q by reflexivity.
  lra.
Qed.

Lemma in_cell_lt_1 (r : spec_float) (X : Q) :
  in_cell r X -> (X < 1 - pow2 (- 53))%Q -> (F2Q r < 1)%Q.
Proof.
  intros (_ & q & E & Hq & X1 & X2 & R1 & R2) HX.
  pose proof (pow2_pos E) as PE. pose proof (pow2_pos (- 53)) as P53.
  assert (HE : E <= - 53).
  { destruct (Z.leb_spec E (- 53)); [assumption | exfalso].
    assert (pow2 (- 52) <= pow2 E)%Q by (apply pow2_le; lia).
    assert (inject_Z (2 ^ 52) * pow2 (- 52) <= inject_Z q * pow2 E)%Q.
    { apply Qle_trans with (inject_Z (2 ^ 52) * pow2 E)%Q.
      - apply Qmult_le_l; [reflexivity | assumption].
      - apply Qmult_le_compat_r; [rewrite <- Zle_Qle; lia | lra]. }
    assert (inject_Z (2 ^ 52) * pow2 (- 52) == 1)%Q by reflexivity.
    lra. }
  destruct (Z.eq_dec E (- 53)) as [-> | NE].
  - (* the cell is just below one: its upper end stays below one *)
    assert (q + 1 < 2 ^ 53).
    { destruct (Z.ltb_spec (q + 1) (2 ^ 53)); [assumption | exfalso].
      assert (q = 2 ^ 53 - 1) by lia. subst q.
      assert (inject_Z (2 ^ 53 - 1) * pow2 (- 53) == 1 - pow2 (- 53))%Q by reflexivity.
      lra. }
    assert (inject_Z (q + 1) * pow2 (- 53) < inject_Z (2 ^ 53) * pow2 (- 53))%Q.
    { apply Qmult_lt_compat_r; [assumption |]. rewrite <- Zlt_Qlt. assumption. }
    assert (inject_Z (2 ^ 53) * pow2 (- 53) == 1)%Q by reflexivity.
    lra.
  - assert (pow2 E <= pow2 (- 54))%Q by (apply pow2_le; lia).
    assert (inject_Z (q + 1) * pow2 E <= inject_Z (2 ^ 53) * pow2 (- 54))%Q.
    { apply Qle_trans with (inject_Z (2 ^ 53) * pow2 E)%Q.
      - apply Qmult_le_compat_r; [rewrite <- Zle_Qle; lia | lra].
      - apply Qmult_le_l; [reflexivity | assumption]. }
    assert (inject_Z (2 ^ 53) * pow2 (- 54) == 1 # 2)%Q by reflexivity.
    lra.
Qed.

(** Relative error of one rounding, upper side. *)
Lemma in_cell_upper (r : spec_float) (X : Q) :
  in_cell r X -> (F2Q r <= X * (1 + pow2 (- 52)))%Q.
Proof.
  intros (_ & q & E & Hq & X1 & X2 & R1 & R2).
  pose proof (pow2_pos E) as PE.
  assert (inject_Z (2 ^ 52) * pow2 E <= inject_Z q * pow2 E)%Q.
  { apply Qmult_le_compat_r; [rewrite <- Zle_Qle; lia | lra]. }
  assert (E1 : (pow2 E == inject_Z (2 ^ 52) * pow2 E * pow2 (- 52))%Q).
  { change (pow2 (- 52)) with (/ inject_Z (2 ^ 52))%Q. field. discriminate. }
  assert (E2 : (inject_Z (q + 1) * pow2 E == inject_Z q * pow2 E + pow2 E)%Q).
  { rewrite inject_Z_plus. change (inject_Z 1) with 1%Q. ring. }
  pose proof (pow2_pos (- 52)) as P52.
  assert (inject_Z (2 ^ 52) * pow2 E * pow2 (- 52) <= X * pow2 (- 52))%Q.
  { apply Qmult_le_compat_r; lra. }
  lra.
Qed.

(** A product that stays strictly below an integer cannot round above it. *)
Lemma in_cell_below_int (r : spec_float) (X : Q) (w : Z) :
  in_cell r X -> 0 < w < 2 ^ 53 -> (X < inject_Z w)%Q -> (F2Q r <= inject_Z w)%Q.
Proof.
  intros (_ & q & E & Hq & X1 & X2 & R1 & R2) Hw HX.
  pose proof (pow2_pos E) as PE.
  assert (HE : E <= 0).
  { destruct (Z.leb_spec E 0); [assumption | exfalso].
    assert (pow2 1 <= pow2 E)%Q by (apply pow2_le; lia).
    assert (inject_Z (2 ^ 52) * pow2 1 <= inject_Z q * pow2 E)%Q.
    { apply Qle_trans with (inject_Z (2 ^ 52) * pow2 E)%Q.
      - apply Qmult_le_l; [reflexivity | assumption].
      - apply Qmult_le_compat_r; [rewrite <- Zle_Qle; lia | lra]. }
    assert (inject_Z (2 ^ 52) * pow2 1 == inject_Z (2 ^ 53))%Q by reflexivity.
    assert (inject_Z w < inject_Z (2 ^ 53))%Q by (rewrite <- Zlt_Qlt; lia).
    lra. }
  assert (EW : (inject_Z w == inject_Z (w * 2 ^ (- E)) * pow2 E)%Q).
  { rewrite pow2_shift by lia. replace (E + - E) with 0 by lia.
    rewrite pow2_0. ring. }
  assert (Hlt : q < w * 2 ^ (- E)).
  { rewrite Zlt_Qlt.
    apply Qmult_lt_r with (pow2 E); [assumption |]. rewrite <- EW. lra. }
  rewrite EW.
  apply Qle_trans with (inject_Z (q + 1) * pow2 E)%Q; [assumption |].
  apply Qmult_le_compat_r; [rewrite <- Zle_Qle; lia | lra].
Qed.

(** ** binary64: the operations of [scaled_size] *)

Lemma in_cell_exponent (r : spec_float) (X : Q) (lo hi : Z) :
  in_cell r X -> (pow2 lo <= X)%Q -> (X < pow2 hi)%Q ->
  exponent_in (lo - 53) (hi - 52) r.
Proof.
  intros (Hn & q & E & Hq & X1 & X2 & R1 & R2) Hlo Hhi.
  destruct r as [| | | [] mr er]; cbn [normal_pos] in Hn; try tauto.
  cbn [exponent_in].
  destruct (F2Q_normal_bounds mr er Hn) as [B1 B2].
  pose proof (pow2_pos E) as PE.
  assert (Q1 : (inject_Z (q + 1) * pow2 E <= 2 * (inject_Z q * pow2 E))%Q).
  { rewrite inject_Z_plus. change (inject_Z 1) with 1%Q.
    assert (1 <= inject_Z q)%Q.
    { change 1%Q with (inject_Z 1). rewrite <- Zle_Qle.
      assert (0 < 2 ^ 52) by (apply Z.pow_pos_nonneg; lia). lia. }
    nra. }
  assert (U : (pow2 (er + 52) < pow2 (hi + 1))%Q).
  { rewrite (pow2_add hi 1). change (pow2 1) with 2%Q. lra. }
  assert (L : (pow2 (lo + -1) < pow2 (er + 53))%Q).
  { rewrite (pow2_add lo (-1)). change (pow2 (-1)) with (1 # 2)%Q. lra. }
  apply pow2_lt_inv in U. apply pow2_lt_inv in L. lia.
Qed.

Lemma py_int_floor (r : spec_float) :
  normal_pos r ->
  exists z : Z,
    py_int r = Ok z /\ 0 <= z /\
    (inject_Z z <= F2Q r)%Q /\ (F2Q r < inject_Z z + 1)%Q.
Proof.
  destruct r as [| | | [] m e]; cbn [normal_pos]; try tauto.
  intros Hm. cbn [py_int F2Q].
  destruct (Z.leb_spec 0 e) as [He | He].
  - exists (Zpos m * 2 ^ e). split; [reflexivity |].
    assert (0 < 2 ^ e) by (apply Z.pow_pos_nonneg; lia).
    split; [lia |].
    assert (Ev : (inject_Z (Zpos m * 2 ^ e) == inject_Z (Zpos m) * pow2 e)%Q).
    { rewrite inject_Z_mult, pow2_Z by assumption. reflexivity. }
    rewrite Ev. split; lra.
  - set (k := - e). assert (Hk : 0 < k) by (unfold k; lia).
    assert (P2 : 0 < 2 ^ k) by (apply Z.pow_pos_nonneg; lia).
    exists (Zpos m / 2 ^ k). split; [reflexivity |].
    split; [apply Z.div_pos; lia |].
    pose proof (Z.div_mod (Zpos m) (2 ^ k) ltac:(lia)) as DM.
    pose proof (Z.mod_pos_bound (Zpos m) (2 ^ k) P2) as MB.
    set (z := Zpos m / 2 ^ k) in *.
    assert (Z1 : z * 2 ^ k <= Zpos m) by lia.
    assert (Z2 : Zpos m < (z + 1) * 2 ^ k) by lia.
    rewrite Zle_Qle, inject_Z_mult, pow2_Z in Z1 by lia.
    rewrite Zlt_Qlt, inject_Z_mult, inject_Z_plus, pow2_Z in Z2 by lia.
    change (inject_Z 1) with 1%Q in Z2.
    replace e with (- k) by (unfold k; lia).
    pose proof (pow2_inv k) as I. pose proof (pow2_pos k). pose proof (pow2_pos (- k)).
    split.
    + apply Qmult_le_r with (pow2 k); [assumption |].
      rewrite <- Qmult_assoc, I. lra.
    + apply Qmult_lt_r with (pow2 k); [assumption |].
      rewrite <- Qmult_assoc, I. lra.
Qed.

(** The quotient of two positive integers below 2^53. *)
Lemma py_int_truediv_cell (a b : Z) :
  0 < a < 2 ^ 53 -> 0 < b < 2 ^ 53 ->
  exists q : spec_float,
    py_int_truediv a b = Ok q /\ in_cell q (a # Z.to_pos b) /\
    exponent_in (-106) 1 q.
Proof.
  intros Ha Hb.
  destruct a as [| a | a]; try lia. destruct b as [| b | b]; try lia.
  unfold py_int_truediv. cbn [Z.eqb Z.ltb Z.compare Z.abs Z.to_pos].
  pose proof (SFdiv_int_cell a b ltac:(lia) ltac:(lia)) as C.
  set (q := SFdiv prec emax (S754_finite false a 0) (S754_finite false b 0)) in *.
  exists q.
  assert (Hq : normal_pos q) by apply C.
  split; [destruct q as [| | | [] mq eq]; cbn [normal_pos] in Hq; tauto || reflexivity |].
  split; [exact C |].
  apply (in_cell_exponent q (Zpos a # b) (-53) 53 C).
  - change (pow2 (-53)) with (1 # 9007199254740992)%Q.
    unfold Qle. cbn [Qnum Qden]. lia.
  - change (pow2 53) with (9007199254740992 # 1)%Q.
    unfold Qlt. cbn [Qnum Qden]. change (2 ^ 53) with 9007199254740992 in *. lia.
Qed.

Lemma py_int_mul_float_cell (w : Z) (x : spec_float) :
  0 < w < 2 ^ 53 -> normal_pos x -> exponent_in (-500) 400 x ->
  exists p : spec_float,
    py_int_mul_float w x = Ok p /\ in_cell p (inject_Z w * F2Q x).
Proof.
  intros Hw Hx Ex. destruct w as [| w | w]; try lia.
  destruct (float_of_int_exact w ltac:(lia)) as (Hn & Hv & m & e & Hf & He).
  unfold py_int_mul_float. rewrite Hf.
  eexists. split; [reflexivity |].
  rewrite Hf in Hn, Hv.
  assert (C : in_cell (SFmul prec emax (S754_finite false m e) x)
                      (F2Q (S754_finite false m e) * F2Q x)).
  { apply SFmul_cell; try assumption. cbn [exponent_in]. lia. }
  destruct C as (Hp & q & E & Hq & X1 & X2 & R1 & R2).
  split; [exact Hp |].
  exists q, E. rewrite <- Hv.
  split; [exact Hq |]. split; [exact X1 |]. split; [exact X2 |].
  split; assumption.
Qed.

(** The minimum of three positive normal floats. *)
Lemma py_min3_spec (a b c : spec_float) :
  normal_pos a -> normal_pos b -> normal_pos c ->
  let r := py_min3 a b c in
  (r = a \/ r = b \/ r = c) /\
  (F2Q r <= F2Q a)%Q /\ (F2Q r <= F2Q b)%Q /\ (F2Q r <= F2Q c)%Q.
Proof.
  intros Ha Hb Hc. unfold py_min3.
  pose proof (SFltb_normal b a Hb Ha) as Hba.
  destruct (SFltb b a) eqn:Eba.
  - assert (F2Q b < F2Q a)%Q by (apply Hba; reflexivity).
    pose proof (SFltb_normal c b Hc Hb) as Hcb.
    destruct (SFltb c b) eqn:Ecb.
    + assert (F2Q c < F2Q b)%Q by (apply Hcb; reflexivity).
      repeat split; auto; lra.
    + assert (~ (F2Q c < F2Q b)%Q) by (intros K; apply Hcb in K; discriminate).
      repeat split; auto; lra.
  - assert (~ (F2Q b < F2Q a)%Q) by (intros K; apply Hba in K; discriminate).
    pose proof (SFltb_normal c a Hc Ha) as Hca.
    destruct (SFltb c a) eqn:Eca.
    + assert (F2Q c < F2Q a)%Q by (apply Hca; reflexivity).
      repeat split; auto; lra.
    + assert (~ (F2Q c < F2Q a)%Q) by (intros K; apply Hca in K; discriminate).
      repeat split; auto; lra.
Qed.

Lemma ratio_lt_one (m w : Z) :
  0 < m -> m < w -> w < 2 ^ 53 -> (m # Z.to_pos w < 1 - pow2 (- 53))%Q.
Proof.
  intros Hm Hlt Hw. change (pow2 (- 53)) with (1 # 9007199254740992)%Q.
  change (2 ^ 53) with 9007199254740992 in Hw.
  unfold Qlt, Qminus, Qplus, Qopp. cbn [Qnum Qden].
  rewrite Z2Pos.id by lia. lia.
Qed.

Lemma ratio_ge_one (m w : Z) :
  0 < w -> w <= m -> (1 <= m # Z.to_pos w)%Q.
Proof.
  intros Hw Hle. unfold Qle. cbn [Qnum Qden]. rewrite Z2Pos.id by lia. lia.
Qed.

Lemma ratio_times (m w : Z) :
  0 < w -> (inject_Z w * (m # Z.to_pos w) == inject_Z m)%Q.
Proof.
  intros Hw. unfold Qeq, Qmult, inject_Z. cbn [Qnum Qden].
  rewrite Pos2Z.inj_mul, Z2Pos.id by lia. change (Zpos 1) with 1. ring.
Qed.

(** One side of the resized image: [int(w * scale)] is the product rounded
    to binary64 and then cut to an integer; it exceeds neither the side [w]
    nor the bound [m]. *)
Lemma scaled_dim (m w : Z) (a scale : spec_float) :
  0 < m < 2 ^ 50 -> 0 < w < 2 ^ 53 ->
  in_cell a (m # Z.to_pos w) ->
  normal_pos scale -> exponent_in (-500) 400 scale ->
  (F2Q scale <= F2Q a)%Q -> (F2Q scale < 1)%Q ->
  exists (p : spec_float) (n : Z),
    py_int_mul_float w scale = Ok p /\ py_int p = Ok n /\
    in_cell p (inject_Z w * F2Q scale) /\
    (inject_Z n <= F2Q p)%Q /\ (F2Q p < inject_Z n + 1)%Q /\
    0 <= n <= w /\ n <= m.
Proof.
  intros Hm Hw Ca Hs Es Hsa Hs1.
  destruct (py_int_mul_float_cell w scale Hw Hs Es) as (p & Ep & Cp).
  destruct (py_int_floor p) as (n & En & Hn0 & F1 & F2); [apply Cp |].
  exists p, n. do 5 (split; [assumption |]).
  assert (HW : (0 < inject_Z w)%Q).
  { change 0%Q with (inject_Z 0). rewrite <- Zlt_Qlt. lia. }
  set (W := inject_Z w) in *. set (S := F2Q scale) in *.
  assert (HX : (W * S < W)%Q) by nra.
  pose proof (in_cell_below_int p (W * S) w Cp Hw HX) as Pw. fold W in Pw.
  pose proof (in_cell_upper p (W * S) Cp) as Pu.
  pose proof (in_cell_upper a _ Ca) as Au.
  pose proof (ratio_times m w ltac:(lia)) as RT. fold W in RT.
  set (A := F2Q a) in *. set (R := (m # Z.to_pos w)%Q) in *.
  change (pow2 (- 52)) with (1 # 4503599627370496)%Q in Pu, Au.
  assert (HM : (inject_Z m < 1125899906842624)%Q).
  { change 1125899906842624%Q with (inject_Z (2 ^ 50)). rewrite <- Zlt_Qlt. lia. }
  assert (HM0 : (0 < inject_Z m)%Q).
  { change 0%Q with (inject_Z 0). rewrite <- Zlt_Qlt. lia. }
  assert (WS : (W * S <= inject_Z m * (1 + (1 # 4503599627370496)))%Q).
  { apply Qle_trans with (W * A)%Q; [apply Qmult_le_l; assumption |].
    apply Qle_trans with (W * (R * (1 + (1 # 4503599627370496))))%Q;
      [apply Qmult_le_l; assumption |].
    rewrite Qmult_assoc, RT. apply Qle_refl. }
  set (X := (W * S)%Q) in *. set (P := F2Q p) in *.
  set (Mq := inject_Z m) in *. set (N := inject_Z n) in *.
  assert (N1 : (N <= W)%Q) by lra.
  assert (N2 : (N < Mq + 1)%Q) by lra.
  unfold N, W in N1. rewrite <- Zle_Qle in N1.
  unfold N, Mq in N2. change 1%Q with (inject_Z 1) in N2.
  rewrite <- inject_Z_plus, <- Zlt_Qlt in N2. lia.
Qed.

(** [scaled_size] on a positive size: it keeps the image exactly when both
    sides are within [max_side], and otherwise cuts each product to an
    integer that exceeds neither the original side nor [max_side]. *)
Lemma scaled_size_spec (m w h : Z) :
  0 < m < 2 ^ 50 -> 0 < w < 2 ^ 53 -> 0 < h < 2 ^ 53 ->
  exists scale : spec_float,
    scale_factor m w h = Ok scale /\ normal_pos scale /\ (F2Q scale <= 1)%Q /\
    if SFltb scale one then
      (m < w \/ m < h) /\
      exists (pw ph : spec_float) (nw nh : Z),
        py_int_mul_float w scale = Ok pw /\ py_int_mul_float h scale = Ok ph /\
        py_int pw = Ok nw /\ py_int ph = Ok nh /\
        scaled_size m w h = Ok (Some (nw, nh)) /\
        in_cell pw (inject_Z w * F2Q scale) /\ in_cell ph (inject_Z h * F2Q scale) /\
        (inject_Z nw <= F2Q pw)%Q /\ (F2Q pw < inject_Z nw + 1)%Q /\
        (inject_Z nh <= F2Q ph)%Q /\ (F2Q ph < inject_Z nh + 1)%Q /\
        0 <= nw <= w /\ nw <= m /\ 0 <= nh <= h /\ nh <= m
    else w <= m /\ h <= m /\ scaled_size m w h = Ok None.
Proof.
  intros Hm Hw Hh.
  assert (Hm' : 0 < m < 2 ^ 53).
  { split; [lia |]. apply Z.lt_trans with (2 ^ 50); [lia | reflexivity]. }
  destruct (py_int_truediv_cell m w Hm' Hw) as (a & Ea & Ca & Xa).
  destruct (py_int_truediv_cell m h Hm' Hh) as (b & Eb & Cb & Xb).
  pose proof (py_min3_spec a b one (proj1 Ca) (proj1 Cb) normal_pos_one)
    as (Hsel & Sa & Sb & S1).
  set (scale := py_min3 a b one) in *.
  assert (Esf : scale_factor m w h = Ok scale).
  { unfold scale_factor. rewrite Ea, Eb. reflexivity. }
  assert (Hn : normal_pos scale).
  { destruct Hsel as [-> | [-> | ->]];
      [apply Ca | apply Cb | apply normal_pos_one]. }
  assert (Hx : exponent_in (-500) 400 scale).
  { destruct Hsel as [-> | [-> | ->]].
    - destruct a; cbn [exponent_in] in *; lia.
    - destruct b; cbn [exponent_in] in *; lia.
    - cbn. lia. }
  rewrite F2Q_one in S1.
  exists scale. do 3 (split; [assumption |]).
  pose proof (SFltb_normal scale one Hn normal_pos_one) as Hlt.
  rewrite F2Q_one in Hlt.
  destruct (SFltb scale one) eqn:Elt.
  - assert (L1 : (F2Q scale < 1)%Q) by (apply Hlt; reflexivity).
    split.
    + destruct (Z.ltb_spec m w) as [| Hwm]; [left; assumption |].
      destruct (Z.ltb_spec m h) as [| Hhm]; [right; assumption |].
      exfalso.
      pose proof (in_cell_ge_1 a _ Ca (ratio_ge_one m w ltac:(lia) Hwm)).
      pose proof (in_cell_ge_1 b _ Cb (ratio_ge_one m h ltac:(lia) Hhm)).
      destruct Hsel as [E | [E | E]]; rewrite E in L1;
        [lra | lra | rewrite F2Q_one in L1; lra].
    + destruct (scaled_dim m w a scale Hm Hw Ca Hn Hx Sa L1)
        as (pw & nw & Epw & Enw & Cpw & Fw1 & Fw2 & Bw1 & Bw2).
      destruct (scaled_dim m h b scale Hm Hh Cb Hn Hx Sb L1)
        as (ph & nh & Eph & Enh & Cph & Fh1 & Fh2 & Bh1 & Bh2).
      exists pw, ph, nw, nh.
      do 4 (split; [assumption |]).
      split.
      { unfold scaled_size. rewrite Esf. cbn [rbind]. rewrite Elt.
        rewrite Epw. cbn [rbind]. rewrite Enw. cbn [rbind].
        rewrite Eph. cbn [rbind]. rewrite Enh. reflexivity. }
      repeat (split; [assumption |]). assumption.
  - assert (L1 : ~ (F2Q scale < 1)%Q) by (intros K; apply Hlt in K; discriminate).
    assert (Hwm : w <= m).
    { destruct (Z.leb_spec w m) as [| K]; [assumption | exfalso].
      pose proof (in_cell_lt_1 a _ Ca (ratio_lt_one m w ltac:(lia) K ltac:(lia))).
      lra. }
    assert (Hhm : h <= m).
    { destruct (Z.leb_spec h m) as [| K]; [assumption | exfalso].
      pose proof (in_cell_lt_1 b _ Cb (ratio_lt_one m h ltac:(lia) K ltac:(lia))).
      lra. }
    do 2 (split; [assumption |]).
    unfold scaled_size. rewrite Esf. cbn [rbind]. rewrite Elt. reflexivity.
Qed.

(** ** The function body, step by step *)

Lemma get_client_run (w : world) :
  (exists c, _get_openai_client w = (Ok c, w) /\ key_resolved w = true)
  \/ (exists e, _get_openai_client w = (Err e, w) /\ key_resolved w = false
                /\ (resolved_key w = Err e
                    \/ e = RuntimeError missing_key_message
                       /\ exists key, resolved_key w = Ok key)).
Proof.
  unfold _get_openai_client, key_resolved.
  destruct (resolved_key w) as [[[| c k] |] | e]; cbn [truthy_str]; eauto 10.
Qed.

Lemma reference_of_cases (ref : option bytes) :
  (truthy_bytes ref = true /\ exists b, ref = Some b /\ reference_of ref = Some b)
  \/ (truthy_bytes ref = false /\ reference_of ref = None).
Proof.
  unfold reference_of. destruct ref as [[| x b] |]; cbn [truthy_bytes]; eauto.
Qed.

(** The body either stops before the network (no key, or an image that
    cannot be prepared) or sends exactly the expected request and decodes
    the answer. *)
Lemma body_unfold (PIL : ImagingLib) (sel : bytes) (ref : option bytes) (w : world) :
  suggest_skin_tone_body PIL sel ref w =
  match _get_openai_client w with
  | (Err e, _) => (Err e, w)
  | (Ok c, _) =>
      match planned_content PIL sel ref with
      | Err e => (Err e, w)
      | Ok content =>
          let w' := with_sent w (sent w ++ [(c, expected_request content)]) in
          match service w (List.length (sent w)) c (expected_request content) with
          | Response t => (json.loads (recursion_room w) t, w')
          | Failure => (Err APIError, w')
          end
      end
  end.
Proof.
  unfold suggest_skin_tone_body, planned_content, bind, lift, ret, json_loads.
  destruct (get_client_run w) as [(c & -> & _) | (e & -> & _)]; [| reflexivity].
  destruct (_preprocess_to_jpeg_bytes PIL sel 1024) as [sj | e]; cbn [rbind];
    [| reflexivity].
  destruct (reference_of_cases ref) as [(T & b & -> & R) | (T & R)]; rewrite T, R.
  - destruct (_preprocess_to_jpeg_bytes PIL b 1024) as [rj | e]; cbn [rbind];
      [| reflexivity].
    unfold responses_create, expected_request. cbn [app sent with_sent].
    destruct (service w _ c _); reflexivity.
  - unfold responses_create, expected_request. cbn [app sent with_sent].
    destruct (service w _ c _); reflexivity.
Qed.

Lemma new_calls_same (w : world) : new_calls w w = [].
Proof. unfold new_calls. apply skipn_all. Qed.

Lemma new_calls_sent (w : world) (l : list (client * request)) :
  new_calls w (with_sent w (sent w ++ l)) = l.
Proof.
  unfold new_calls. cbn [sent with_sent].
  rewrite skipn_app, skipn_all, Nat.sub_diag. reflexivity.
Qed.

Lemma new_calls_cache (w w' : world) (c : list (cache_key * jvalue)) :
  new_calls w (with_cache w' c) = new_calls w w'.
Proof. reflexivity. Qed.

(** One run of the body: it stops before the network and leaves the state
    alone, or it sends the expected request and decodes the answer. *)
Lemma body_inv (PIL : ImagingLib) (sel : bytes) (ref : option bytes)
    (w w1 : world) (res : result jvalue) :
  suggest_skin_tone_body PIL sel ref w = (res, w1) ->
  (w1 = w /\ exists e, res = Err e /\
     (key_resolved w = false /\ _get_openai_client w = (Err e, w)
      \/ key_resolved w = true /\ planned_content PIL sel ref = Err e))
  \/ (exists c content,
        key_resolved w = true
        /\ planned_content PIL sel ref = Ok content
        /\ w1 = with_sent w (sent w ++ [(c, expected_request content)])
        /\ (service w (List.length (sent w)) c (expected_request content) = Failure
              /\ res = Err APIError
            \/ exists t,
                 service w (List.length (sent w)) c (expected_request content) = Response t
                 /\ res = json.loads (recursion_room w) t)).
Proof.
  rewrite body_unfold.
  destruct (get_client_run w) as [(c & Ec & K) | (e0 & Ec & K & _)]; rewrite Ec.
  - destruct (planned_content PIL sel ref) as [content | e] eqn:P.
    + cbn zeta. intros H. right. exists c, content.
      split; [assumption |]. split; [reflexivity |].
      destruct (service w _ c _) as [t |] eqn:S; inversion H; subst.
      * split; [reflexivity |]. right. exists t. split; reflexivity.
      * split; [reflexivity |]. left. split; reflexivity.
    + intros [= <- <-]. left. split; [reflexivity |]. exists e. split; [reflexivity |].
      right. split; [assumption | reflexivity].
  - intros [= <- <-]. left. split; [reflexivity |]. exists e0. split; [reflexivity |].
    left. split; [assumption | reflexivity].
Qed.

(** The memoized function, case by case. *)
Lemma cached_inv (PIL : ImagingLib) (sel : bytes) (ref : option bytes)
    (w w' : world) (res : result jvalue) :
  suggest_skin_tone PIL sel ref w = (res, w') ->
  (exists v, cache_lookup (cache w) (sel, ref) = Some v /\ res = Ok v /\ w' = w)
  \/ (cache_lookup (cache w) (sel, ref) = None /\
      exists res1 w1,
        suggest_skin_tone_body PIL sel ref w = (res1, w1) /\ res = res1 /\
        match res1 with
        | Ok v => w' = with_cache w1 (((sel, ref), v) :: cache w1)
        | Err _ => w' = w1
        end).
Proof.
  unfold suggest_skin_tone, cache_data.
  destruct (cache_lookup (cache w) (sel, ref)) as [v |].
  - intros [= <- <-]. left. eauto.
  - destruct (suggest_skin_tone_body PIL sel ref w) as [[v | e] w1];
      intros [= <- <-]; right; (split; [reflexivity |]); eauto.
Qed.

(** ** The declared schema *)

Lemma assoc_get_in {V : Type} (d : list (string * V)) (k : string) (v : V) :
  assoc_get d k = Some v -> In (k, v) d.
Proof.
  induction d as [| [k' v'] d IH]; cbn [assoc_get]; [discriminate |].
  destruct (String.eqb_spec k' k) as [-> | _].
  - intros [= ->]. left. reflexivity.
  - intros H. right. apply IH, H.
Qed.

Lemma in_assoc_get {V : Type} (d : list (string * V)) (k : string) (v : V) :
  In (k, v) d -> exists v', assoc_get d k = Some v'.
Proof.
  induction d as [| [k' v'] d IH]; cbn [assoc_get In]; [tauto |].
  intros [[= -> ->] | H].
  - rewrite String.eqb_refl. eauto.
  - destruct (String.eqb k' k); eauto.
Qed.

Lemma conforms_schema_dict (d : list (string * jvalue)) :
  conforms schema (JDict d) =
  has_required schema d
  && forallb (fun kv => match subschema schema (fst kv) with
                        | Some sub => conforms sub (snd kv)
                        | None => false
                        end) d.
Proof. reflexivity. Qed.

Lemma conforms_schema_is_dict (u : jvalue) :
  conforms schema u = true -> exists d, u = JDict d.
Proof. destruct u; try (cbn; discriminate). eauto. Qed.

Lemma has_required_schema (d : list (string * jvalue)) :
  has_required schema d = true <->
  (forall k, In k required_fields -> assoc_get d k <> None).
Proof.
  change (has_required schema d)
    with (forallb (fun k => match k with
                            | JStr name =>
                                match assoc_get d name with
                                | Some _ => true
                                | None => false
                                end
                            | _ => true
                            end) (map JStr required_fields)).
  rewrite forallb_forall. split.
  - intros H k Hk. specialize (H (JStr k) (in_map JStr _ _ Hk)). cbn in H.
    destruct (assoc_get d k); [discriminate | discriminate H].
  - intros H x Hx. apply in_map_iff in Hx as (k & <- & Hk).
    specialize (H k Hk). destruct (assoc_get d k); [reflexivity | contradiction].
Qed.

Lemma subschema_cases (k : string) (sub : jvalue) :
  subschema schema k = Some sub ->
  (k = "skin_tone" /\ sub = tone_schema)
  \/ (k = "confidence" /\ sub = confidence_schema)
  \/ (k = "needs_better_photo" /\ sub = boolean_schema)
  \/ (k = "notes" /\ sub = string_schema)
  \/ (k = "warnings" /\ sub = warnings_schema).
Proof.
  intros H. apply assoc_get_in in H. cbn [In] in H.
  destruct H as [H | [H | [H | [H | [H | []]]]]]; inversion H; subst; tauto.
Qed.

Lemma conforms_tone (x : jvalue) :
  conforms tone_schema x = true <->
  exists t, x = JStr t /\ In t (SKIN_TONES ++ ["unknown"]).
Proof.
  split.
  - destruct x as [| | | | t | |]; try (cbn; discriminate).
    intros H. exists t. split; [reflexivity |].
    assert (E : existsb (prim_eqb (JStr t)) (map JStr (SKIN_TONES ++ ["unknown"])) = true).
    { revert H. cbn [conforms]. cbv beta iota.
      change (dict_get tone_schema "enum")
        with (Some (JList (map JStr (SKIN_TONES ++ ["unknown"])))).
      change (dict_get tone_schema "type") with (Some (JStr "string")).
      change (dict_get tone_schema "minimum") with (@None jvalue).
      change (dict_get tone_schema "maximum") with (@None jvalue).
      cbn [type_ok]. rewrite String.eqb_refl, !andb_true_r. cbn [andb]. tauto. }
    apply existsb_exists in E as (y & Hy & Ey).
    apply in_map_iff in Hy as (l & <- & Hl). cbn [prim_eqb] in Ey.
    apply String.eqb_eq in Ey. subst. exact Hl.
  - intros (t & -> & Ht).
    cbn [In app SKIN_TONES] in Ht.
    repeat (destruct Ht as [<- | Ht]; [reflexivity |]). destruct Ht.
Qed.

Lemma conforms_confidence (x : jvalue) :
  conforms confidence_schema x = true <->
  is_number x = true /\ num_leb (JInt 0) x = true /\ num_leb x (JInt 1) = true.
Proof.
  destruct x as [| b | z | f | s | l | d]; try (cbn; intuition discriminate).
  - change (conforms confidence_schema (JInt z))
      with (true && (num_leb (JInt 0) (JInt z)) && (num_leb (JInt z) (JInt 1)) && true).
    rewrite andb_true_r, andb_true_iff. cbn [is_number andb]. tauto.
  - change (conforms confidence_schema (JFloat f))
      with (true && (num_leb (JInt 0) (JFloat f)) && (num_leb (JFloat f) (JInt 1)) && true).
    rewrite andb_true_r, andb_true_iff. cbn [is_number andb]. tauto.
Qed.

Lemma conforms_boolean (x : jvalue) :
  conforms boolean_schema x = true <-> exists b, x = JBool b.
Proof.
  destruct x; split; try (cbn; discriminate); try (intros [? [=]]); eauto.
Qed.

Lemma conforms_string (x : jvalue) :
  conforms string_schema x = true <-> exists s, x = JStr s.
Proof.
  destruct x; split; try (cbn; discriminate); try (intros [? [=]]); eauto.
Qed.

Lemma conforms_warnings (x : jvalue) :
  conforms warnings_schema x = true <->
  exists l, x = JList l /\ forall y, In y l -> exists s, y = JStr s.
Proof.
  destruct x as [| b | z | f | s | l | d];
    try (split; [cbn; discriminate | intros (? & [=] & _)]).
  change (conforms warnings_schema (JList l)) with (forallb (conforms string_schema) l).
  rewrite forallb_forall. split.
  - intros H. exists l. split; [reflexivity |].
    intros y Hy. apply conforms_string, H, Hy.
  - intros (l' & [= <-] & H) y Hy. apply conforms_string, H, Hy.
Qed.

(** The meaning of the declared schema: exactly the answers with the five
    fields, each within its constraint, and nothing else. *)
Lemma conforms_schema_iff (u : jvalue) :
  conforms schema u = true <-> answer_shape u.
Proof.
  split.
  - intros H. destruct (conforms_schema_is_dict u H) as [d ->].
    rewrite conforms_schema_dict, andb_true_iff, has_required_schema in H.
    destruct H as [Hreq Hall]. rewrite forallb_forall in Hall.
    exists d. split; [reflexivity |]. split; [exact Hreq |].
    intros k x Hin. specialize (Hall (k, x) Hin). cbn [fst snd] in Hall.
    destruct (subschema schema k) as [sub |] eqn:Es; [| discriminate].
    unfold field_ok.
    destruct (subschema_cases k sub Es)
      as [[-> ->] | [[-> ->] | [[-> ->] | [[-> ->] | [-> ->]]]]].
    + left. split; [reflexivity |]. apply conforms_tone, Hall.
    + right; left. split; [reflexivity |]. apply conforms_confidence, Hall.
    + right; right; left. split; [reflexivity |]. apply conforms_boolean, Hall.
    + right; right; right; left. split; [reflexivity |]. apply conforms_string, Hall.
    + right; right; right; right. split; [reflexivity |]. apply conforms_warnings, Hall.
  - intros (d & -> & Hreq & Hall).
    rewrite conforms_schema_dict, andb_true_iff, has_required_schema.
    split; [exact Hreq |]. rewrite forallb_forall. intros [k x] Hin.
    cbn [fst snd]. specialize (Hall k x Hin). unfold field_ok in Hall.
    destruct Hall as [[-> F] | [[-> F] | [[-> F] | [[-> F] | [-> F]]]]].
    + change (subschema schema "skin_tone") with (Some tone_schema).
      apply conforms_tone, F.
    + change (subschema schema "confidence") with (Some confidence_schema).
      apply conforms_confidence, F.
    + change (subschema schema "needs_better_photo") with (Some boolean_schema).
      apply conforms_boolean, F.
    + change (subschema schema "notes") with (Some string_schema).
      apply conforms_string, F.
    + change (subschema schema "warnings") with (Some warnings_schema).
      apply conforms_warnings, F.
Qed.

Lemma answer_shape_tone_conf (u : jvalue) :
  answer_shape u -> tone_conf_ok u = true.
Proof.
  intros (d & -> & Hreq & Hall). unfold tone_conf_ok. cbn [dict_get].
  destruct (assoc_get d "skin_tone") as [t |] eqn:Et;
    [| exfalso; apply (Hreq "skin_tone"); [cbn; tauto | assumption]].
  destruct (assoc_get d "confidence") as [c |] eqn:Ec;
    [| exfalso; apply (Hreq "confidence"); [cbn; tauto | assumption]].
  pose proof (Hall _ _ (assoc_get_in _ _ _ Et)) as Ft.
  pose proof (Hall _ _ (assoc_get_in _ _ _ Ec)) as Fc.
  destruct Ft as [[_ (s & -> & Hs)] | [[K _] | [[K _] | [[K _] | [K _]]]]];
    try discriminate K.
  destruct Fc as [[K _] | [[_ (N & L0 & L1)] | [[K _] | [[K _] | [K _]]]]];
    try discriminate K.
  rewrite N, L0, L1, !andb_true_r.
  apply existsb_exists. exists s. split; [exact Hs | apply String.eqb_refl].
Qed.

(** ** [json.loads]: the budget of the definition is enough

    The scanners take a budget for the depth of their calls; [json.loads]
    gives them twice the length of the text plus two.  That is always
    enough: with it no scanner stops for lack of budget, so every
    exception of [json.loads] is one the scanner raised. *)

Lemma skip_ws_length (s : list ascii) :
  (List.length (json.skip_ws s) <= List.length s)%nat.
Proof.
  induction s as [| c r IH]; cbn [json.skip_ws]; [lia |].
  destruct (json.is_ws c); cbn [List.length] in *; lia.
Qed.

Lemma span_digits_length (s : list ascii) :
  (List.length (snd (json.span_digits s)) <= List.length s)%nat.
Proof.
  induction s as [| c r IH]; cbn [json.span_digits]; [cbn; lia |].
  destruct (json.is_digit c); [| cbn; lia].
  destruct (json.span_digits r) as [ds r']. cbn [snd List.length] in *. lia.
Qed.

Lemma strip_prefix_length (w : string) (s r : list ascii) :
  json.strip_prefix w s = Some r ->
  (List.length r + String.length w = List.length s)%nat.
Proof.
  revert s. induction w as [| a w IH]; intros s; cbn [json.strip_prefix String.length].
  - intros [= ->]. lia.
  - destruct s as [| c s']; [discriminate |].
    destruct (Ascii.eqb a c); [| discriminate].
    intros H. apply IH in H. cbn [List.length]. lia.
Qed.

Lemma scanstring_length_aux (n : nat) :
  forall (s acc : list ascii) (str : string) (r : list ascii),
    (List.length s <= n)%nat ->
    json.scanstring s acc = Some (str, r) ->
    (List.length r < List.length s)%nat.
Proof.
  induction n as [| n IH]; intros s acc str r Hn H.
  - destruct s; [discriminate | cbn in Hn; lia].
  - destruct s as [| c s1]; [discriminate |].
    cbn [json.scanstring] in H. cbn [List.length] in *.
    destruct (json.code c =? 34)%N.
    { injection H as _ <-. lia. }
    destruct (json.code c =? 92)%N.
    2: { destruct (json.code c <? 32)%N; [discriminate |].
         apply IH in H; lia. }
    destruct s1 as [| e s2]; [discriminate |]. cbn [List.length] in *.
    destruct (json.code e =? 117)%N.
    2: { destruct (json.simple_escape e); [| discriminate].
         apply IH in H; lia. }
    destruct s2 as [| h1 [| h2 [| h3 [| h4 s3]]]]; try discriminate.
    cbn [List.length] in *.
    destruct (json.hex4 h1 h2 h3 h4) as [cp |]; [| discriminate].
    destruct (json.is_high_surrogate cp).
    2: { apply IH in H; lia. }
    destruct s3 as [| b [| u [| g1 [| g2 [| g3 [| g4 [| x s4]]]]]]];
      try (apply IH in H; cbn [List.length] in *; lia).
    cbn [List.length] in *.
    destruct ((json.code b =? 92)%N && (json.code u =? 117)%N).
    2: { apply IH in H; cbn [List.length] in *; lia. }
    destruct (json.hex4 g1 g2 g3 g4) as [cp2 |]; [| discriminate].
    destruct (json.is_low_surrogate cp2);
      apply IH in H; cbn [List.length] in *; lia.
Qed.

Lemma scanstring_length (s acc : list ascii) (str : string) (r : list ascii) :
  json.scanstring s acc = Some (str, r) -> (List.length r < List.length s)%nat.
Proof. apply (scanstring_length_aux (List.length s)). lia. Qed.

Lemma match_number_length (s : list ascii) (v : jvalue) (r : list ascii) :
  json.match_number s = json.Scanned v r -> (List.length r < List.length s)%nat.
Proof.
  unfold json.match_number, json.Invalid. intros H.
  assert (Hsign : exists neg s1,
             match s with
             | c :: r0 => if (json.code c =? 45)%N then (true, r0) else (false, s)
             | [] => (false, s)
             end = (neg, s1) /\ (List.length s1 <= List.length s)%nat).
  { destruct s as [| c r0]; [eexists _, _; split; [reflexivity | lia] |].
    destruct (json.code c =? 45)%N; eexists _, _;
      (split; [reflexivity | cbn [List.length]; lia]). }
  destruct Hsign as (neg & s1 & E1 & L1). rewrite E1 in H. clear E1.
  destruct s1 as [| c r0]; [discriminate |]. cbn [List.length] in L1.
  assert (Hint : forall ids r1,
             (if ((49 <=? json.code c) && (json.code c <=? 57))%N
              then let (ds, r') := json.span_digits r0 in Some (c :: ds, r')
              else if (json.code c =? 48)%N then Some ([c], r0) else None)
             = Some (ids, r1) -> (List.length r1 <= List.length r0)%nat).
  { intros ids r1. pose proof (span_digits_length r0) as SL.
    destruct ((49 <=? json.code c) && (json.code c <=? 57))%N.
    - destruct (json.span_digits r0) as [ds r']. cbn [snd] in SL.
      intros [= _ <-]. exact SL.
    - destruct (json.code c =? 48)%N; [intros [= _ <-]; lia | discriminate]. }
  destruct (if ((49 <=? json.code c) && (json.code c <=? 57))%N
            then let (ds, r') := json.span_digits r0 in Some (c :: ds, r')
            else if (json.code c =? 48)%N then Some ([c], r0) else None)
    as [[ids r1] |]; [| discriminate].
  specialize (Hint ids r1 eq_refl).
  assert (Hfrac : exists fds r2,
             match r1 with
             | p :: d :: r' =>
                 if ((json.code p =? 46)%N && json.is_digit d)
                 then let (ds, r'') := json.span_digits r' in (d :: ds, r'')
                 else ([], r1)
             | _ => ([], r1)
             end = (fds, r2) /\ (List.length r2 <= List.length r1)%nat).
  { destruct r1 as [| p [| d r']]; try (eexists _, _; split; [reflexivity | lia]).
    destruct ((json.code p =? 46)%N && json.is_digit d).
    - pose proof (span_digits_length r') as SL.
      destruct (json.span_digits r') as [ds r'']. cbn [snd] in SL.
      eexists _, _. split; [reflexivity | cbn [List.length]; lia].
    - eexists _, _. split; [reflexivity | lia]. }
  destruct Hfrac as (fds & r2 & E2 & L2). rewrite E2 in H. clear E2.
  assert (Hexp : exists ex r3,
             match r2 with
             | e :: r' =>
                 if ((json.code e =? 101) || (json.code e =? 69))%N then
                   let (eneg, r'') :=
                     match r' with
                     | sg :: t =>
                         if (json.code sg =? 45)%N then (true, t)
                         else if (json.code sg =? 43)%N then (false, t)
                         else (false, r')
                     | [] => (false, r')
                     end in
                   let (ds, r''') := json.span_digits r'' in
                   match ds with
                   | [] => (None, r2)
                   | _ => (Some (if eneg then - json.digits_value ds
                                 else json.digits_value ds), r''')
                   end
                 else (None, r2)
             | [] => (None, r2)
             end = (ex, r3) /\ (List.length r3 <= List.length r2)%nat).
  { destruct r2 as [| e r']; [eexists _, _; split; [reflexivity | lia] |].
    destruct ((json.code e =? 101) || (json.code e =? 69))%N;
      [| eexists _, _; split; [reflexivity | lia]].
    assert (Hs : exists eneg r'',
               match r' with
               | sg :: t =>
                   if (json.code sg =? 45)%N then (true, t)
                   else if (json.code sg =? 43)%N then (false, t)
                   else (false, r')
               | [] => (false, r')
               end = (eneg, r'') /\ (List.length r'' <= List.length r')%nat).
    { destruct r' as [| sg t]; [eexists _, _; split; [reflexivity | lia] |].
      destruct (json.code sg =? 45)%N;
        [eexists _, _; split; [reflexivity | cbn [List.length]; lia] |].
      destruct (json.code sg =? 43)%N;
        eexists _, _; (split; [reflexivity | cbn [List.length]; lia]). }
    destruct Hs as (eneg & r'' & -> & Ls).
    pose proof (span_digits_length r'') as SL.
    destruct (json.span_digits r'') as [ds r''']. cbn [snd] in SL.
    destruct ds; eexists _, _; (split; [reflexivity | cbn [List.length]; lia]). }
  destruct Hexp as (ex & r3 & E3 & L3). rewrite E3 in H. clear E3.
  assert (r = r3).
  { destruct fds, ex; try (injection H as _ <-; reflexivity);
      destruct (Nat.ltb _ _); [discriminate | injection H as _ <-; reflexivity]. }
  subst r. lia.
Qed.

Lemma match_number_not_exhausted (s : list ascii) :
  json.match_number s <> json.Exhausted.
Proof.
  unfold json.match_number, json.Invalid.
  repeat match goal with
         | |- context [match ?x with _ => _ end] => destruct x
         end; discriminate.
Qed.


Lemma skip_ws_cons (s : list ascii) (c : ascii) (r : list ascii) :
  json.skip_ws s = c :: r -> (List.length r < List.length s)%nat.
Proof.
  intros H. pose proof (skip_ws_length s) as L. rewrite H in L.
  cbn [List.length] in L. lia.
Qed.

Lemma scanners_budget (fuel : nat) :
  (forall room s, (2 * List.length s + 1 <= fuel)%nat ->
                  json.scan_once fuel room s <> json.Exhausted)
  /\ (forall room acc s, (2 * List.length s + 2 <= fuel)%nat ->
                         json.array_items fuel room acc s <> json.Exhausted)
  /\ (forall room acc s, (2 * List.length s + 2 <= fuel)%nat ->
                         json.object_items fuel room acc s <> json.Exhausted)
  /\ (forall room s v r, json.scan_once fuel room s = json.Scanned v r ->
                         (List.length r < List.length s)%nat)
  /\ (forall room acc s v r, json.array_items fuel room acc s = json.Scanned v r ->
                             (List.length r < List.length s)%nat)
  /\ (forall room acc s v r, json.object_items fuel room acc s = json.Scanned v r ->
                             (List.length r < List.length s)%nat).
Proof.
  induction fuel as [| f (IHs & IHa & IHo & LHs & LHa & LHo)].
  { repeat split; intros; try lia; discriminate. }
  assert (Ls : forall room s v r, json.scan_once (S f) room s = json.Scanned v r ->
                                  (List.length r < List.length s)%nat).
  { intros room s v r H. cbn [json.scan_once] in H. unfold json.Invalid in H.
    destruct s as [| c s1]; [discriminate |]. cbn [List.length].
    destruct (json.code c =? 34)%N.
    { destruct (json.scanstring s1 []) as [[str r'] |] eqn:E; [| discriminate].
      injection H as _ <-. apply scanstring_length in E. lia. }
    destruct (json.code c =? 123)%N.
    { destruct room as [| room']; [discriminate |].
      destruct (json.skip_ws s1) as [| c' r'] eqn:E; [discriminate |].
      apply skip_ws_cons in E.
      destruct (json.code c' =? 125)%N.
      - injection H as _ <-. lia.
      - apply LHo in H. cbn [List.length] in H. lia. }
    destruct (json.code c =? 91)%N.
    { destruct room as [| room']; [discriminate |].
      destruct (json.skip_ws s1) as [| c' r'] eqn:E; [discriminate |].
      apply skip_ws_cons in E.
      destruct (json.code c' =? 93)%N.
      - injection H as _ <-. lia.
      - apply LHa in H. cbn [List.length] in H. lia. }
    destruct (json.strip_prefix "null" (c :: s1)) eqn:E1.
    { injection H as _ <-. apply strip_prefix_length in E1.
      cbn [String.length List.length] in E1. lia. }
    destruct (json.strip_prefix "true" (c :: s1)) eqn:E2.
    { injection H as _ <-. apply strip_prefix_length in E2.
      cbn [String.length List.length] in E2. lia. }
    destruct (json.strip_prefix "false" (c :: s1)) eqn:E3.
    { injection H as _ <-. apply strip_prefix_length in E3.
      cbn [String.length List.length] in E3. lia. }
    destruct (json.strip_prefix "NaN" (c :: s1)) eqn:E4.
    { injection H as _ <-. apply strip_prefix_length in E4.
      cbn [String.length List.length] in E4. lia. }
    destruct (json.strip_prefix "Infinity" (c :: s1)) eqn:E5.
    { injection H as _ <-. apply strip_prefix_length in E5.
      cbn [String.length List.length] in E5. lia. }
    destruct (json.strip_prefix "-Infinity" (c :: s1)) eqn:E6.
    { injection H as _ <-. apply strip_prefix_length in E6.
      cbn [String.length List.length] in E6. lia. }
    apply match_number_length in H. cbn [List.length] in H. lia. }
  assert (La : forall room acc s v r,
             json.array_items (S f) room acc s = json.Scanned v r ->
             (List.length r < List.length s)%nat).
  { intros room acc s v r H. cbn [json.array_items] in H. unfold json.Invalid in H.
    destruct (json.scan_once f room s) as [v1 r1 | e1 |] eqn:E; try discriminate.
    apply LHs in E.
    destruct (json.skip_ws r1) as [| c r2] eqn:E2; [discriminate |].
    apply skip_ws_cons in E2.
    destruct (json.code c =? 93)%N; [injection H as _ <-; lia |].
    destruct (json.code c =? 44)%N; [| discriminate].
    apply LHa in H. pose proof (skip_ws_length r2). lia. }
  assert (Lo : forall room acc s v r,
             json.object_items (S f) room acc s = json.Scanned v r ->
             (List.length r < List.length s)%nat).
  { intros room acc s v r H. cbn [json.object_items] in H. unfold json.Invalid in H.
    destruct s as [| q s1]; [discriminate |]. cbn [List.length].
    destruct (json.code q =? 34)%N; [| discriminate].
    destruct (json.scanstring s1 []) as [[key r1] |] eqn:E; [| discriminate].
    apply scanstring_length in E.
    destruct (json.skip_ws r1) as [| c r2] eqn:E2; [discriminate |].
    apply skip_ws_cons in E2.
    destruct (json.code c =? 58)%N; [| discriminate].
    destruct (json.scan_once f room (json.skip_ws r2)) as [v1 r3 | e1 |] eqn:E3;
      try discriminate.
    apply LHs in E3. pose proof (skip_ws_length r2).
    destruct (json.skip_ws r3) as [| c' r4] eqn:E4; [discriminate |].
    apply skip_ws_cons in E4.
    destruct (json.code c' =? 125)%N; [injection H as _ <-; lia |].
    destruct (json.code c' =? 44)%N; [| discriminate].
    apply LHo in H. pose proof (skip_ws_length r4). lia. }
  split; [| split; [| split; [| repeat split; assumption]]].
  - intros room s Hf. cbn [json.scan_once]. unfold json.Invalid.
    destruct s as [| c s1]; [discriminate |]. cbn [List.length] in Hf.
    destruct (json.code c =? 34)%N.
    { destruct (json.scanstring s1 []) as [[str r'] |]; discriminate. }
    destruct (json.code c =? 123)%N.
    { destruct room as [| room']; [discriminate |].
      destruct (json.skip_ws s1) as [| c' r'] eqn:E; [discriminate |].
      apply skip_ws_cons in E.
      destruct (json.code c' =? 125)%N; [discriminate |].
      apply IHo. cbn [List.length]. lia. }
    destruct (json.code c =? 91)%N.
    { destruct room as [| room']; [discriminate |].
      destruct (json.skip_ws s1) as [| c' r'] eqn:E; [discriminate |].
      apply skip_ws_cons in E.
      destruct (json.code c' =? 93)%N; [discriminate |].
      apply IHa. cbn [List.length]. lia. }
    destruct (json.strip_prefix "null" (c :: s1)); [discriminate |].
    destruct (json.strip_prefix "true" (c :: s1)); [discriminate |].
    destruct (json.strip_prefix "false" (c :: s1)); [discriminate |].
    destruct (json.strip_prefix "NaN" (c :: s1)); [discriminate |].
    destruct (json.strip_prefix "Infinity" (c :: s1)); [discriminate |].
    destruct (json.strip_prefix "-Infinity" (c :: s1)); [discriminate |].
    apply match_number_not_exhausted.
  - intros room acc s Hf. cbn [json.array_items]. unfold json.Invalid.
    destruct (json.scan_once f room s) as [v1 r1 | e1 |] eqn:E; try discriminate.
    + apply LHs in E.
      destruct (json.skip_ws r1) as [| c r2] eqn:E2; [discriminate |].
      apply skip_ws_cons in E2.
      destruct (json.code c =? 93)%N; [discriminate |].
      destruct (json.code c =? 44)%N; [| discriminate].
      apply IHa. pose proof (skip_ws_length r2). lia.
    + exfalso. apply (IHs room s); [lia | exact E].
  - intros room acc s Hf. cbn [json.object_items]. unfold json.Invalid.
    destruct s as [| q s1]; [discriminate |]. cbn [List.length] in Hf.
    destruct (json.code q =? 34)%N; [| discriminate].
    destruct (json.scanstring s1 []) as [[key r1] |] eqn:E; [| discriminate].
    apply scanstring_length in E.
    destruct (json.skip_ws r1) as [| c r2] eqn:E2; [discriminate |].
    apply skip_ws_cons in E2.
    destruct (json.code c =? 58)%N; [| discriminate].
    pose proof (skip_ws_length r2).
    destruct (json.scan_once f room (json.skip_ws r2)) as [v1 r3 | e1 |] eqn:E3;
      try discriminate.
    + apply LHs in E3.
      destruct (json.skip_ws r3) as [| c' r4] eqn:E4; [discriminate |].
      apply skip_ws_cons in E4.
      destruct (json.code c' =? 125)%N; [discriminate |].
      destruct (json.code c' =? 44)%N; [| discriminate].
      apply IHo. pose proof (skip_ws_length r4). lia.
    + exfalso. apply (IHs room (json.skip_ws r2)); [lia | exact E3].
Qed.


(** [json.loads] never gives up for lack of budget: whatever the room for
    recursion, its scanner returns a value or raises. *)
Lemma loads_budget_enough (room : nat) (text : string) :
  json.scan_once (json.budget (json.skip_ws (list_ascii_of_string text))) room
                 (json.skip_ws (list_ascii_of_string text))
  <> json.Exhausted.
Proof.
  apply (proj1 (scanners_budget _)). unfold json.budget. lia.
Qed.


(** [json.loads] on the two inputs that make it raise something else than
    [JSONDecodeError]: an integer of 4301 digits, and arrays nested one
    level deeper than the room for recursion. *)
Example loads_long_integer :
  json.loads 900 (repeated "1" 4301) = Err ValueError
  /\ (exists z, json.loads 900 (repeated "1" 4300) = Ok (JInt z)).
Proof. split; [vm_compute; reflexivity | eexists; vm_compute; reflexivity]. Qed.

Example loads_deep_nesting :
  json.loads 2 "[[[]]]" = Err RecursionError
  /\ json.loads 3 "[[[]]]" = Ok (JList [JList [JList []]]).
Proof. split; vm_compute; reflexivity. Qed.

(** ** The memo table *)

Lemma bytes_eqb_refl (b : bytes) : bytes_eqb b b = true.
Proof.
  induction b as [| x b IH]; cbn [bytes_eqb]; [reflexivity |].
  rewrite IH, andb_true_r. apply Byte.byte_dec_lb. reflexivity.
Qed.

Lemma key_eqb_refl (k : cache_key) : key_eqb k k = true.
Proof.
  destruct k as [a [b |]]; unfold key_eqb; cbn [fst snd];
    rewrite !bytes_eqb_refl; reflexivity.
Qed.

Lemma cache_lookup_stored (c : list (cache_key * jvalue)) (k : cache_key) (v : jvalue) :
  cache_lookup ((k, v) :: c) k = Some v.
Proof. cbn [cache_lookup]. rewrite key_eqb_refl. reflexivity. Qed.

(** ** The result and the schema (C1, C2) *)

(** C1, at the failing input: the service answers the tone PURPLE and the
    confidence 2.  The function returns that answer as its result: a value
    whose tone is none of the eight labels nor [unknown] and whose
    confidence is above 1, outside what its docstring says it returns. *)
Theorem C1_answer_outside_labels_returned :
  fst (suggest_skin_tone raw_pil selfie_2x3 None (fresh_world [answer "PURPLE" "2"]))
    = Ok (decoded_answer "PURPLE" 2)
  /\ dict_get (decoded_answer "PURPLE" 2) "skin_tone" = Some (JStr "PURPLE")
  /\ ~ In "PURPLE" (SKIN_TONES ++ ["unknown"])
  /\ dict_get (decoded_answer "PURPLE" 2) "confidence" = Some (JInt 2)
  /\ tone_conf_ok (decoded_answer "PURPLE" 2) = false.
Proof.
  split; [vm_compute; reflexivity |]. split; [reflexivity |].
  split; [| split; reflexivity].
  intros H. cbn in H.
  repeat (destruct H as [H | H]; [discriminate H |]). exact H.
Qed.

(** C2, at the failing input: the same answer is valid JSON and breaks
    the declared schema; the call raises nothing, returns it, and
    memoizes it, so that the same call made again returns it once more
    without asking the service. *)
Theorem C2_violating_answer_returned :
  let w0 := fresh_world [answer "PURPLE" "2"] in
  let w1 := snd (suggest_skin_tone raw_pil selfie_2x3 None w0) in
  json.loads (recursion_room w0) (answer "PURPLE" "2")
    = Ok (decoded_answer "PURPLE" 2)
  /\ conforms schema (decoded_answer "PURPLE" 2) = false
  /\ fst (suggest_skin_tone raw_pil selfie_2x3 None w0) = Ok (decoded_answer "PURPLE" 2)
  /\ suggest_skin_tone raw_pil selfie_2x3 None w1 = (Ok (decoded_answer "PURPLE" 2), w1).
Proof. repeat split; vm_compute; reflexivity. Qed.

(** ** The size of the normalized image (C3, C4) *)

(** C3, as stated, fails on the rounding: [int(...)] cuts the product
    toward zero.  For a 4096 by 7 image and [max_side = 1024] the scale is
    0.25 and the height product is 1.75; the code resizes to height 1,
    which is not a nearest integer of 1.75. *)
Lemma C3_counterexample :
  exists scale ph : spec_float,
    scale_factor 1024 4096 7 = Ok scale
    /\ py_int_mul_float 7 scale = Ok ph
    /\ (F2Q ph == 7 # 4)%Q
    /\ scaled_size 1024 4096 7 = Ok (Some (1024, 1))
    /\ ~ nearest_int (F2Q ph) 1.
Proof.
  exists (S754_finite false 4503599627370496 (-54)).
  exists (S754_finite false 7881299347898368 (-52)).
  split; [vm_compute; reflexivity |].
  split; [vm_compute; reflexivity |].
  split; [vm_compute; reflexivity |].
  split; [vm_compute; reflexivity |].
  intros [_ H]. vm_compute in H. apply H. reflexivity.
Qed.

(** C3, amended: for a positive size and a positive [max_side] (sides
    below 2^53, [max_side] below 2^50) the scale factor is the smallest of
    the two binary64 quotients [max_side / w], [max_side / h] and 1.0, each
    quotient being the exact quotient rounded to binary64; it never
    exceeds 1.  When it is below 1.0 each side is multiplied by it in
    binary64 and the product is cut to the integer below it (not rounded to
    the nearest one), which never exceeds the original side; otherwise the
    size is kept. *)
Theorem C3_scale_factor_and_truncation (max_side w h : Z) :
  0 < max_side < 2 ^ 50 -> 0 < w < 2 ^ 53 -> 0 < h < 2 ^ 53 ->
  exists a b scale : spec_float,
    py_int_truediv max_side w = Ok a /\ in_cell a (max_side # Z.to_pos w)
    /\ py_int_truediv max_side h = Ok b /\ in_cell b (max_side # Z.to_pos h)
    /\ scale = py_min3 a b one
    /\ scale_factor max_side w h = Ok scale
    /\ (F2Q scale <= F2Q a)%Q /\ (F2Q scale <= F2Q b)%Q /\ (F2Q scale <= 1)%Q
    /\ (scale = a \/ scale = b \/ scale = one)
    /\ if SFltb scale one then
         exists (pw ph : spec_float) (nw nh : Z),
           py_int_mul_float w scale = Ok pw /\ py_int_mul_float h scale = Ok ph
           /\ scaled_size max_side w h = Ok (Some (nw, nh))
           /\ (inject_Z nw <= F2Q pw)%Q /\ (F2Q pw < inject_Z nw + 1)%Q
           /\ (inject_Z nh <= F2Q ph)%Q /\ (F2Q ph < inject_Z nh + 1)%Q
           /\ 0 <= nw <= w /\ 0 <= nh <= h
       else scaled_size max_side w h = Ok None.
Proof.
  intros Hm Hw Hh.
  assert (Hm' : 0 < max_side < 2 ^ 53).
  { split; [lia |]. apply Z.lt_trans with (2 ^ 50); [lia | reflexivity]. }
  destruct (py_int_truediv_cell max_side w Hm' Hw) as (a & Ea & Ca & _).
  destruct (py_int_truediv_cell max_side h Hm' Hh) as (b & Eb & Cb & _).
  destruct (scaled_size_spec max_side w h Hm Hw Hh) as (scale & Es & Hn & H1 & Hbr).
  assert (Escale : scale = py_min3 a b one).
  { unfold scale_factor in Es. rewrite Ea, Eb in Es. cbn [rbind] in Es.
    injection Es as <-. reflexivity. }
  pose proof (py_min3_spec a b one (proj1 Ca) (proj1 Cb) normal_pos_one)
    as (Hsel & Sa & Sb & _).
  rewrite <- Escale in Hsel, Sa, Sb.
  exists a, b, scale. do 6 (split; [assumption |]).
  do 4 (split; [assumption |]).
  destruct (SFltb scale one).
  - destruct Hbr as (_ & pw & ph & nw & nh & Epw & Eph & _ & _ & Ess & _ & _
                     & F1 & F2 & F3 & F4 & B1 & _ & B2 & _).
    exists pw, ph, nw, nh. repeat (split; [assumption |]). assumption.
  - apply Hbr.
Qed.

Lemma C3_scale_factor_and_truncation_witness :
  exists a b scale : spec_float,
    py_int_truediv 1024 4000 = Ok a /\ in_cell a (1024 # Z.to_pos 4000)
    /\ py_int_truediv 1024 3000 = Ok b /\ in_cell b (1024 # Z.to_pos 3000)
    /\ scale = py_min3 a b one
    /\ scale_factor 1024 4000 3000 = Ok scale
    /\ (F2Q scale <= F2Q a)%Q /\ (F2Q scale <= F2Q b)%Q /\ (F2Q scale <= 1)%Q
    /\ (scale = a \/ scale = b \/ scale = one)
    /\ if SFltb scale one then
         exists (pw ph : spec_float) (nw nh : Z),
           py_int_mul_float 4000 scale = Ok pw /\ py_int_mul_float 3000 scale = Ok ph
           /\ scaled_size 1024 4000 3000 = Ok (Some (nw, nh))
           /\ (inject_Z nw <= F2Q pw)%Q /\ (F2Q pw < inject_Z nw + 1)%Q
           /\ (inject_Z nh <= F2Q ph)%Q /\ (F2Q ph < inject_Z nh + 1)%Q
           /\ 0 <= nw <= 4000 /\ 0 <= nh <= 3000
       else scaled_size 1024 4000 3000 = Ok None.
Proof.
  apply (C3_scale_factor_and_truncation 1024 4000 3000); vm_compute; split; reflexivity.
Defined.

(** C4: the image that [_preprocess_to_jpeg_bytes] saves never has a side
    above [max_side], and an image whose two sides are within [max_side]
    is saved as decoded, without a resize (sides below 2^53, [max_side]
    below 2^50, and a [resize] that returns the size asked for). *)
Theorem C4_longer_side_bounded_and_small_images_kept
    (PIL : ImagingLib) (image_bytes : bytes) (max_side : Z)
    (opened img : image PIL) (w h : Z) :
  resize_law PIL ->
  0 < max_side < 2 ^ 50 ->
  Image_open PIL image_bytes = Some opened ->
  convert PIL opened "RGB" = Some img ->
  size PIL img = (w, h) ->
  0 < w < 2 ^ 53 -> 0 < h < 2 ^ 53 ->
  (forall out, normalized_image PIL image_bytes max_side = Ok out ->
               Z.max (fst (size PIL out)) (snd (size PIL out)) <= max_side)
  /\ (Z.max w h <= max_side ->
      normalized_image PIL image_bytes max_side = Ok img)
  /\ _preprocess_to_jpeg_bytes PIL image_bytes max_side
     = rbind (normalized_image PIL image_bytes max_side)
             (fun out => of_option ImagingError (save PIL out "JPEG" 85 true)).
Proof.
  intros Law Hm Ho Hc Hs Hw Hh.
  assert (Enorm : normalized_image PIL image_bytes max_side =
                  rbind (scaled_size max_side w h)
                        (fun target => match target with
                                       | Some d => of_option ImagingError (resize PIL img d)
                                       | None => Ok img
                                       end)).
  { unfold normalized_image. rewrite Ho. cbn [of_option rbind].
    rewrite Hc. cbn [of_option rbind]. rewrite Hs. reflexivity. }
  destruct (scaled_size_spec max_side w h Hm Hw Hh) as (scale & Es & Hn & H1 & Hbr).
  split; [| split; [| reflexivity]].
  - intros out Hout. rewrite Enorm in Hout.
    destruct (SFltb scale one).
    + destruct Hbr as (_ & pw & ph & nw & nh & _ & _ & _ & _ & Ess & _ & _
                       & _ & _ & _ & _ & _ & Bw & _ & Bh).
      rewrite Ess in Hout. cbn [rbind] in Hout.
      destruct (resize PIL img (nw, nh)) as [i' |] eqn:Er; [| discriminate].
      cbn [of_option] in Hout. injection Hout as <-.
      rewrite (Law _ _ _ Er). cbn [fst snd]. lia.
    + destruct Hbr as (Bw & Bh & Ess).
      rewrite Ess in Hout. cbn [rbind] in Hout. injection Hout as <-.
      rewrite Hs. cbn [fst snd]. lia.
  - intros Hmax. rewrite Enorm.
    destruct (SFltb scale one).
    + destruct Hbr as ([K | K] & _); lia.
    + destruct Hbr as (_ & _ & ->). reflexivity.
Qed.

Lemma raw_pil_resize_law : resize_law raw_pil.
Proof.
  intros i i' d. cbn [resize raw_pil size]. unfold raw_resize.
  destruct (_ && _); [intros [= <-]; reflexivity | discriminate].
Qed.

Lemma C4_longer_side_bounded_and_small_images_kept_witness :
  (forall out, normalized_image raw_pil panorama_4096x7 1024 = Ok out ->
               Z.max (fst (size raw_pil out)) (snd (size raw_pil out)) <= 1024)
  /\ (Z.max 4096 7 <= 1024 ->
      normalized_image raw_pil panorama_4096x7 1024 = Ok (4096, 7))
  /\ _preprocess_to_jpeg_bytes raw_pil panorama_4096x7 1024
     = rbind (normalized_image raw_pil panorama_4096x7 1024)
             (fun out => of_option ImagingError (save raw_pil out "JPEG" 85 true)).
Proof.
  apply (C4_longer_side_bounded_and_small_images_kept raw_pil panorama_4096x7 1024
           (4096, 7) (4096, 7) 4096 7).
  - exact raw_pil_resize_law.
  - vm_compute; split; reflexivity.
  - reflexivity.
  - reflexivity.
  - reflexivity.
  - vm_compute; split; reflexivity.
  - vm_compute; split; reflexivity.
Defined.

(** ** Credentials, memoization and the request (C5, C6, C8 to C10) *)

Lemma body_sent (PIL : ImagingLib) (sel : bytes) (ref : option bytes)
    (w w1 : world) (res : result jvalue) :
  suggest_skin_tone_body PIL sel ref w = (res, w1) ->
  cache w1 = cache w
  /\ (new_calls w w1 = []
      \/ exists c content,
           key_resolved w = true
           /\ planned_content PIL sel ref = Ok content
           /\ new_calls w w1 = [(c, expected_request content)]).
Proof.
  intros B.
  destruct (body_inv _ _ _ _ _ _ B) as [(-> & _) | (c & content & K & P & -> & _)].
  - split; [reflexivity |]. left. apply new_calls_same.
  - split; [reflexivity |]. right. exists c, content.
    rewrite new_calls_sent. auto.
Qed.

Lemma cached_sent (PIL : ImagingLib) (sel : bytes) (ref : option bytes)
    (w w' : world) (res : result jvalue) :
  suggest_skin_tone PIL sel ref w = (res, w') ->
  new_calls w w' = []
  \/ exists c content,
       key_resolved w = true
       /\ planned_content PIL sel ref = Ok content
       /\ new_calls w w' = [(c, expected_request content)].
Proof.
  intros Hrun.
  destruct (cached_inv _ _ _ _ _ _ Hrun)
    as [(v0 & L & -> & ->) | (L & res1 & w1 & B & <- & Hw')].
  - left. apply new_calls_same.
  - destruct (body_sent _ _ _ _ _ _ B) as [_ H].
    destruct res; subst w'; rewrite ?new_calls_cache; exact H.
Qed.

Lemma cached_fst (PIL : ImagingLib) (sel : bytes) (ref : option bytes)
    (w : world) (o : option jvalue) :
  cache_lookup (cache w) (sel, ref) = o ->
  fst (suggest_skin_tone PIL sel ref w)
  = match o with
    | Some v => Ok v
    | None => fst (suggest_skin_tone_body PIL sel ref w)
    end.
Proof.
  intros <-. unfold suggest_skin_tone, cache_data.
  destruct (cache_lookup (cache w) (sel, ref)); [reflexivity |].
  destruct (suggest_skin_tone_body PIL sel ref w) as [[v | e] w1]; reflexivity.
Qed.

Lemma cached_sent_of (PIL : ImagingLib) (sel : bytes) (ref : option bytes)
    (w : world) (o : option jvalue) :
  cache_lookup (cache w) (sel, ref) = o ->
  sent (snd (suggest_skin_tone PIL sel ref w))
  = match o with
    | Some v => sent w
    | None => sent (snd (suggest_skin_tone_body PIL sel ref w))
    end.
Proof.
  intros <-. unfold suggest_skin_tone, cache_data.
  destruct (cache_lookup (cache w) (sel, ref)); [reflexivity |].
  destruct (suggest_skin_tone_body PIL sel ref w) as [[v | e] w1]; reflexivity.
Qed.

Lemma bytes_eqb_eq (a b : bytes) : bytes_eqb a b = true -> a = b.
Proof.
  revert b. induction a as [| x a IH]; intros [| y b]; cbn [bytes_eqb];
    try discriminate; [reflexivity |].
  intros H. apply andb_true_iff in H as [H1 H2].
  apply Byte.byte_dec_bl in H1. apply IH in H2. congruence.
Qed.

Lemma key_eqb_eq (a b : cache_key) : key_eqb a b = true -> a = b.
Proof.
  destruct a as [a1 a2], b as [b1 b2]. unfold key_eqb. cbn [fst snd].
  intros H. apply andb_true_iff in H as [H1 H2].
  apply bytes_eqb_eq in H1. subst b1.
  destruct a2 as [x |], b2 as [y |]; try discriminate; [| reflexivity].
  apply bytes_eqb_eq in H2. congruence.
Qed.

(** A memoized result stays where it is through any further call. *)
Lemma lookup_persists (PIL : ImagingLib) (a : bytes) (b : option bytes)
    (w : world) (k : cache_key) (v : jvalue) :
  cache_lookup (cache w) k = Some v ->
  cache_lookup (cache (snd (suggest_skin_tone PIL a b w))) k = Some v.
Proof.
  intros Hk.
  destruct (cached_inv PIL a b w _ _ (surjective_pairing _))
    as [(v0 & L & _ & ->) | (L & res1 & w1 & B & E & Hw')].
  - exact Hk.
  - destruct (body_sent _ _ _ _ _ _ B) as [Hc _].
    destruct res1 as [v1 | e]; rewrite Hw'; [| rewrite Hc; exact Hk].
    cbn [cache with_cache cache_lookup].
    destruct (key_eqb (a, b) k) eqn:Ek.
    + apply key_eqb_eq in Ek. subst k. congruence.
    + rewrite Hc. exact Hk.
Qed.

Lemma lookup_after_calls (PIL : ImagingLib) (calls : list (bytes * option bytes))
    (w : world) (k : cache_key) (v : jvalue) :
  cache_lookup (cache w) k = Some v ->
  cache_lookup (cache (after_calls PIL calls w)) k = Some v.
Proof.
  revert w. induction calls as [| [a b] rest IH]; intros w Hk;
    cbn [after_calls]; [exact Hk |].
  apply IH, lookup_persists, Hk.
Qed.





(** C6, as stated, fails when the first call raises after its request:
    nothing is memoized then, and the second call sends another request.
    With a service whose answers are not JSON, two identical calls send
    two requests. *)
Lemma C6_counterexample :
  let w0 := fresh_world ["oops"; "oops"] in
  let w1 := snd (suggest_skin_tone raw_pil selfie_2x3 None w0) in
  let w2 := snd (suggest_skin_tone raw_pil selfie_2x3 None w1) in
  fst (suggest_skin_tone raw_pil selfie_2x3 None w0) = Err JSONDecodeError
  /\ List.length (new_calls w0 w2) = 2%nat.
Proof. split; vm_compute; reflexivity. Qed.

(** C6, amended: when a call returns a result, the same call made again,
    at once or after any number of other calls, returns the same result,
    sends no request and changes nothing; the first call itself sends at
    most one request. *)
Theorem C6_memoized_result_returned_without_call
    (PIL : ImagingLib) (sel : bytes) (ref : option bytes)
    (w w1 : world) (v : jvalue) (others : list (bytes * option bytes)) :
  suggest_skin_tone PIL sel ref w = (Ok v, w1) ->
  let w2 := after_calls PIL others w1 in
  suggest_skin_tone PIL sel ref w2 = (Ok v, w2)
  /\ new_calls w2 (snd (suggest_skin_tone PIL sel ref w2)) = []
  /\ (List.length (new_calls w w1) <= 1)%nat.
Proof.
  intros Hrun w2.
  assert (Hhit : cache_lookup (cache w1) (sel, ref) = Some v).
  { destruct (cached_inv _ _ _ _ _ _ Hrun)
      as [(v0 & L & [= <-] & ->) | (L & res1 & w' & B & <- & Hw')].
    - exact L.
    - subst w1. cbn [cache with_cache]. apply cache_lookup_stored. }
  assert (Hagain : suggest_skin_tone PIL sel ref w2 = (Ok v, w2)).
  { unfold suggest_skin_tone, cache_data, w2.
    rewrite (lookup_after_calls PIL others w1 _ _ Hhit). reflexivity. }
  split; [exact Hagain |]. split.
  - rewrite Hagain. apply new_calls_same.
  - destruct (cached_sent _ _ _ _ _ _ Hrun) as [-> | (c & content & _ & _ & ->)];
      cbn [List.length]; lia.
Qed.

Lemma C6_memoized_result_returned_without_call_witness :
  let w0 := fresh_world [answer "TAN" "1"; answer "DEEP" "1"] in
  let w1 := snd (suggest_skin_tone raw_pil selfie_2x3 None w0) in
  let w2 := after_calls raw_pil [(panorama_4096x7, None)] w1 in
  suggest_skin_tone raw_pil selfie_2x3 None w2 = (Ok (decoded_answer "TAN" 1), w2)
  /\ new_calls w2 (snd (suggest_skin_tone raw_pil selfie_2x3 None w2)) = []
  /\ (List.length (new_calls w0 w1) <= 1)%nat.
Proof.
  cbv zeta.
  apply (C6_memoized_result_returned_without_call raw_pil selfie_2x3 None
           (fresh_world [answer "TAN" "1"; answer "DEEP" "1"])).
  vm_compute. reflexivity.
Defined.

(** C8: every request the function sends holds, in this order, the
    instruction text, then the reference image exactly when a non-empty
    reference was given, then the selfie image as the last item. *)
Theorem C8_content_order
    (PIL : ImagingLib) (sel : bytes) (ref : option bytes)
    (w w' : world) (res : result jvalue) (c : client) (r : request) :
  suggest_skin_tone PIL sel ref w = (res, w') ->
  In (c, r) (new_calls w w') ->
  exists selfie_jpeg,
    _preprocess_to_jpeg_bytes PIL sel 1024 = Ok selfie_jpeg
    /\ match ref with
       | Some (x :: b) =>
           exists ref_jpeg,
             _preprocess_to_jpeg_bytes PIL (x :: b) 1024 = Ok ref_jpeg
             /\ content_of r = Some [input_text instruction;
                                     input_image (_to_data_url ref_jpeg);
                                     input_image (_to_data_url selfie_jpeg)]
       | _ =>
           content_of r = Some [input_text instruction;
                                input_image (_to_data_url selfie_jpeg)]
       end.
Proof.
  intros Hrun Hin.
  destruct (cached_sent _ _ _ _ _ _ Hrun) as [E | (c0 & content & _ & P & E)];
    rewrite E in Hin; [destruct Hin |].
  destruct Hin as [[= <- <-] | []].
  unfold planned_content in P.
  destruct (_preprocess_to_jpeg_bytes PIL sel 1024) as [sj | e]; [| discriminate].
  cbn [rbind] in P. exists sj. split; [reflexivity |].
  destruct ref as [[| x b] |]; cbn [reference_of truthy_bytes] in P.
  - injection P as <-. reflexivity.
  - unfold reference_of in P. cbn [truthy_bytes] in P.
    destruct (_preprocess_to_jpeg_bytes PIL (x :: b) 1024) as [rj | e];
      [| discriminate].
    cbn [rbind] in P. injection P as <-. exists rj. split; reflexivity.
  - injection P as <-. reflexivity.
Qed.

Lemma C8_content_order_witness :
  exists selfie_jpeg,
    _preprocess_to_jpeg_bytes raw_pil selfie_2x3 1024 = Ok selfie_jpeg
    /\ exists ref_jpeg,
         _preprocess_to_jpeg_bytes raw_pil panorama_4096x7 1024 = Ok ref_jpeg
         /\ content_of
              (expected_request
                 [input_text instruction;
                  input_image "data:image/jpeg;base64,SgQAAAE=";
                  input_image "data:image/jpeg;base64,SgACAAM="])
            = Some [input_text instruction;
                    input_image (_to_data_url ref_jpeg);
                    input_image (_to_data_url selfie_jpeg)].
Proof.
  apply (C8_content_order raw_pil selfie_2x3 (Some panorama_4096x7)
           (fresh_world [answer "TAN" "1"])
           (snd (suggest_skin_tone raw_pil selfie_2x3 (Some panorama_4096x7)
                   (fresh_world [answer "TAN" "1"])))
           (fst (suggest_skin_tone raw_pil selfie_2x3 (Some panorama_4096x7)
                   (fresh_world [answer "TAN" "1"])))
           {| api_key := "sk-test" |}).
  - apply surjective_pairing.
  - vm_compute. left. reflexivity.
Defined.

(** C9: every request the function sends declares, as a strict JSON
    schema, exactly the five required fields (the tone among the eight
    labels and "unknown", the confidence a number from 0 to 1, a boolean, a
    string and an array of strings) with no other field allowed, and caps
    the output at 220 tokens. *)
Theorem C9_strict_schema_and_token_cap
    (PIL : ImagingLib) (sel : bytes) (ref : option bytes)
    (w w' : world) (res : result jvalue) (c : client) (r : request) :
  suggest_skin_tone PIL sel ref w = (res, w') ->
  In (c, r) (new_calls w w') ->
  max_output_tokens r = 220
  /\ model r = MODEL
  /\ dict_get (text r) "format"
     = Some (JDict [("type", JStr "json_schema");
                    ("name", JStr "skin_tone_suggestion");
                    ("schema", schema);
                    ("strict", JBool true)])
  /\ declared_schema r = Some schema
  /\ dict_get schema "required" = Some (JList (map JStr required_fields))
  /\ dict_get schema "additionalProperties" = Some (JBool false)
  /\ (forall u, conforms schema u = true <-> answer_shape u).
Proof.
  intros Hrun Hin.
  destruct (cached_sent _ _ _ _ _ _ Hrun) as [E | (c0 & content & _ & P & E)];
    rewrite E in Hin; [destruct Hin |].
  destruct Hin as [[= <- <-] | []].
  do 6 (split; [reflexivity |]). exact conforms_schema_iff.
Qed.

Lemma C9_strict_schema_and_token_cap_witness :
  max_output_tokens
    (expected_request [input_text instruction;
                       input_image "data:image/jpeg;base64,SgACAAM="]) = 220
  /\ model (expected_request [input_text instruction;
                              input_image "data:image/jpeg;base64,SgACAAM="]) = MODEL
  /\ dict_get (text (expected_request [input_text instruction;
                                       input_image "data:image/jpeg;base64,SgACAAM="]))
       "format"
     = Some (JDict [("type", JStr "json_schema");
                    ("name", JStr "skin_tone_suggestion");
                    ("schema", schema);
                    ("strict", JBool true)])
  /\ declared_schema (expected_request [input_text instruction;
                                        input_image "data:image/jpeg;base64,SgACAAM="])
     = Some schema
  /\ dict_get schema "required" = Some (JList (map JStr required_fields))
  /\ dict_get schema "additionalProperties" = Some (JBool false)
  /\ (forall u, conforms schema u = true <-> answer_shape u).
Proof.
  apply (C9_strict_schema_and_token_cap raw_pil selfie_2x3 None
           (fresh_world [answer "TAN" "1"])
           (snd (suggest_skin_tone raw_pil selfie_2x3 None (fresh_world [answer "TAN" "1"])))
           (fst (suggest_skin_tone raw_pil selfie_2x3 None (fresh_world [answer "TAN" "1"])))
           {| api_key := "sk-test" |}).
  - apply surjective_pairing.
  - vm_compute. left. reflexivity.
Defined.

(** C10, as stated, fails through the memo table, which keys on the
    arguments as given: once the call without a reference is memoized, that
    call is answered from the table, while the call with an empty reference
    runs the body, sends a request and returns the new answer. *)
Lemma C10_counterexample :
  let w0 := fresh_world [answer "TAN" "1"; answer "DEEP" "1"] in
  let w1 := snd (suggest_skin_tone raw_pil selfie_2x3 None w0) in
  fst (suggest_skin_tone raw_pil selfie_2x3 None w1) = Ok (decoded_answer "TAN" 1)
  /\ new_calls w1 (snd (suggest_skin_tone raw_pil selfie_2x3 None w1)) = []
  /\ fst (suggest_skin_tone raw_pil selfie_2x3 (Some []) w1) = Ok (decoded_answer "DEEP" 1)
  /\ List.length (new_calls w1 (snd (suggest_skin_tone raw_pil selfie_2x3 (Some []) w1)))
     = 1%nat.
Proof. repeat split; vm_compute; reflexivity. Qed.

(** C10, amended: the function body treats an empty reference as an absent
    one: it runs exactly as without a reference, the reference is never
    handed to the imaging library and no reference item is put in a request.
    The memoized function gives the two calls the same result and the same
    requests whenever the memo table holds the same entry, or none, for
    both argument pairs. *)
Theorem C10_empty_reference_is_absent
    (PIL : ImagingLib) (sel : bytes) (w : world) :
  cache_lookup (cache w) (sel, Some []) = cache_lookup (cache w) (sel, None) ->
  suggest_skin_tone_body PIL sel (Some []) w = suggest_skin_tone_body PIL sel None w
  /\ planned_content PIL sel (Some [])
     = rbind (_preprocess_to_jpeg_bytes PIL sel 1024)
             (fun selfie_jpeg =>
                Ok [input_text instruction; input_image (_to_data_url selfie_jpeg)])
  /\ fst (suggest_skin_tone PIL sel (Some []) w) = fst (suggest_skin_tone PIL sel None w)
  /\ sent (snd (suggest_skin_tone PIL sel (Some []) w))
     = sent (snd (suggest_skin_tone PIL sel None w)).
Proof.
  intros Hc.
  split; [reflexivity |]. split; [reflexivity |].
  rewrite (cached_fst PIL sel (Some []) w _ Hc), (cached_sent_of PIL sel (Some []) w _ Hc).
  rewrite (cached_fst PIL sel None w _ eq_refl), (cached_sent_of PIL sel None w _ eq_refl).
  split; reflexivity.
Qed.

Lemma C10_empty_reference_is_absent_witness :
  let w := fresh_world [answer "TAN" "1"] in
  suggest_skin_tone_body raw_pil selfie_2x3 (Some []) w
  = suggest_skin_tone_body raw_pil selfie_2x3 None w
  /\ planned_content raw_pil selfie_2x3 (Some [])
     = rbind (_preprocess_to_jpeg_bytes raw_pil selfie_2x3 1024)
             (fun selfie_jpeg =>
                Ok [input_text instruction; input_image (_to_data_url selfie_jpeg)])
  /\ fst (suggest_skin_tone raw_pil selfie_2x3 (Some []) w)
     = fst (suggest_skin_tone raw_pil selfie_2x3 None w)
  /\ sent (snd (suggest_skin_tone raw_pil selfie_2x3 (Some []) w))
     = sent (snd (suggest_skin_tone raw_pil selfie_2x3 None w)).
Proof.
  cbv zeta.
  apply (C10_empty_reference_is_absent raw_pil selfie_2x3 (fresh_world [answer "TAN" "1"])).
  reflexivity.
Defined.

(** * Further properties of the code

    ** Sizes after a resize *)

(** Relative error of one rounding, lower side. *)
Lemma in_cell_lower (r : spec_float) (X : Q) :
  in_cell r X -> (X * (1 - pow2 (- 52)) <= F2Q r)%Q.
Proof.
  intros (_ & q & E & Hq & X1 & X2 & R1 & R2).
  pose proof (pow2_pos E) as PE.
  assert (inject_Z (2 ^ 52) * pow2 E <= inject_Z q * pow2 E)%Q.
  { apply Qmult_le_compat_r; [rewrite <- Zle_Qle; lia | lra]. }
  assert (E1 : (pow2 E == inject_Z (2 ^ 52) * pow2 E * pow2 (- 52))%Q).
  { change (pow2 (- 52)) with (/ inject_Z (2 ^ 52))%Q. field. discriminate. }
  assert (E2 : (inject_Z (q + 1) * pow2 E == inject_Z q * pow2 E + pow2 E)%Q).
  { rewrite inject_Z_plus. change (inject_Z 1) with 1%Q. ring. }
  pose proof (pow2_pos (- 52)) as P52.
  assert (inject_Z (2 ^ 52) * pow2 E * pow2 (- 52) <= X * pow2 (- 52))%Q.
  { apply Qmult_le_compat_r; lra. }
  lra.
Qed.

Lemma ratio_le (m w l : Z) :
  0 < m -> 0 < w -> w <= l -> (m # Z.to_pos l <= m # Z.to_pos w)%Q.
Proof.
  intros Hm Hw Hl. unfold Qle. cbn [Qnum Qden].
  rewrite !Z2Pos.id by lia. nia.
Qed.

(** The side [l] that is the longer one comes out at [m] or one pixel
    short of it. *)
Lemma longer_dim_lower (m l : Z) (scale p : spec_float) (n : Z) :
  0 < m < 2 ^ 50 -> 0 < l ->
  ((m # Z.to_pos l) * (1 - pow2 (- 52)) <= F2Q scale)%Q ->
  in_cell p (inject_Z l * F2Q scale) ->
  (F2Q p < inject_Z n + 1)%Q ->
  m - 1 <= n.
Proof.
  intros Hm Hl Hs Cp Fn.
  pose proof (in_cell_lower p _ Cp) as Pl.
  pose proof (ratio_times m l Hl) as RT.
  assert (HL : (0 < inject_Z l)%Q).
  { change 0%Q with (inject_Z 0). rewrite <- Zlt_Qlt. lia. }
  change (pow2 (- 52)) with (1 # 4503599627370496)%Q in *.
  set (R := (m # Z.to_pos l)%Q) in *. set (S := F2Q scale) in *.
  set (L := inject_Z l) in *.
  assert (LS : (inject_Z m * (1 - (1 # 4503599627370496)) <= L * S)%Q).
  { rewrite <- RT.
    apply Qle_trans with (L * (R * (1 - (1 # 4503599627370496))))%Q.
    - rewrite Qmult_assoc. apply Qle_refl.
    - apply Qmult_le_l; assumption. }
  assert (HM : (inject_Z m < 1125899906842624)%Q).
  { change 1125899906842624%Q with (inject_Z (2 ^ 50)). rewrite <- Zlt_Qlt. lia. }
  set (X := (L * S)%Q) in *. set (P := F2Q p) in *.
  set (Mq := inject_Z m) in *. set (N := inject_Z n) in *.
  assert (N1 : (Mq < N + 2)%Q) by lra.
  unfold N, Mq in N1. change 2%Q with (inject_Z 2) in N1.
  rewrite <- inject_Z_plus, <- Zlt_Qlt in N1. lia.
Qed.

Lemma normalized_image_unfold (PIL : ImagingLib) (image_bytes : bytes) (max_side : Z)
    (opened img : image PIL) (w h : Z) :
  Image_open PIL image_bytes = Some opened ->
  convert PIL opened "RGB" = Some img ->
  size PIL img = (w, h) ->
  normalized_image PIL image_bytes max_side =
  rbind (scaled_size max_side w h)
        (fun target => match target with
                       | Some d => of_option ImagingError (resize PIL img d)
                       | None => Ok img
                       end).
Proof.
  intros Ho Hc Hs. unfold normalized_image. rewrite Ho. cbn [of_option rbind].
  rewrite Hc. cbn [of_option rbind]. rewrite Hs. reflexivity.
Qed.

(** The longer side of a downscaled image is [max_side] or one less. *)
Lemma longer_side_bounds (max_side w h : Z) :
  0 < max_side < 2 ^ 50 -> 0 < w < 2 ^ 53 -> 0 < h < 2 ^ 53 ->
  max_side < Z.max w h ->
  exists nw nh : Z,
    scaled_size max_side w h = Ok (Some (nw, nh))
    /\ 0 <= nw /\ 0 <= nh
    /\ max_side - 1 <= Z.max nw nh <= max_side.
Proof.
  intros Hm Hw Hh Hbig.
  assert (Hm' : 0 < max_side < 2 ^ 53).
  { split; [lia |]. apply Z.lt_trans with (2 ^ 50); [lia | reflexivity]. }
  destruct (py_int_truediv_cell max_side w Hm' Hw) as (a & Ea & Ca & _).
  destruct (py_int_truediv_cell max_side h Hm' Hh) as (b & Eb & Cb & _).
  destruct (scaled_size_spec max_side w h Hm Hw Hh) as (scale & Es & Hn & H1 & Hbr).
  assert (Escale : scale = py_min3 a b one).
  { unfold scale_factor in Es. rewrite Ea, Eb in Es. cbn [rbind] in Es.
    injection Es as <-. reflexivity. }
  pose proof (py_min3_spec a b one (proj1 Ca) (proj1 Cb) normal_pos_one)
    as (Hsel & _). rewrite <- Escale in Hsel.
  destruct (SFltb scale one); [| lia].
  destruct Hbr as (_ & pw & ph & nw & nh & _ & _ & _ & _ & Ess & Cpw & Cph
                   & _ & Fw & _ & Fh & Bw & Bwm & Bh & Bhm).
  exists nw, nh. split; [exact Ess |]. split; [lia |]. split; [lia |]. split; [| lia].
  set (l := Z.max w h) in *.
  assert (Hl : 0 < l) by (unfold l; lia).
  assert (Hscale : ((max_side # Z.to_pos l) * (1 - pow2 (- 52)) <= F2Q scale)%Q).
  { pose proof (in_cell_lower a _ Ca) as La.
    pose proof (in_cell_lower b _ Cb) as Lb.
    pose proof (ratio_le max_side w l ltac:(lia) ltac:(lia) ltac:(unfold l; lia)) as Rw.
    pose proof (ratio_le max_side h l ltac:(lia) ltac:(lia) ltac:(unfold l; lia)) as Rh.
    assert (R1 : (max_side # Z.to_pos l <= 1)%Q).
    { unfold Qle. cbn [Qnum Qden]. rewrite Z2Pos.id by lia. lia. }
    assert (R0 : (0 < max_side # Z.to_pos l)%Q).
    { unfold Qlt. cbn [Qnum Qden]. lia. }
    change (pow2 (- 52)) with (1 # 4503599627370496)%Q in *.
    destruct Hsel as [-> | [-> | ->]]; [nra | nra | rewrite F2Q_one; nra]. }
  destruct (Z.max_spec w h) as [[_ E] | [_ E]]; fold l in E.
  - (* the height is the longer side *)
    rewrite <- E in Cph.
    pose proof (longer_dim_lower max_side l scale ph nh Hm Hl Hscale Cph Fh). lia.
  - rewrite <- E in Cpw.
    pose proof (longer_dim_lower max_side l scale pw nw Hm Hl Hscale Cpw Fw). lia.
Qed.

(** X1: when an image is downscaled (a side above [max_side]; sides below
    2^53, [max_side] below 2^50), its longer side comes out at [max_side]
    or one pixel short of it, never smaller: the binary64 rounding of the
    scale and of the product can lose at most one pixel. *)
Theorem X1_downscaled_longer_side (max_side w h : Z) :
  0 < max_side < 2 ^ 50 -> 0 < w < 2 ^ 53 -> 0 < h < 2 ^ 53 ->
  max_side < Z.max w h ->
  exists nw nh : Z,
    scaled_size max_side w h = Ok (Some (nw, nh))
    /\ max_side - 1 <= Z.max nw nh <= max_side.
Proof.
  intros Hm Hw Hh Hbig.
  destruct (longer_side_bounds max_side w h Hm Hw Hh Hbig) as (nw & nh & E & _ & _ & B).
  exists nw, nh. split; assumption.
Qed.

Lemma X1_downscaled_longer_side_witness :
  exists nw nh : Z,
    scaled_size 1024 1029 700 = Ok (Some (nw, nh))
    /\ 1024 - 1 <= Z.max nw nh <= 1024.
Proof.
  apply (X1_downscaled_longer_side 1024 1029 700); vm_compute; try split; reflexivity.
Defined.

(** X2: an image so elongated that [h * max_side < w] (with [w] and
    [max_side] below 2^50) gets the height 0: the function asks the imaging
    library to resize to a size with a zero side. *)
Theorem X2_elongated_image_zero_height
    (PIL : ImagingLib) (image_bytes : bytes) (max_side : Z)
    (opened img : image PIL) (w h : Z) :
  Image_open PIL image_bytes = Some opened ->
  convert PIL opened "RGB" = Some img ->
  size PIL img = (w, h) ->
  0 < max_side -> 0 < h -> w < 2 ^ 50 -> h * max_side < w ->
  exists nw : Z,
    max_side - 1 <= nw <= max_side
    /\ scaled_size max_side w h = Ok (Some (nw, 0))
    /\ normalized_image PIL image_bytes max_side
       = of_option ImagingError (resize PIL img (nw, 0)).
Proof.
  intros Ho Hc Hs Hm0 Hh0 Hw Hel.
  assert (Hmw : max_side < w) by nia.
  assert (Hhw : h < w) by nia.
  assert (B50 : 2 ^ 50 < 2 ^ 53) by reflexivity.
  assert (Hm : 0 < max_side < 2 ^ 50) by lia.
  assert (Hw' : 0 < w < 2 ^ 53) by lia.
  assert (Hh : 0 < h < 2 ^ 53) by lia.
  assert (Hm' : 0 < max_side < 2 ^ 53) by lia.
  destruct (py_int_truediv_cell max_side w Hm' Hw') as (a & Ea & Ca & _).
  destruct (py_int_truediv_cell max_side h Hm' Hh) as (b & Eb & Cb & _).
  destruct (scaled_size_spec max_side w h Hm Hw' Hh) as (scale & Es & Hn & H1 & Hbr).
  assert (Escale : scale = py_min3 a b one).
  { unfold scale_factor in Es. rewrite Ea, Eb in Es. cbn [rbind] in Es.
    injection Es as <-. reflexivity. }
  pose proof (py_min3_spec a b one (proj1 Ca) (proj1 Cb) normal_pos_one)
    as (_ & Sa & _). rewrite <- Escale in Sa.
  destruct (SFltb scale one); [| lia].
  destruct Hbr as (_ & pw & ph & nw & nh & _ & _ & Epw & Eph & Ess & Cpw & Cph
                   & _ & Fw & Fh1 & Fh2 & Bw & Bwm & Bh & Bhm).
  assert (Hph : (F2Q ph < 1)%Q).
  { apply (in_cell_lt_1 ph _ Cph).
    pose proof (in_cell_upper a _ Ca) as Ua.
    assert (HH : (0 < inject_Z h)%Q).
    { change 0%Q with (inject_Z 0). rewrite <- Zlt_Qlt. lia. }
    assert (T : (inject_Z h * (max_side # Z.to_pos w)
                 < 1 - (1 # 1125899906842624))%Q).
    { assert (E0 : (inject_Z h * (max_side # Z.to_pos w)
                    == (h * max_side # Z.to_pos w))%Q).
      { unfold Qeq, Qmult, inject_Z. cbn [Qnum Qden]. lia. }
      rewrite E0. unfold Qlt, Qminus, Qplus, Qopp. cbn [Qnum Qden].
      rewrite Z2Pos.id by lia.
      change (2 ^ 50) with 1125899906842624 in *. lia. }
    change (pow2 (- 52)) with (1 # 4503599627370496)%Q in Ua.
    change (pow2 (- 53)) with (1 # 9007199254740992)%Q.
    set (R := (max_side # Z.to_pos w)%Q) in *.
    assert (R0 : (0 <= R)%Q).
    { unfold R, Qle. cbn [Qnum Qden]. lia. }
    set (S := F2Q scale) in *. set (A := F2Q a) in *. set (H := inject_Z h) in *.
    assert (HS : (H * S <= H * (R * (1 + (1 # 4503599627370496))))%Q).
    { apply Qmult_le_l; [assumption | lra]. }
    set (HR := (H * R)%Q) in *.
    assert (E : (H * (R * (1 + (1 # 4503599627370496)))
                 == HR * (1 + (1 # 4503599627370496)))%Q) by (unfold HR; ring).
    rewrite E in HS. set (HSv := (H * S)%Q) in *. lra. }
  assert (nh = 0).
  { assert (K : (inject_Z nh < inject_Z 1)%Q) by (change (inject_Z 1) with 1%Q; lra).
    rewrite <- Zlt_Qlt in K. lia. }
  subst nh.
  assert (Hnw : max_side - 1 <= nw).
  { destruct (longer_side_bounds max_side w h Hm Hw' Hh ltac:(lia))
      as (nw' & nh' & E' & N1 & N2 & B).
    rewrite Ess in E'. injection E' as <- <-. lia. }
  exists nw. split; [lia |]. split; [exact Ess |].
  rewrite (normalized_image_unfold PIL image_bytes max_side opened img w h Ho Hc Hs).
  rewrite Ess. reflexivity.
Qed.

Lemma X2_elongated_image_zero_height_witness :
  exists nw : Z,
    1024 - 1 <= nw <= 1024
    /\ scaled_size 1024 4096 3 = Ok (Some (nw, 0))
    /\ normalized_image raw_pil strip_4096x3 1024
       = of_option ImagingError (resize raw_pil (4096, 3) (nw, 0)).
Proof.
  apply (X2_elongated_image_zero_height raw_pil strip_4096x3 1024
           (4096, 3) (4096, 3) 4096 3); vm_compute; reflexivity.
Defined.

(** X3: an image the library reports with a zero side (sides and
    [max_side] otherwise positive and below 2^53) is not resized or saved:
    the scale computation divides by that side and the function raises
    [ZeroDivisionError]. *)
Theorem X3_zero_sided_image_division_error
    (PIL : ImagingLib) (image_bytes : bytes) (max_side : Z)
    (opened img : image PIL) (w h : Z) :
  Image_open PIL image_bytes = Some opened ->
  convert PIL opened "RGB" = Some img ->
  size PIL img = (w, h) ->
  0 < max_side < 2 ^ 53 -> 0 <= w < 2 ^ 53 -> 0 <= h ->
  w = 0 \/ h = 0 ->
  _preprocess_to_jpeg_bytes PIL image_bytes max_side = Err ZeroDivisionError.
Proof.
  intros Ho Hc Hs Hm Hw Hh Hz.
  unfold _preprocess_to_jpeg_bytes.
  rewrite (normalized_image_unfold PIL image_bytes max_side opened img w h Ho Hc Hs).
  assert (E : scaled_size max_side w h = Err ZeroDivisionError).
  { unfold scaled_size, scale_factor.
    destruct (Z.eq_dec w 0) as [-> | Hw0]; [reflexivity |].
    destruct Hz as [-> | ->]; [lia |].
    destruct (py_int_truediv_cell max_side w Hm ltac:(lia)) as (a & -> & _).
    reflexivity. }
  rewrite E. reflexivity.
Qed.

Lemma X3_zero_sided_image_division_error_witness :
  _preprocess_to_jpeg_bytes raw_pil [x52; x00; x05; x00; x00] 1024
  = Err ZeroDivisionError.
Proof.
  apply (X3_zero_sided_image_division_error raw_pil [x52; x00; x05; x00; x00] 1024
           (5, 0) (5, 0) 5 0);
    try (vm_compute; reflexivity); try (right; reflexivity);
    try (split; vm_compute; (reflexivity || discriminate));
    vm_compute; discriminate.
Defined.
(** ** The aspect ratio *)

(** A side [d] of an image whose longer side is [l], scaled by a float
    within one rounding of [m / l], multiplied and cut to an integer [n]:
    [n] is less than a pixel and a half under [d * m / l] and less than
    half a pixel over it. *)
Lemma side_proportional (m l d : Z) (scale p : spec_float) (n : Z) :
  0 < m < 2 ^ 50 -> 0 < d <= l ->
  ((m # Z.to_pos l) * (1 - pow2 (- 52)) <= F2Q scale)%Q ->
  (F2Q scale <= (m # Z.to_pos l) * (1 + pow2 (- 52)))%Q ->
  in_cell p (inject_Z d * F2Q scale) ->
  (inject_Z n <= F2Q p)%Q -> (F2Q p < inject_Z n + 1)%Q ->
  2 * d * m - 3 * l < 2 * l * n < 2 * d * m + l.
Proof.
  intros Hm Hd Hlo Hhi Cp F1 F2.
  pose proof (in_cell_lower p _ Cp) as Pl.
  pose proof (in_cell_upper p _ Cp) as Pu.
  assert (HD : (0 < inject_Z d)%Q).
  { change 0%Q with (inject_Z 0). rewrite <- Zlt_Qlt. lia. }
  change (pow2 (- 52)) with (1 # 4503599627370496)%Q in *.
  set (X := (d * m # Z.to_pos l)%Q).
  assert (EX : (inject_Z d * (m # Z.to_pos l) == X)%Q).
  { unfold X, Qeq, Qmult, inject_Z. cbn [Qnum Qden].
    rewrite Pos2Z.inj_mul. change (Zpos 1) with 1. ring. }
  assert (X0 : (0 < X)%Q).
  { unfold X, Qlt. cbn [Qnum Qden]. nia. }
  assert (XM : (X <= 1125899906842623)%Q).
  { unfold X, Qle. cbn [Qnum Qden]. rewrite Z2Pos.id by lia.
    change (2 ^ 50) with 1125899906842624 in Hm. nia. }
  set (R := (m # Z.to_pos l)%Q) in *. set (S := F2Q scale) in *.
  set (D := inject_Z d) in *.
  assert (Y1 : (X * (1 - (1 # 4503599627370496)) <= D * S)%Q).
  { rewrite <- EX.
    apply Qle_trans with (D * (R * (1 - (1 # 4503599627370496))))%Q.
    - rewrite Qmult_assoc. apply Qle_refl.
    - apply Qmult_le_l; assumption. }
  assert (Y2 : (D * S <= X * (1 + (1 # 4503599627370496)))%Q).
  { rewrite <- EX.
    apply Qle_trans with (D * (R * (1 + (1 # 4503599627370496))))%Q.
    - apply Qmult_le_l; assumption.
    - rewrite Qmult_assoc. apply Qle_refl. }
  set (Y := (D * S)%Q) in *. set (P := F2Q p) in *. set (N := inject_Z n) in *.
  assert (N1 : (N < X + (1 # 2))%Q) by lra.
  assert (N2 : (X - (3 # 2) < N)%Q) by lra.
  assert (E1 : (X + (1 # 2) == (2 * d * m + l # (2 * Z.to_pos l)%positive))%Q).
  { unfold X, Qeq, Qplus. cbn [Qnum Qden].
    rewrite !Pos2Z.inj_mul, !Z2Pos.id by lia. ring. }
  assert (E2 : (X - (3 # 2) == (2 * d * m - 3 * l # (2 * Z.to_pos l)%positive))%Q).
  { unfold X, Qeq, Qminus, Qplus, Qopp. cbn [Qnum Qden].
    rewrite !Pos2Z.inj_mul, !Z2Pos.id by lia. ring. }
  rewrite E1 in N1. rewrite E2 in N2.
  unfold N, Qlt, inject_Z in N1, N2. cbn [Qnum Qden] in N1, N2.
  rewrite Pos2Z.inj_mul, Z2Pos.id in N1, N2 by lia. lia.
Qed.

(** X14: a downscaled image keeps its aspect ratio up to the cut to whole
    pixels: with [l] the longer side of the original, each new side is
    less than a pixel and a half under its exact share
    [side * max_side / l] and less than half a pixel over it (sides below
    2^53, [max_side] below 2^50). *)
Theorem X14_downscale_keeps_aspect_ratio (max_side w h : Z) :
  0 < max_side < 2 ^ 50 -> 0 < w < 2 ^ 53 -> 0 < h < 2 ^ 53 ->
  max_side < Z.max w h ->
  exists nw nh : Z,
    scaled_size max_side w h = Ok (Some (nw, nh))
    /\ 2 * w * max_side - 3 * Z.max w h < 2 * Z.max w h * nw
       < 2 * w * max_side + Z.max w h
    /\ 2 * h * max_side - 3 * Z.max w h < 2 * Z.max w h * nh
       < 2 * h * max_side + Z.max w h.
Proof.
  intros Hm Hw Hh Hbig.
  assert (Hm' : 0 < max_side < 2 ^ 53).
  { split; [lia |]. apply Z.lt_trans with (2 ^ 50); [lia | reflexivity]. }
  destruct (py_int_truediv_cell max_side w Hm' Hw) as (a & Ea & Ca & _).
  destruct (py_int_truediv_cell max_side h Hm' Hh) as (b & Eb & Cb & _).
  destruct (scaled_size_spec max_side w h Hm Hw Hh) as (scale & Es & Hn & H1 & Hbr).
  assert (Escale : scale = py_min3 a b one).
  { unfold scale_factor in Es. rewrite Ea, Eb in Es. cbn [rbind] in Es.
    injection Es as <-. reflexivity. }
  pose proof (py_min3_spec a b one (proj1 Ca) (proj1 Cb) normal_pos_one)
    as (Hsel & Sa & Sb & _). rewrite <- Escale in Hsel, Sa, Sb.
  destruct (SFltb scale one); [| lia].
  destruct Hbr as (_ & pw & ph & nw & nh & _ & _ & _ & _ & Ess & Cpw & Cph
                   & Fw1 & Fw2 & Fh1 & Fh2 & _).
  exists nw, nh. split; [exact Ess |].
  set (l := Z.max w h) in *.
  assert (Hl : 0 < l) by (unfold l; lia).
  pose proof (in_cell_lower a _ Ca) as La.
  pose proof (in_cell_lower b _ Cb) as Lb.
  pose proof (in_cell_upper a _ Ca) as Ua.
  pose proof (in_cell_upper b _ Cb) as Ub.
  assert (Hlo : ((max_side # Z.to_pos l) * (1 - pow2 (- 52)) <= F2Q scale)%Q).
  { pose proof (ratio_le max_side w l ltac:(lia) ltac:(lia) ltac:(unfold l; lia)) as Rw.
    pose proof (ratio_le max_side h l ltac:(lia) ltac:(lia) ltac:(unfold l; lia)) as Rh.
    assert (R1 : (max_side # Z.to_pos l <= 1)%Q).
    { unfold Qle. cbn [Qnum Qden]. rewrite Z2Pos.id by lia. lia. }
    assert (R0 : (0 < max_side # Z.to_pos l)%Q).
    { unfold Qlt. cbn [Qnum Qden]. lia. }
    change (pow2 (- 52)) with (1 # 4503599627370496)%Q in *.
    destruct Hsel as [-> | [-> | ->]]; [nra | nra | rewrite F2Q_one; nra]. }
  assert (Hhi : (F2Q scale <= (max_side # Z.to_pos l) * (1 + pow2 (- 52)))%Q).
  { destruct (Z.max_spec w h) as [[_ E] | [_ E]]; fold l in E; rewrite E; lra. }
  split.
  - apply (side_proportional max_side l w scale pw nw); try assumption.
    unfold l; lia.
  - apply (side_proportional max_side l h scale ph nh); try assumption.
    unfold l; lia.
Qed.

Lemma X14_downscale_keeps_aspect_ratio_witness :
  exists nw nh : Z,
    scaled_size 1024 4000 3000 = Ok (Some (nw, nh))
    /\ 2 * 4000 * 1024 - 3 * Z.max 4000 3000 < 2 * Z.max 4000 3000 * nw
       < 2 * 4000 * 1024 + Z.max 4000 3000
    /\ 2 * 3000 * 1024 - 3 * Z.max 4000 3000 < 2 * Z.max 4000 3000 * nh
       < 2 * 3000 * 1024 + Z.max 4000 3000.
Proof.
  apply (X14_downscale_keeps_aspect_ratio 1024 4000 3000);
    vm_compute; try split; reflexivity.
Defined.
(** ** The data URL *)

Lemma bytes_ind3 (P : bytes -> Prop) :
  P [] -> (forall a, P [a]) -> (forall a b, P [a; b]) ->
  (forall a b c rest, P rest -> P (a :: b :: c :: rest)) ->
  forall s, P s.
Proof.
  intros H0 H1 H2 H3.
  fix IH 1. intros [| a [| b [| c rest]]];
    [apply H0 | apply H1 | apply H2 | apply H3, IH].
Qed.

Lemma b64_index_sextet (n : N) :
  (n < 64)%N -> b64_index (base64.sextet n) = Some n.
Proof.
  intros H. destruct n as [| p]; [reflexivity |].
  do 6 (try destruct p as [p | p |]); try reflexivity; exfalso; lia.
Qed.

Lemma byte_of_to_N (a : byte) : byte_of_N (Byte.to_N a) = a.
Proof. unfold byte_of_N. rewrite Byte.of_to_N. reflexivity. Qed.

Lemma to_N_lt (a : byte) : (Byte.to_N a < 256)%N.
Proof. pose proof (Byte.to_N_bounded a). lia. Qed.

Lemma unbase64_quad (c1 c2 c3 c4 : ascii) (rest : string) (v1 v2 v3 v4 : N) :
  b64_index c1 = Some v1 -> b64_index c2 = Some v2 ->
  b64_index c3 = Some v3 -> b64_index c4 = Some v4 ->
  unbase64 (String c1 (String c2 (String c3 (String c4 rest))))
  = match unbase64 rest with
    | Some tl =>
        Some (byte_of_N (v1 * 4 + v2 / 16)
                :: byte_of_N ((v2 mod 16) * 16 + v3 / 4)
                :: byte_of_N ((v3 mod 4) * 64 + v4) :: tl)
    | None => None
    end%N.
Proof.
  intros E1 E2 E3 E4. cbn [unbase64]. rewrite E1, E2, E3, E4. reflexivity.
Qed.

Lemma unbase64_pad1 (c1 c2 c3 : ascii) (v1 v2 v3 : N) :
  b64_index c1 = Some v1 -> b64_index c2 = Some v2 -> b64_index c3 = Some v3 ->
  unbase64 (String c1 (String c2 (String c3 (String base64.pad ""))))
  = Some [byte_of_N (v1 * 4 + v2 / 16); byte_of_N ((v2 mod 16) * 16 + v3 / 4)]%N.
Proof.
  intros E1 E2 E3. cbn [unbase64]. rewrite E1, E2, E3. reflexivity.
Qed.

Lemma unbase64_pad2 (c1 c2 : ascii) (v1 v2 : N) :
  b64_index c1 = Some v1 -> b64_index c2 = Some v2 ->
  unbase64 (String c1 (String c2 (String base64.pad (String base64.pad ""))))
  = Some [byte_of_N (v1 * 4 + v2 / 16)]%N.
Proof.
  intros E1 E2. cbn [unbase64]. rewrite E1, E2. reflexivity.
Qed.

Ltac divmod := Z.to_euclidean_division_equations; lia.

Lemma split3 (A B C : N) :
  (A < 256 -> B < 256 -> C < 256 ->
   let n := A * 65536 + B * 256 + C in
   n / 262144 < 64 /\ (n / 4096) mod 64 < 64 /\ (n / 64) mod 64 < 64 /\ n mod 64 < 64
   /\ (n / 262144) * 4 + ((n / 4096) mod 64) / 16 = A
   /\ (((n / 4096) mod 64) mod 16) * 16 + ((n / 64) mod 64) / 4 = B
   /\ (((n / 64) mod 64) mod 4) * 64 + n mod 64 = C)%N.
Proof.
  intros HA HB HC n. subst n. zify. divmod.
Qed.

Lemma split2 (A B : N) :
  (A < 256 -> B < 256 ->
   let n := A * 256 + B in
   n / 1024 < 64 /\ (n / 16) mod 64 < 64 /\ (n mod 16) * 4 < 64
   /\ (n / 1024) * 4 + ((n / 16) mod 64) / 16 = A
   /\ (((n / 16) mod 64) mod 16) * 16 + ((n mod 16) * 4) / 4 = B)%N.
Proof.
  intros HA HB n. subst n. zify. divmod.
Qed.

Lemma split1 (A : N) :
  (A < 256 ->
   A / 4 < 64 /\ (A mod 4) * 16 < 64
   /\ (A / 4) * 4 + ((A mod 4) * 16) / 16 = A)%N.
Proof.
  intros HA. zify. divmod.
Qed.

(** Reading back what [base64.b64encode] wrote gives the bytes again. *)
Lemma unbase64_b64encode (s : bytes) : unbase64 (base64.b64encode s) = Some s.
Proof.
  induction s as [| a | a b | a b c rest IH] using bytes_ind3.
  - reflexivity.
  - cbn [base64.b64encode].
    destruct (split1 (Byte.to_N a) (to_N_lt a)) as (L1 & L2 & E).
    rewrite (unbase64_pad2 _ _ _ _ (b64_index_sextet _ L1) (b64_index_sextet _ L2)).
    rewrite E, byte_of_to_N. reflexivity.
  - cbn [base64.b64encode].
    destruct (split2 (Byte.to_N a) (Byte.to_N b) (to_N_lt a) (to_N_lt b))
      as (L1 & L2 & L3 & E1 & E2).
    rewrite (unbase64_pad1 _ _ _ _ _ _ (b64_index_sextet _ L1)
               (b64_index_sextet _ L2) (b64_index_sextet _ L3)).
    cbv zeta in E1, E2. rewrite E1, E2, !byte_of_to_N. reflexivity.
  - cbn [base64.b64encode].
    destruct (split3 (Byte.to_N a) (Byte.to_N b) (Byte.to_N c)
                (to_N_lt a) (to_N_lt b) (to_N_lt c))
      as (L1 & L2 & L3 & L4 & E1 & E2 & E3).
    rewrite (unbase64_quad _ _ _ _ _ _ _ _ _ (b64_index_sextet _ L1)
               (b64_index_sextet _ L2) (b64_index_sextet _ L3) (b64_index_sextet _ L4)).
    rewrite IH. cbv zeta in E1, E2, E3. rewrite E1, E2, E3, !byte_of_to_N. reflexivity.
Qed.

Lemma b64encode_length (s : bytes) :
  String.length (base64.b64encode s) = (4 * ((List.length s + 2) / 3))%nat.
Proof.
  induction s as [| a | a b | a b c rest IH] using bytes_ind3; try reflexivity.
  cbn [base64.b64encode String.length List.length]. rewrite IH.
  replace (S (S (S (List.length rest))) + 2)%nat
    with (1 * 3 + (List.length rest + 2))%nat by lia.
  rewrite Nat.div_add_l by discriminate. lia.
Qed.

(** X4: the data URL of [n] bytes has [23 + 4 * ceil(n / 3)] characters:
    the 23 of the prefix [data:image/jpeg;base64,] and four for every
    three bytes, a last group of one or two bytes counting as three. *)
Theorem X4_data_url_length (image_jpeg_bytes : bytes) :
  String.length (_to_data_url image_jpeg_bytes)
  = (23 + 4 * ((List.length image_jpeg_bytes + 2) / 3))%nat.
Proof.
  unfold _to_data_url. cbn [append String.length].
  rewrite b64encode_length. reflexivity.
Qed.

Lemma append_inv_head (p a b : string) : (p ++ a = p ++ b)%string -> a = b.
Proof.
  induction p as [| c p IH]; cbn [append]; intros H; [exact H |].
  injection H as H. apply IH, H.
Qed.

(** X5: the data URL loses nothing of the image: it is the fixed prefix
    followed by a text that [unbase64] reads back to exactly the bytes
    given, and two different byte strings never get the same URL. *)
Theorem X5_data_url_round_trip (image_jpeg_bytes : bytes) :
  (exists payload : string,
      _to_data_url image_jpeg_bytes = (data_url_prefix ++ payload)%string
      /\ unbase64 payload = Some image_jpeg_bytes)
  /\ (forall other : bytes,
         _to_data_url other = _to_data_url image_jpeg_bytes ->
         other = image_jpeg_bytes).
Proof.
  split.
  - exists (base64.b64encode image_jpeg_bytes). split; [reflexivity |].
    apply unbase64_b64encode.
  - intros other H. unfold _to_data_url in H. apply append_inv_head in H.
    pose proof (unbase64_b64encode other) as E. rewrite H in E.
    rewrite unbase64_b64encode in E. injection E as E. symmetry. exact E.
Qed.

Lemma X5_data_url_round_trip_witness :
  (exists payload : string,
      _to_data_url selfie_2x3 = (data_url_prefix ++ payload)%string
      /\ unbase64 payload = Some selfie_2x3)
  /\ (forall other : bytes,
         _to_data_url other = _to_data_url selfie_2x3 -> other = selfie_2x3).
Proof.
  apply (X5_data_url_round_trip selfie_2x3).
Defined.
(** ** Failures and the state *)










Lemma planned_content_selfie_err (PIL : ImagingLib) (sel : bytes)
    (ref : option bytes) (e : exn) :
  _preprocess_to_jpeg_bytes PIL sel 1024 = Err e ->
  planned_content PIL sel ref = Err e.
Proof. intros H. unfold planned_content. rewrite H. reflexivity. Qed.

Lemma planned_content_reference_err (PIL : ImagingLib) (sel : bytes)
    (selfie_jpeg : bytes) (x : byte) (b : bytes) (e : exn) :
  _preprocess_to_jpeg_bytes PIL sel 1024 = Ok selfie_jpeg ->
  _preprocess_to_jpeg_bytes PIL (x :: b) 1024 = Err e ->
  planned_content PIL sel (Some (x :: b)) = Err e.
Proof.
  intros Hs Hr. unfold planned_content. rewrite Hs. cbn [rbind reference_of truthy_bytes].
  rewrite Hr. reflexivity.
Qed.

(** X7: with a key and no memoized result, a selfie that cannot be
    prepared, or a non-empty reference that cannot once the selfie could,
    makes the call fail with the exception of that preparation; nothing is
    sent and the state is left as it was.  The selfie is prepared first,
    so its exception is the one raised when both images are bad. *)
Theorem X7_unprepared_image_stops_call
    (PIL : ImagingLib) (sel : bytes) (ref : option bytes) (w : world) (e : exn) :
  key_resolved w = true ->
  cache_lookup (cache w) (sel, ref) = None ->
  _preprocess_to_jpeg_bytes PIL sel 1024 = Err e
  \/ (exists (selfie_jpeg : bytes) (x : byte) (b : bytes),
         _preprocess_to_jpeg_bytes PIL sel 1024 = Ok selfie_jpeg
         /\ ref = Some (x :: b)
         /\ _preprocess_to_jpeg_bytes PIL (x :: b) 1024 = Err e) ->
  suggest_skin_tone PIL sel ref w = (Err e, w).
Proof.
  intros K L H.
  assert (P : planned_content PIL sel ref = Err e).
  { destruct H as [H | (sj & x & b & Hs & -> & Hr)].
    - apply planned_content_selfie_err, H.
    - apply (planned_content_reference_err PIL sel sj x b e Hs Hr). }
  unfold suggest_skin_tone, cache_data. rewrite L, body_unfold.
  destruct (get_client_run w) as [(c & -> & _) | (e0 & _ & K' & _)]; [| congruence].
  rewrite P. reflexivity.
Qed.

Lemma X7_unprepared_image_stops_call_witness :
  suggest_skin_tone raw_pil selfie_2x3 (Some no_image) (fresh_world [])
  = (Err UnidentifiedImageError, fresh_world []).
Proof.
  apply (X7_unprepared_image_stops_call raw_pil selfie_2x3 (Some no_image)
           (fresh_world []) UnidentifiedImageError).
  - reflexivity.
  - reflexivity.
  - right. exists [x4a; x00; x02; x00; x03], x00, [x01].
    split; [reflexivity |]. split; reflexivity.
Defined.

Lemma get_client_key (w w' : world) (c : client) :
  _get_openai_client w = (Ok c, w') ->
  resolved_key w = Ok (Some (api_key c)) /\ api_key c <> "".
Proof.
  unfold _get_openai_client.
  destruct (resolved_key w) as [[[| a k] |] | e]; try discriminate.
  intros [= <- _]. cbn [api_key]. split; [reflexivity | discriminate].
Qed.

Lemma call_key (PIL : ImagingLib) (sel : bytes) (ref : option bytes)
    (w : world) (c : client) (r : request) :
  In (c, r) (new_calls w (snd (suggest_skin_tone PIL sel ref w))) ->
  resolved_key w = Ok (Some (api_key c)) /\ api_key c <> "".
Proof.
  intros Hin.
  destruct (cached_inv PIL sel ref w _ _ (surjective_pairing _))
    as [(v0 & _ & _ & E) | (_ & res1 & w1 & B & _ & Hw')].
  - rewrite E, new_calls_same in Hin. destruct Hin.
  - assert (Hin1 : In (c, r) (new_calls w w1)).
    { destruct res1; rewrite Hw' in Hin; [rewrite new_calls_cache in Hin |]; exact Hin. }
    clear Hin Hw'. rewrite body_unfold in B.
    destruct (_get_openai_client w) as [[c0 | e0] w0] eqn:Ec.
    + destruct (get_client_key _ _ _ Ec) as [Hk Hne].
      destruct (planned_content PIL sel ref) as [content | e1].
      * cbv zeta in B.
        assert (Ew : w1 = with_sent w (sent w ++ [(c0, expected_request content)])).
        { destruct (service w _ c0 _); injection B as _ <-; reflexivity. }
        rewrite Ew, new_calls_sent in Hin1.
        destruct Hin1 as [[= <- _] | []]. split; assumption.
      * injection B as _ <-. rewrite new_calls_same in Hin1. destruct Hin1.
    + injection B as _ <-. rewrite new_calls_same in Hin1. destruct Hin1.
Qed.

(** X8: every request the function sends is made with the key the
    process resolves, which is never empty: the key of the Streamlit
    secrets when there is a non-empty one, whatever the environment holds,
    and otherwise (no secrets, no such entry, or an empty one) the key of
    the environment. *)
Theorem X8_request_carries_resolved_key
    (PIL : ImagingLib) (sel : bytes) (ref : option bytes)
    (w : world) (c : client) (r : request) :
  In (c, r) (new_calls w (snd (suggest_skin_tone PIL sel ref w))) ->
  api_key c <> ""
  /\ match st_secrets w with
     | Some secrets =>
         match assoc_get secrets OPENAI_API_KEY with
         | Some (String a k) => api_key c = String a k
         | _ => assoc_get (os_environ w) OPENAI_API_KEY = Some (api_key c)
         end
     | None => assoc_get (os_environ w) OPENAI_API_KEY = Some (api_key c)
     end.
Proof.
  intros Hin. destruct (call_key PIL sel ref w c r Hin) as [Hk Hne].
  split; [exact Hne |].
  unfold resolved_key, secrets_get, py_or in Hk. fold OPENAI_API_KEY in Hk.
  destruct (st_secrets w) as [secrets |]; cbn [rbind truthy_str] in Hk;
    [| injection Hk as Hk; exact Hk].
  destruct (secrets_found w); cbn [rbind] in Hk; [| discriminate Hk].
  destruct (assoc_get secrets OPENAI_API_KEY) as [[| a k] |];
    cbn [truthy_str] in Hk; congruence.
Qed.

Lemma X8_request_carries_resolved_key_witness :
  api_key {| api_key := "sk-secret" |} <> ""
  /\ api_key {| api_key := "sk-secret" |} = "sk-secret".
Proof.
  apply (X8_request_carries_resolved_key raw_pil selfie_2x3 None two_keys_world
           {| api_key := "sk-secret" |}
           (expected_request
              [input_text instruction;
               input_image (_to_data_url [x4a; x00; x02; x00; x03])])).
  vm_compute. left. reflexivity.
Defined.

(** One call: the three inputs of the process are left alone, at most one
    request is appended to the log, and at most one result is put in front
    of the memo table, and only when a request was sent. *)
Lemma call_frame (PIL : ImagingLib) (sel : bytes) (ref : option bytes) (w : world) :
  st_secrets (snd (suggest_skin_tone PIL sel ref w)) = st_secrets w
  /\ os_environ (snd (suggest_skin_tone PIL sel ref w)) = os_environ w
  /\ service (snd (suggest_skin_tone PIL sel ref w)) = service w
  /\ secrets_found (snd (suggest_skin_tone PIL sel ref w)) = secrets_found w
  /\ recursion_room (snd (suggest_skin_tone PIL sel ref w)) = recursion_room w
  /\ exists requests memoized,
       sent (snd (suggest_skin_tone PIL sel ref w)) = sent w ++ requests
       /\ cache (snd (suggest_skin_tone PIL sel ref w)) = memoized ++ cache w
       /\ (List.length memoized <= List.length requests <= 1)%nat.
Proof.
  destruct (cached_inv PIL sel ref w _ _ (surjective_pairing _))
    as [(v0 & _ & _ & ->) | (_ & res1 & w1 & B & _ & Hw')].
  - repeat (split; [reflexivity |]). exists [], [].
    rewrite app_nil_r. cbn. repeat split; lia.
  - destruct (body_inv _ _ _ _ _ _ B)
      as [(-> & e & -> & _) | (c & content & _ & _ & -> & Hres)].
    + rewrite Hw'. repeat (split; [reflexivity |]). exists [], [].
      rewrite app_nil_r. cbn. repeat split; lia.
    + destruct res1 as [v | e]; rewrite Hw'; repeat (split; [reflexivity |]).
      * exists [(c, expected_request content)], [((sel, ref), v)].
        cbn. repeat split; lia.
      * exists [(c, expected_request content)], []. cbn. repeat split; lia.
Qed.

(** X9: whatever calls are made and whatever they return, the secrets
    (and whether their file is found), the environment, the service and
    the room for recursion are left as they were, the log of
    requests only grows at its end and the memo table only at its front
    (no entry is dropped or replaced), by no more results than requests
    and no more requests than calls. *)
Theorem X9_calls_only_append
    (PIL : ImagingLib) (calls : list (bytes * option bytes)) (w : world) :
  st_secrets (after_calls PIL calls w) = st_secrets w
  /\ os_environ (after_calls PIL calls w) = os_environ w
  /\ service (after_calls PIL calls w) = service w
  /\ secrets_found (after_calls PIL calls w) = secrets_found w
  /\ recursion_room (after_calls PIL calls w) = recursion_room w
  /\ exists requests memoized,
       sent (after_calls PIL calls w) = sent w ++ requests
       /\ cache (after_calls PIL calls w) = memoized ++ cache w
       /\ (List.length memoized <= List.length requests <= List.length calls)%nat.
Proof.
  revert w. induction calls as [| [a b] rest IH]; intros w; cbn [after_calls].
  - repeat (split; [reflexivity |]). exists [], [].
    rewrite app_nil_r. cbn. repeat split; lia.
  - destruct (call_frame PIL a b w)
      as (S1 & S2 & S3 & S4 & S5 & l1 & m1 & Es1 & Ec1 & Hl1).
    destruct (IH (snd (suggest_skin_tone PIL a b w)))
      as (T1 & T2 & T3 & T4 & T5 & l2 & m2 & Es2 & Ec2 & Hl2).
    split; [congruence |]. split; [congruence |]. split; [congruence |].
    split; [congruence |]. split; [congruence |].
    exists (l1 ++ l2), (m2 ++ m1).
    rewrite Es2, Es1, Ec2, Ec1, <- !app_assoc, !length_app. cbn [List.length].
    repeat split; lia.
Qed.

(** X15: where Streamlit has its secrets attribute but finds no
    [secrets.toml], a call that is not answered from the memo table fails
    with the exception of the read of [st.secrets], whatever key the
    environment holds: the environment is not looked at, nothing is
    sent, nothing is memoized and the state is left as it was. *)
Theorem X15_missing_secrets_file_stops_call
    (PIL : ImagingLib) (sel : bytes) (ref : option bytes) (w : world)
    (secrets : list (string * string)) :
  st_secrets w = Some secrets ->
  secrets_found w = false ->
  cache_lookup (cache w) (sel, ref) = None ->
  _get_openai_client w = (Err StreamlitSecretNotFoundError, w)
  /\ suggest_skin_tone PIL sel ref w = (Err StreamlitSecretNotFoundError, w).
Proof.
  intros Hs Hf L.
  assert (Ec : _get_openai_client w = (Err StreamlitSecretNotFoundError, w)).
  { unfold _get_openai_client, resolved_key, secrets_get. rewrite Hs, Hf. reflexivity. }
  split; [exact Ec |].
  unfold suggest_skin_tone, cache_data. rewrite L, body_unfold, Ec. reflexivity.
Qed.

Lemma X15_missing_secrets_file_stops_call_witness :
  _get_openai_client no_secrets_file_world
  = (Err StreamlitSecretNotFoundError, no_secrets_file_world)
  /\ suggest_skin_tone raw_pil selfie_2x3 None no_secrets_file_world
     = (Err StreamlitSecretNotFoundError, no_secrets_file_world).
Proof.
  apply (X15_missing_secrets_file_stops_call raw_pil selfie_2x3 None
           no_secrets_file_world []); reflexivity.
Defined.
(** ** The page *)

Lemma index_of_some (x : string) (l : list string) (i : nat) :
  index_of x l = Some i -> nth_error l i = Some x /\ (i < List.length l)%nat.
Proof.
  revert i. induction l as [| y l IH]; intros i; cbn [index_of]; [discriminate |].
  destruct (String.eqb y x) eqn:E.
  - intros [= <-]. apply String.eqb_eq in E. subst y. cbn. split; [reflexivity | lia].
  - destruct (index_of x l) as [j |]; [| discriminate].
    intros [= <-]. destruct (IH j eq_refl) as [H1 H2]. cbn. split; [exact H1 | lia].
Qed.

Lemma index_of_none (x : string) (l : list string) :
  index_of x l = None -> ~ In x l.
Proof.
  induction l as [| y l IH]; cbn [index_of]; [intros _ [] |].
  destruct (String.eqb y x) eqn:E; [discriminate |].
  destruct (index_of x l); [discriminate |].
  intros _ [-> | H]; [rewrite String.eqb_refl in E; discriminate | exact (IH eq_refl H)].
Qed.

Lemma index_of_in (x : string) (l : list string) :
  In x l -> exists i, index_of x l = Some i.
Proof.
  intros H. destruct (index_of x l) as [i |] eqn:E; [eauto |].
  destruct (index_of_none x l E H).
Qed.

Lemma format_default : py_format_2f (JInt 0) = inr "0.00".
Proof. vm_compute. reflexivity. Qed.

(** What the page shows for a result, case by case. *)
Lemma show_result_cases (result : jvalue) (picked : option string) :
  ((forall d, result <> JDict d)
   /\ show_result result picked
      = ([st_subheader "Result"; st_json result], Some AttributeError))
  \/ exists d,
       result = JDict d
       /\ ((exists tone idx conf e,
               assoc_get d "skin_tone" = Some (JStr tone)
               /\ index_of tone SKIN_TONES = Some idx
               /\ assoc_get d "confidence" = Some conf
               /\ py_format_2f conf = inl e
               /\ show_result result picked
                  = ([st_subheader "Result"; st_json result], Some e))
           \/ (exists tone idx c,
                  assoc_get d "skin_tone" = Some (JStr tone)
                  /\ index_of tone SKIN_TONES = Some idx
                  /\ py_format_2f (match assoc_get d "confidence" with
                                   | Some conf => conf
                                   | None => JInt 0
                                   end) = inr c
                  /\ show_result result picked
                     = ([st_subheader "Result"; st_json result;
                         st_success (success_text tone c);
                         st_selectbox selectbox_label SKIN_TONES idx;
                         st_write "Final selection:"
                           (match picked with
                            | Some option => option
                            | None => nth idx SKIN_TONES ""
                            end)], None))
           \/ ((forall tone, assoc_get d "skin_tone" = Some (JStr tone) ->
                             index_of tone SKIN_TONES = None)
               /\ show_result result picked
                  = ([st_subheader "Result"; st_json result;
                      st_warning warning_text;
                      st_selectbox selectbox_label SKIN_TONES 0;
                      st_write "Final selection:"
                        (match picked with
                         | Some option => option
                         | None => "FAIR"
                         end)], None))).
Proof.
  destruct result as [| b | z | f | s | l | d];
    try (left; split; [intros d; discriminate | reflexivity]).
  right. exists d. split; [reflexivity |].
  unfold show_result.
  destruct (assoc_get d "skin_tone") as [[| b | z | f | tone | l | d'] |] eqn:Et;
    try (right; right; split; [intros tone [=] | reflexivity]).
  - destruct (index_of tone SKIN_TONES) as [idx |] eqn:Ei.
    + destruct (py_format_2f _) as [e | c] eqn:Ef.
      * left. destruct (assoc_get d "confidence") as [conf |] eqn:Ec.
        -- exists tone, idx, conf, e. repeat (split; [reflexivity || assumption |]).
           reflexivity.
        -- rewrite format_default in Ef. discriminate.
      * right. left. exists tone, idx, c. repeat (split; [reflexivity || assumption |]).
        reflexivity.
    + right. right. split; [| reflexivity]. intros t [= <-]. exact Ei.
Qed.

(** X10: the only exceptions a press on the button lets through.  An
    exception raised by the call itself is always caught and shown with
    [st.error].  After a call that returned, the page raises only when the
    result is not a [dict] ([AttributeError] on [result.get]), or when its
    tone is one of the eight labels and its confidence is present but
    cannot be formatted with [.2f]; sub-header and JSON view are then
    already on the page, the select box is not. *)
Theorem X10_uncaught_exceptions
    (PIL : ImagingLib) (selfie : bytes) (ref : option bytes) (picked : option string)
    (w w' : world) (shown : list widget) (e : page_exn) :
  on_click PIL selfie ref picked w = (shown, Some e, w') ->
  exists result,
    suggest_skin_tone PIL selfie ref w = (Ok result, w')
    /\ shown = [st_spinner "Analyzing..."; st_subheader "Result"; st_json result]
    /\ ((forall d, result <> JDict d) /\ e = AttributeError
        \/ exists d tone conf,
             result = JDict d
             /\ assoc_get d "skin_tone" = Some (JStr tone)
             /\ In tone SKIN_TONES
             /\ assoc_get d "confidence" = Some conf
             /\ py_format_2f conf = inl e).
Proof.
  unfold on_click.
  destruct (suggest_skin_tone PIL selfie ref w) as [[result | e0] w1]; [| discriminate].
  destruct (show_result_cases result picked)
    as [[Hnd E] | (d & -> & [(tone & idx & conf & e1 & Et & Ei & Ec & Ef & E)
                            | [(tone & idx & c & _ & _ & _ & E) | [_ E]]])];
    rewrite E; intros [= <- <- <-]; exists result || exists (JDict d);
    (split; [reflexivity |]); (split; [reflexivity |]).
  - left. split; [exact Hnd | reflexivity].
  - right. exists d, tone, conf. split; [reflexivity |]. split; [exact Et |].
    split; [| split; assumption].
    apply nth_error_In with idx. apply (index_of_some _ _ _ Ei).
Qed.

Lemma X10_uncaught_exceptions_witness :
  exists result,
    suggest_skin_tone raw_pil selfie_2x3 None worded_confidence_world
    = (Ok result,
       snd (suggest_skin_tone raw_pil selfie_2x3 None worded_confidence_world))
    /\ [st_spinner "Analyzing..."; st_subheader "Result";
        st_json (JDict [("skin_tone", JStr "TAN"); ("confidence", JStr "high");
                        ("needs_better_photo", JBool false); ("notes", JStr "ok");
                        ("warnings", JList [])])]
       = [st_spinner "Analyzing..."; st_subheader "Result"; st_json result]
    /\ ((forall d, result <> JDict d) /\ Raised ValueError = AttributeError
        \/ exists d tone conf,
             result = JDict d
             /\ assoc_get d "skin_tone" = Some (JStr tone)
             /\ In tone SKIN_TONES
             /\ assoc_get d "confidence" = Some conf
             /\ py_format_2f conf = inl (Raised ValueError)).
Proof.
  apply (X10_uncaught_exceptions raw_pil selfie_2x3 None None worded_confidence_world
           (snd (suggest_skin_tone raw_pil selfie_2x3 None worded_confidence_world))
           [st_spinner "Analyzing..."; st_subheader "Result";
            st_json (JDict [("skin_tone", JStr "TAN"); ("confidence", JStr "high");
                            ("needs_better_photo", JBool false); ("notes", JStr "ok");
                            ("warnings", JList [])])]
           (Raised ValueError)).
  vm_compute. reflexivity.
Defined.

Lemma format_in_bounds (conf : jvalue) :
  is_number conf = true ->
  num_leb (JInt 0) conf = true -> num_leb conf (JInt 1) = true ->
  exists c, py_format_2f conf = inr c.
Proof.
  destruct conf as [| b | z | f | s | l | d]; cbn [is_number]; try discriminate.
  - intros _ H0 H1. cbn [num_leb] in H0, H1.
    apply Z.leb_le in H0, H1.
    assert (Hz : z = 0 \/ z = 1) by lia.
    destruct Hz as [-> | ->]; eexists; vm_compute; reflexivity.
  - intros _ _ _. eexists. reflexivity.
Qed.

(** X11: an answer of the shape the schema describes is always rendered
    in full, without exception: spinner, sub-header, JSON view, one
    message, the select box and the final selection.  When the tone is one
    of the eight labels the message is the success text with the tone and
    the formatted confidence and the select box stands on that label;
    when it is [unknown] the message is the warning and the select box
    stands on the first label. *)
Theorem X11_conforming_answer_rendered
    (PIL : ImagingLib) (selfie : bytes) (ref : option bytes) (picked : option string)
    (w : world) (result : jvalue) :
  fst (suggest_skin_tone PIL selfie ref w) = Ok result ->
  answer_shape result ->
  exists tone conf c idx message,
    dict_get result "skin_tone" = Some (JStr tone)
    /\ dict_get result "confidence" = Some conf
    /\ py_format_2f conf = inr c
    /\ (idx < List.length SKIN_TONES)%nat
    /\ (In tone SKIN_TONES ->
        nth_error SKIN_TONES idx = Some tone
        /\ message = st_success (success_text tone c))
    /\ (tone = "unknown" -> idx = 0%nat /\ message = st_warning warning_text)
    /\ fst (on_click PIL selfie ref picked w)
       = ([st_spinner "Analyzing..."; st_subheader "Result"; st_json result;
           message;
           st_selectbox selectbox_label SKIN_TONES idx;
           st_write "Final selection:"
             (match picked with
              | Some option => option
              | None => nth idx SKIN_TONES ""
              end)], None).
Proof.
  intros Hrun Hshape.
  pose proof Hshape as (d & -> & Hreq & Hall).
  destruct (assoc_get d "skin_tone") as [t |] eqn:Et;
    [| exfalso; apply (Hreq "skin_tone"); [cbn; tauto | assumption]].
  destruct (assoc_get d "confidence") as [conf |] eqn:Ec;
    [| exfalso; apply (Hreq "confidence"); [cbn; tauto | assumption]].
  pose proof (Hall _ _ (assoc_get_in _ _ _ Et)) as Ft.
  pose proof (Hall _ _ (assoc_get_in _ _ _ Ec)) as Fc.
  destruct Ft as [[_ (tone & -> & Hs)] | [[K _] | [[K _] | [[K _] | [K _]]]]];
    try discriminate K.
  destruct Fc as [[K _] | [[_ (N & L0 & L1)] | [[K _] | [[K _] | [K _]]]]];
    try discriminate K.
  destruct (format_in_bounds conf N L0 L1) as [c Ef].
  unfold on_click.
  destruct (suggest_skin_tone PIL selfie ref w) as [[r | e0] w1];
    cbn [fst] in Hrun; [| discriminate].
  injection Hrun as ->.
  destruct (show_result_cases (JDict d) picked)
    as [[Hnd _] | (d0 & [= <-] & [(tone1 & idx & conf1 & e1 & Et1 & Ei & Ec1 & Ef1 & E)
                                  | [(tone1 & idx & c1 & Et1 & Ei & Ef1 & E) | [Hno E]]])].
  - destruct (Hnd d eq_refl).
  - rewrite Ec in Ec1. injection Ec1 as <-. rewrite Ef in Ef1. discriminate.
  - rewrite Et in Et1. injection Et1 as <-. rewrite Ec, Ef in Ef1. injection Ef1 as <-.
    destruct (index_of_some _ _ _ Ei) as [Hn Hlt].
    exists tone, conf, c, idx, (st_success (success_text tone c)).
    rewrite E. cbn [dict_get fst].
    split; [exact Et |]. split; [exact Ec |]. split; [exact Ef |]. split; [exact Hlt |].
    split; [intros _; split; [exact Hn | reflexivity] |].
    split; [| reflexivity].
    intros ->. vm_compute in Ei. discriminate.
  - pose proof (Hno tone Et) as Ei.
    exists tone, conf, c, 0%nat, (st_warning warning_text).
    rewrite E. cbn [dict_get fst].
    split; [exact Et |]. split; [exact Ec |]. split; [exact Ef |].
    split; [cbn; lia |].
    split; [intros Hin; destruct (index_of_none _ _ Ei Hin) |].
    split; [intros _; split; reflexivity | reflexivity].
Qed.

Lemma X11_conforming_answer_rendered_witness :
  exists tone conf c idx message,
    dict_get (decoded_answer "TAN" 1) "skin_tone" = Some (JStr tone)
    /\ dict_get (decoded_answer "TAN" 1) "confidence" = Some conf
    /\ py_format_2f conf = inr c
    /\ (idx < List.length SKIN_TONES)%nat
    /\ (In tone SKIN_TONES ->
        nth_error SKIN_TONES idx = Some tone
        /\ message = st_success (success_text tone c))
    /\ (tone = "unknown" -> idx = 0%nat /\ message = st_warning warning_text)
    /\ fst (on_click raw_pil selfie_2x3 None None (fresh_world [answer "TAN" "1"]))
       = ([st_spinner "Analyzing..."; st_subheader "Result";
           st_json (decoded_answer "TAN" 1);
           message;
           st_selectbox selectbox_label SKIN_TONES idx;
           st_write "Final selection:" (nth idx SKIN_TONES "")], None).
Proof.
  apply (X11_conforming_answer_rendered raw_pil selfie_2x3 None None
           (fresh_world [answer "TAN" "1"]) (decoded_answer "TAN" 1)).
  - vm_compute. reflexivity.
  - apply conforms_schema_iff. vm_compute. reflexivity.
Defined.

(** X12: whatever the result holds (any JSON value, any tone, any
    confidence), the select box is given the eight labels as options and
    an index within them, and that index is fixed by the result: it is the
    position of the result's tone when the tone is one of the labels, and
    0 when it is not.  The page then writes one final selection: the
    option the user picked or, when nothing was picked, the label at that
    very index. *)
Theorem X12_selectbox_within_options
    (result : jvalue) (picked : option string)
    (label : string) (options : list string) (index : nat) :
  In (st_selectbox label options index) (fst (show_result result picked)) ->
  label = selectbox_label
  /\ options = SKIN_TONES
  /\ (index < List.length SKIN_TONES)%nat
  /\ (forall tone,
         dict_get result "skin_tone" = Some (JStr tone) -> In tone SKIN_TONES ->
         nth_error SKIN_TONES index = Some tone)
  /\ ((forall tone,
          dict_get result "skin_tone" = Some (JStr tone) -> ~ In tone SKIN_TONES) ->
      index = 0%nat)
  /\ In (st_write "Final selection:"
           (match picked with
            | Some option => option
            | None => nth index SKIN_TONES ""
            end)) (fst (show_result result picked))
  /\ (forall written value,
         In (st_write written value) (fst (show_result result picked)) ->
         written = "Final selection:"
         /\ value = match picked with
                    | Some option => option
                    | None => nth index SKIN_TONES ""
                    end).
Proof.
  intros Hin.
  destruct (show_result_cases result picked)
    as [[_ E] | (d & -> & [(t & i & c & e & _ & _ & _ & _ & E)
                          | [(t & i & c & Et & Ei & Ef & E) | [Hno E]]])];
    rewrite E in *; cbn [fst In] in Hin.
  - destruct Hin as [H | [H | []]]; discriminate H.
  - destruct Hin as [H | [H | []]]; discriminate H.
  - destruct (index_of_some _ _ _ Ei) as [Hn Hlt].
    destruct Hin as [H | [H | [H | [H | [H | []]]]]]; try discriminate H.
    injection H as <- <- <-.
    split; [reflexivity |]. split; [reflexivity |]. split; [exact Hlt |].
    split; [| split; [| split]].
    + intros tone Ht _. cbn [dict_get] in Ht. rewrite Et in Ht.
      injection Ht as <-. exact Hn.
    + intros Hnot. destruct (Hnot t Et). apply nth_error_In with i. exact Hn.
    + cbn [fst In]. tauto.
    + intros written value Hw. cbn [fst In] in Hw.
      destruct Hw as [H | [H | [H | [H | [H | []]]]]]; try discriminate H.
      injection H as <- <-. split; reflexivity.
  - destruct Hin as [H | [H | [H | [H | [H | []]]]]]; try discriminate H.
    injection H as <- <- <-.
    split; [reflexivity |]. split; [reflexivity |]. split; [cbn; lia |].
    split; [| split; [| split]].
    + intros tone Ht Hlisted. cbn [dict_get] in Ht.
      destruct (index_of_none _ _ (Hno tone Ht) Hlisted).
    + intros _. reflexivity.
    + cbn [fst In]. destruct picked; cbn [nth SKIN_TONES]; tauto.
    + intros written value Hw. cbn [fst In] in Hw.
      destruct Hw as [H | [H | [H | [H | [H | []]]]]]; try discriminate H.
      injection H as <- <-. split; [reflexivity |]. destruct picked; reflexivity.
Qed.

Lemma X12_selectbox_within_options_witness :
  selectbox_label = selectbox_label
  /\ SKIN_TONES = SKIN_TONES
  /\ (5 < List.length SKIN_TONES)%nat
  /\ (forall tone,
         dict_get (decoded_answer "TAN" 1) "skin_tone" = Some (JStr tone) ->
         In tone SKIN_TONES ->
         nth_error SKIN_TONES 5 = Some tone)
  /\ ((forall tone,
          dict_get (decoded_answer "TAN" 1) "skin_tone" = Some (JStr tone) ->
          ~ In tone SKIN_TONES) ->
      5%nat = 0%nat)
  /\ In (st_write "Final selection:" (nth 5 SKIN_TONES ""))
        (fst (show_result (decoded_answer "TAN" 1) None))
  /\ (forall written value,
         In (st_write written value) (fst (show_result (decoded_answer "TAN" 1) None)) ->
         written = "Final selection:" /\ value = nth 5 SKIN_TONES "").
Proof.
  apply (X12_selectbox_within_options (decoded_answer "TAN" 1) None
           selectbox_label SKIN_TONES 5).
  vm_compute. tauto.
Defined.

(** X13: a result whose tone is not one of the eight labels as written
    (the word [unknown], a label in another case, a value that is no
    string, or no tone at all) gets the warning and the select box on the
    first label, FAIR; its confidence is not looked at, so none can make
    the page fail. *)
Theorem X13_unlisted_tone_falls_back
    (d : list (string * jvalue)) (picked : option string) :
  (forall tone, assoc_get d "skin_tone" = Some (JStr tone) -> ~ In tone SKIN_TONES) ->
  show_result (JDict d) picked
  = ([st_subheader "Result"; st_json (JDict d);
      st_warning warning_text;
      st_selectbox selectbox_label SKIN_TONES 0;
      st_write "Final selection:"
        (match picked with
         | Some option => option
         | None => "FAIR"
         end)], None).
Proof.
  intros Hno.
  destruct (show_result_cases (JDict d) picked)
    as [[Hnd _] | (d0 & [= <-] & [(t & i & c & e & Et & Ei & _)
                                 | [(t & i & c & Et & Ei & _) | [_ E]]])].
  - destruct (Hnd d eq_refl).
  - destruct (Hno t Et). apply nth_error_In with i. apply (index_of_some _ _ _ Ei).
  - destruct (Hno t Et). apply nth_error_In with i. apply (index_of_some _ _ _ Ei).
  - exact E.
Qed.

Lemma X13_unlisted_tone_falls_back_witness :
  show_result (JDict [("skin_tone", JStr "tan"); ("confidence", JStr "high")]) None
  = ([st_subheader "Result";
      st_json (JDict [("skin_tone", JStr "tan"); ("confidence", JStr "high")]);
      st_warning warning_text;
      st_selectbox selectbox_label SKIN_TONES 0;
      st_write "Final selection:" "FAIR"], None).
Proof.
  apply (X13_unlisted_tone_falls_back
           [("skin_tone", JStr "tan"); ("confidence", JStr "high")] None).
  intros tone H. vm_compute in H. injection H as <-.
  intros Hin. vm_compute in Hin.
  repeat (destruct Hin as [Hin | Hin]; [discriminate Hin |]). exact Hin.
Defined.
